(** * Endpoint-selection facilitator: scenario engine

    A shallow embedding of the scenario domain engine
    (src/domain, src/services, src/infra/repositories) together with the
    properties its specification states.

    Conventions of the embedding.
    - A Python [int] is a [Z].  A Python [float] is the rational [Qc] it
      denotes, and every operation on floats rounds its exact result to
      the nearest binary64 number, ties to even, subnormal numbers
      included ([f64_round]).  A number that is an [int] or a [float]
      according to how it was computed is a [PyNum].  Overflow is not
      represented: a result of magnitude [2 ** 1024] or more, where
      Python raises [OverflowError] or yields an infinity, is outside the
      embedding, and the statements that depend on it say so; the two
      zeros of binary64 are one number.
    - A [str] is the [string] of its UTF-8 encoding: one character of the
      [string] is one byte, [py_len] counts code points, and the code
      that looks at characters ([strip], the id pattern) reads them as
      Python does.
    - A [dict] with string keys is a [gmap string _]; a [list] is a [list].
    - An exception is a value of [CTTIError]; a function that can raise
      returns a [result].
    - [datetime.now()] is an explicit argument [now]. *)

From Stdlib Require Import ZArith QArith Qcanon Lia String Ascii List Permutation.
From Stdlib Require Import DecimalString DecimalZ.
From stdpp Require Import gmap strings list fin_maps sorting.

Open Scope string_scope.
Open Scope list_scope.
Open Scope Z_scope.

(** ** Numbers *)

Definition Z2Qc (z : Z) : Qc := Q2Qc (inject_Z z).

Definition Qc_ltb (a b : Qc) : bool :=
  match (a ?= b)%Qc with Lt => true | _ => false end.

(** *** binary64

    A finite binary64 number is a rational [n * 2 ** c] with
    [|n| <= 2 ** 53] and [c >= -1074].  Python's [float] operations
    compute the exact result and round it to the nearest such number,
    the one with the even significand when two are equally near. *)

(** [2 ** e] for an integer exponent of either sign. *)
Definition pow2 (e : Z) : Qc :=
  if 0 <=? e then Z2Qc (2 ^ e) else (/ Z2Qc (2 ^ (- e)))%Qc.

Definition Qc_abs (x : Qc) : Qc := if Qc_ltb x (Z2Qc 0) then (- x)%Qc else x.

(** The binary exponent of [x <> 0]: the [e] with
    [2 ** (e - 1) <= |x| < 2 ** e]. *)
Definition mag (x : Qc) : Z :=
  let k := Z.log2 (Z.abs (Qnum x)) - Z.log2 (Z.pos (Qden x)) in
  if Qc_ltb (Qc_abs x) (pow2 k) then k else k + 1.

(** The integer nearest to [y], the even one of the two when [y] lies
    halfway. *)
Definition round_half_even (y : Qc) : Z :=
  let p := Qnum y in
  let q := Z.pos (Qden y) in
  let fl := p / q in
  match 2 * (p mod q) ?= q with
  | Lt => fl
  | Gt => fl + 1
  | Eq => if Z.even fl then fl else fl + 1
  end.

(** The exponent of the unit in the last place of a binary64 number of
    the size of [x]: 53 significant bits, and no bit below
    [2 ** -1074]. *)
Definition f64_exp (x : Qc) : Z := Z.max (mag x - 53) (-1074).

(** Rounding to the nearest binary64 number, ties to even. *)
Definition f64_round (x : Qc) : Qc :=
  (Z2Qc (round_half_even (x / pow2 (f64_exp x))) * pow2 (f64_exp x))%Qc.

(** [a + b], [a - b], [a * b] and [a / b] on two [float]. *)
Definition f64_add (a b : Qc) : Qc := f64_round (a + b).
Definition f64_sub (a b : Qc) : Qc := f64_round (a - b).
Definition f64_mul (a b : Qc) : Qc := f64_round (a * b).
Definition f64_div (a b : Qc) : Qc := f64_round (a / b).

(** [float(z)], the conversion an [int] undergoes when it meets a
    [float]. *)
Definition f64_of_int (z : Z) : Qc := f64_round (Z2Qc z).

(** [a / b] on two [int]: the exact quotient, rounded once. *)
Definition int_truediv (a b : Z) : Qc := f64_round (Z2Qc a / Z2Qc b).

(** [x] is a binary64 number: a whole multiple of its unit in the last
    place. *)
Definition is_f64 (x : Qc) : Prop :=
  exists n : Z, (x / pow2 (f64_exp x))%Qc = Z2Qc n.

(** *** The numbers of the analysis code

    The analysis code is duck-typed over the weight of a criterion: the
    services only ever store an [int], but [sensitivity] stores a [float]
    in a derived copy and runs the very same [leaderboard] over it.  The
    arithmetic the analysis code uses is collected in one interface;
    [num_truediv] is [/], whose result is a [float]. *)

Class PyNumber (W : Type) := {
  num_of_int : Z -> W;
  num_add : W -> W -> W;
  num_sub : W -> W -> W;
  num_mul : W -> W -> W;
  num_ltb : W -> W -> bool;
  num_truediv : W -> W -> Qc
}.

#[export] Instance PyInt : PyNumber Z := {|
  num_of_int := fun z => z;
  num_add := Z.add;
  num_sub := Z.sub;
  num_mul := Z.mul;
  num_ltb := Z.ltb;
  num_truediv := int_truediv
|}.

(** A number that is an [int] or a [float]. *)
Inductive PyNum :=
| PInt (z : Z)
| PFloat (x : Qc).

(** The number a [PyNum] denotes. *)
Definition num_val (x : PyNum) : Qc :=
  match x with PInt z => Z2Qc z | PFloat q => q end.

(** The [float] operand of a mixed operation: an [int] is converted. *)
Definition to_float (x : PyNum) : Qc :=
  match x with PInt z => f64_of_int z | PFloat q => q end.

(** Two [int] are combined exactly; when one operand is a [float] the
    other is converted and the operation is the one on [float].  The
    comparison of an [int] and a [float] compares the two numbers
    exactly. *)
Definition py_arith (fi : Z -> Z -> Z) (ff : Qc -> Qc -> Qc) (x y : PyNum) : PyNum :=
  match x, y with
  | PInt a, PInt b => PInt (fi a b)
  | _, _ => PFloat (ff (to_float x) (to_float y))
  end.

Definition py_truediv (x y : PyNum) : Qc :=
  match x, y with
  | PInt a, PInt b => int_truediv a b
  | _, _ => f64_div (to_float x) (to_float y)
  end.

#[export] Instance PyMixed : PyNumber PyNum := {|
  num_of_int := PInt;
  num_add := py_arith Z.add f64_add;
  num_sub := py_arith Z.sub f64_sub;
  num_mul := py_arith Z.mul f64_mul;
  num_ltb := fun x y => Qc_ltb (num_val x) (num_val y);
  num_truediv := py_truediv
|}.

(** ** Text

    A [str] is held as its UTF-8 encoding, one byte per character of the
    [string]. *)

(** The value of a byte. *)
Definition byte_val (c : ascii) : N := N_of_ascii c.

(** A byte that continues a code point: [10xxxxxx]. *)
Definition is_cont (c : ascii) : bool :=
  ((128 <=? byte_val c) && (byte_val c <? 192))%N.

(** [len(s)]: the number of code points. *)
Fixpoint py_len (s : string) : nat :=
  match s with
  | EmptyString => 0%nat
  | String c r => if is_cont c then py_len r else S (py_len r)
  end.

(** ** Errors (src/domain/errors.py) *)

Inductive CTTIError :=
| ValidationError (msg : string)
| StateError (msg : string)
| NotFoundError (msg : string)
| LockedError (msg : string)
| IOError (msg : string).

Inductive result (A : Type) :=
| Ok (a : A)
| Raise (e : CTTIError).
Arguments Ok {A} a.
Arguments Raise {A} e.

(** ** Entity model (src/domain/models.py) *)

(** A datetime is represented by its count of microseconds. *)
Definition datetime := Z.

Record Anchors := { hi : string; lo : string }.

Record Criterion (W : Type) := {
  c_id : string;
  c_name : string;
  c_weight : W;
  c_anchors : Anchors;
  c_active : bool
}.
Arguments c_id {W} _.
Arguments c_name {W} _.
Arguments c_weight {W} _.
Arguments c_anchors {W} _.
Arguments c_active {W} _.

Record Option := {
  o_id : string;
  o_name : string;
  o_notes : option string
}.

Record Score := {
  optionId : string;
  criterionId : string;
  raw : Z;
  rationale : option string
}.

(** The values an audit [details] dict holds, which are the values a JSON
    document holds. *)
#[warnings="-register-all"]
Inductive Json :=
| JNull
| JBool (b : bool)
| JInt (z : Z)
| JFloat (q : Qc)
| JStr (s : string)
| JArr (l : list Json)
| JObj (l : list (string * Json)).

Record AuditEvent := {
  ts : datetime;
  actor : string;
  ev_type : string;
  details : list (string * Json)
}.

Inductive RationalePolicy := required | optional | skippable.
Inductive FlowDefault := by_criterion | by_option.

Record Settings := {
  rationalePolicy : RationalePolicy;
  flowDefault : FlowDefault;
  sensitivityStep : Qc
}.

Record Scenario (W : Type) := {
  id : string;
  title : string;
  createdAt : datetime;
  modifiedAt : datetime;
  weightsLocked : bool;
  criteria : list (Criterion W);
  options : list Option;
  scores : list Score;
  settings : Settings;
  audit : list AuditEvent
}.
Arguments id {W} _.
Arguments title {W} _.
Arguments createdAt {W} _.
Arguments modifiedAt {W} _.
Arguments weightsLocked {W} _.
Arguments criteria {W} _.
Arguments options {W} _.
Arguments scores {W} _.
Arguments settings {W} _.
Arguments audit {W} _.

(** [model_copy(update={...})] for the fields the services update. *)
Definition with_weight {W V} (c : Criterion W) (w : V) : Criterion V :=
  {| c_id := c_id c; c_name := c_name c; c_weight := w;
     c_anchors := c_anchors c; c_active := c_active c |}.

Definition with_criteria {W V} (s : Scenario W) (cs : list (Criterion V)) : Scenario V :=
  {| id := id s; title := title s; createdAt := createdAt s;
     modifiedAt := modifiedAt s; weightsLocked := weightsLocked s;
     criteria := cs; options := options s; scores := scores s;
     settings := settings s; audit := audit s |}.

Definition with_scores {W} (s : Scenario W) (sc : list Score) : Scenario W :=
  {| id := id s; title := title s; createdAt := createdAt s;
     modifiedAt := modifiedAt s; weightsLocked := weightsLocked s;
     criteria := criteria s; options := options s; scores := sc;
     settings := settings s; audit := audit s |}.

Definition with_audit {W} (s : Scenario W) (a : list AuditEvent) : Scenario W :=
  {| id := id s; title := title s; createdAt := createdAt s;
     modifiedAt := modifiedAt s; weightsLocked := weightsLocked s;
     criteria := criteria s; options := options s; scores := scores s;
     settings := settings s; audit := a |}.

Definition with_weightsLocked {W} (s : Scenario W) (b : bool) : Scenario W :=
  {| id := id s; title := title s; createdAt := createdAt s;
     modifiedAt := modifiedAt s; weightsLocked := b;
     criteria := criteria s; options := options s; scores := scores s;
     settings := settings s; audit := audit s |}.

(** The field validators of the model: [weight >= 0] and [1 <= raw <= 5]. *)
Definition valid_criterion (c : Criterion Z) : Prop := 0 <= c_weight c.
Definition valid_score (s : Score) : Prop := 1 <= raw s <= 5.

(** ** Weighted totals
    (ScoringService.totals and AnalysisService._calculate_totals) *)

Record TotalRec (W : Type) := { total : W; normalized : Qc }.
Arguments total {W} _.
Arguments normalized {W} _.

Section Totals.
Context {W : Type} `{PyNumber W}.

(** [{c.id: c.weight for c in scenario.criteria}]: a later criterion with
    the same id overwrites an earlier one. *)
Definition weights_map (cs : list (Criterion W)) : gmap string W :=
  foldl (fun m c => <[c_id c := c_weight c]> m) ∅ cs.

(** [sum(c.weight * 5 for c in scenario.criteria)]: the terms are added
    from the left, starting from the [int] 0.  (From Python 3.12 on [sum]
    compensates the rounding errors of two or more [float] terms; the
    services store [int] weights only, and the derived copy of
    [sensitivity] holds one [float] weight when ids are unique, so this
    does not show.) *)
Definition max_possible (cs : list (Criterion W)) : W :=
  foldl (fun acc c => num_add acc (num_mul (c_weight c) (num_of_int 5)))
        (num_of_int 0) cs.

(** The inner loop over [scenario.scores] for one option id. *)
Definition option_total (weights : gmap string W) (sc : list Score)
           (oid : string) : W :=
  foldl (fun acc s =>
           if decide (optionId s = oid)
           then num_add acc
                  (num_mul (num_of_int (raw s))
                           (default (num_of_int 0) (weights !! criterionId s)))
           else acc)
        (num_of_int 0) sc.

(** [(option_total / max_possible * 100) if max_possible > 0 else 0.0] *)
Definition normalize (t mp : W) : Qc :=
  if num_ltb (num_of_int 0) mp
  then f64_mul (num_truediv t mp) (f64_of_int 100)
  else Z2Qc 0.

Definition totals_from (cs : list (Criterion W)) (os : list Option)
           (sc : list Score) : gmap string (TotalRec W) :=
  let weights := weights_map cs in
  let mp := max_possible cs in
  foldl (fun m o =>
           let t := option_total weights sc (o_id o) in
           <[o_id o := {| total := t; normalized := normalize t mp |}]> m)
        ∅ os.

(** ScoringService.totals *)
Definition totals (s : Scenario W) : gmap string (TotalRec W) :=
  totals_from (criteria s) (options s) (scores s).

(** AnalysisService._calculate_totals: the same text as [totals]. *)
Definition _calculate_totals (s : Scenario W) : gmap string (TotalRec W) :=
  totals_from (criteria s) (options s) (scores s).
End Totals.

(** ** Analysis engine (src/services/analysis_service.py) *)

(** A leaderboard entry before and after the rank is written into it. *)
Record Row (W : Type) := {
  r_optionId : string;
  r_name : string;
  r_total : W;
  r_normalized : Qc
}.
Arguments r_optionId {W} _.
Arguments r_name {W} _.
Arguments r_total {W} _.
Arguments r_normalized {W} _.

Record Entry (W : Type) := {
  e_row : Row W;
  rank : nat
}.
Arguments e_row {W} _.
Arguments rank {W} _.

Definition e_optionId {W} (e : Entry W) : string := r_optionId (e_row e).
Definition e_name {W} (e : Entry W) : string := r_name (e_row e).
Definition e_total {W} (e : Entry W) : W := r_total (e_row e).
Definition e_normalized {W} (e : Entry W) : Qc := r_normalized (e_row e).

(** The values of the dict [delta_to_winner] returns: the entry under the
    key ["winner"] holds an option id or [None], every other entry holds
    [{"total", "delta"}]. *)
Inductive DeltaVal (W : Type) :=
| DWinner (w : option string)
| DGap (tot delta : W).
Arguments DWinner {W} w.
Arguments DGap {W} tot delta.

Record Sensitivity := {
  sens_criterionId : string;
  sens_pct : PyNum;
  sens_original : list (Entry Z);
  sens_adjusted : list (Entry PyNum)
}.

Section Analysis.
Context {W : Type} `{PyNumber W}.

(** [totals.get(option.id, {"total": 0, "normalized": 0.0})] *)
Definition totals_get (t : gmap string (TotalRec W)) (oid : string) : TotalRec W :=
  default {| total := num_of_int 0; normalized := Z2Qc 0 |} (t !! oid).

Definition build_rows (t : gmap string (TotalRec W)) (os : list Option)
  : list (Row W) :=
  map (fun o =>
         let d := totals_get t (o_id o) in
         {| r_optionId := o_id o; r_name := o_name o;
            r_total := total d; r_normalized := normalized d |}) os.

(** [list.sort(key=lambda x: x["total"], reverse=True)].  Python's sort is
    stable, also under [reverse=True]; a stable sort has one possible
    result, which is the one insertion from the right computes: [x] goes
    behind every entry whose total is strictly greater and in front of
    the first entry whose total is not. *)
Fixpoint insert_desc (x : Row W) (l : list (Row W)) : list (Row W) :=
  match l with
  | [] => [x]
  | y :: l' =>
      if num_ltb (r_total x) (r_total y)
      then y :: insert_desc x l'
      else x :: y :: l'
  end.

Definition sort_desc (l : list (Row W)) : list (Row W) :=
  foldr insert_desc [] l.

(** The ranking loop: [prev] is [leaderboard[i - 1]["total"]] (absent
    when [i = 0]), [current_rank] the loop variable of that name. *)
Fixpoint assign_ranks (prev : option W) (i current_rank : nat)
         (l : list (Row W)) : list (Entry W) :=
  match l with
  | [] => []
  | r :: l' =>
      let current_rank' :=
        match prev with
        | Some p => if num_ltb (r_total r) p then (i + 1)%nat else current_rank
        | None => current_rank
        end in
      {| e_row := r; rank := current_rank' |}
        :: assign_ranks (Some (r_total r)) (S i) current_rank' l'
  end.

Definition leaderboard (s : Scenario W) : list (Entry W) :=
  let t := _calculate_totals s in
  assign_ranks None 0%nat 1%nat (sort_desc (build_rows t (options s))).

(** The winner loop of [delta_to_winner]: the state is
    [(winner_id, max_total)]. *)
Definition find_winner (t : gmap string (TotalRec W)) (os : list Option)
  : option string * W :=
  foldl (fun '(winner_id, max_total) o =>
           let option_total := total (totals_get t (o_id o)) in
           if num_ltb max_total option_total
           then (Some (o_id o), option_total)
           else (winner_id, max_total))
        (None, num_of_int (-1)) os.

Definition delta_to_winner (s : Scenario W) : gmap string (DeltaVal W) :=
  let t := _calculate_totals s in
  let '(winner_id, max_total) := find_winner t (options s) in
  let '(winner_id, max_total) :=
    match winner_id, options s with
    | None, o :: _ => (Some (o_id o), num_of_int 0)
    | _, _ => (winner_id, max_total)
    end in
  foldl (fun (res : gmap string (DeltaVal W)) o =>
           let option_total := total (totals_get t (o_id o)) in
           let delta := num_sub max_total option_total in
           <[o_id o := DGap option_total delta]> res)
        {["winner" := DWinner winner_id]} (options s).
End Analysis.

(** [next((c for c in criteria if c.id == criterion_id), None)] *)
Definition find_criterion {W} (cs : list (Criterion W)) (cid : string)
  : option (Criterion W) :=
  List.find (fun c => bool_decide (c_id c = cid)) cs.

(** [max(a, b)]: the first argument, unless the second is greater. *)
Definition py_max (a b : PyNum) : PyNum := if num_ltb a b then b else a.

(** The three lines that compute the adjusted weight:
    [weight_delta = original_weight * (pct / 100.0)],
    [adjusted_weight = original_weight + weight_delta] and
    [adjusted_weight = max(0, adjusted_weight)]. *)
Definition adjusted_weight (original_weight : Z) (pct : PyNum) : PyNum :=
  let weight_delta :=
    num_mul (PInt original_weight)
            (PFloat (num_truediv pct (PFloat (Z2Qc 100)))) in
  let adjusted_weight := num_add (PInt original_weight) weight_delta in
  py_max (PInt 0) adjusted_weight.

(** The derived copy [sensitivity] analyses.  An unchanged criterion keeps
    its [int] weight. *)
Definition adjusted_scenario (s : Scenario Z) (cid : string) (aw : PyNum)
  : Scenario PyNum :=
  with_criteria s
    (map (fun c => if decide (c_id c = cid)
                   then with_weight c aw
                   else with_weight c (PInt (c_weight c)))
         (criteria s)).

Definition sensitivity (s : Scenario Z) (criterion_id : string) (pct : PyNum)
  : result Sensitivity :=
  match find_criterion (criteria s) criterion_id with
  | None =>
      Raise (NotFoundError ("Criterion with id '" +:+ criterion_id +:+ "' not found"))
  | Some criterion =>
      let original_leaderboard := leaderboard s in
      let aw := adjusted_weight (c_weight criterion) pct in
      let adjusted_leaderboard := leaderboard (adjusted_scenario s criterion_id aw) in
      Ok {| sens_criterionId := criterion_id;
            sens_pct := pct;
            sens_original := original_leaderboard;
            sens_adjusted := adjusted_leaderboard |}
  end.

(** ** Policy predicates (src/domain/policies.py) *)

Definition can_lock_weights {W} (s : Scenario W) : bool := negb (weightsLocked s).
Definition can_unlock_weights {W} (s : Scenario W) : bool := weightsLocked s.

(** ** Audit log (src/services/audit_service.py) *)

Definition log_event (now : datetime) (s : Scenario Z) (actor : string)
           (event_type : string) (details : list (string * Json)) : Scenario Z :=
  let event := {| ts := now; actor := actor; ev_type := event_type;
                  details := details |} in
  with_audit s (audit s ++ [event])%list.

Definition json_opt_int (v : option Z) : Json :=
  match v with Some z => JInt z | None => JNull end.

Definition log_score_change (now : datetime) (s : Scenario Z) (actor : string)
           (option_id criterion_id : string) (old_value : option Z)
           (new_value : Z) : Scenario Z :=
  log_event now s actor "score_changed"
    [("optionId", JStr option_id);
     ("criterionId", JStr criterion_id);
     ("oldValue", json_opt_int old_value);
     ("newValue", JInt new_value)].

Definition log_weight_change (now : datetime) (s : Scenario Z) (actor : string)
           (criterion_id : string) (old_weight new_weight : Z)
           (reason : string) : Scenario Z :=
  log_event now s actor "weight_changed"
    [("criterionId", JStr criterion_id);
     ("oldWeight", JInt old_weight);
     ("newWeight", JInt new_weight);
     ("reason", JStr reason)].

Definition log_weights_locked (now : datetime) (s : Scenario Z) (actor : string)
  : Scenario Z :=
  log_event now s actor "weights_locked" [].

Definition log_weights_unlocked (now : datetime) (s : Scenario Z)
           (actor reason : string) : Scenario Z :=
  log_event now s actor "weights_unlocked" [("reason", JStr reason)].

(** ** Scoring service (src/services/scoring_service.py) *)

(** The [for i, s in enumerate(scenario.scores)] loop with its [break]:
    index and value of the first score of the pair. *)
Definition find_score (sc : list Score) (option_id criterion_id : string)
  : option (nat * Score) :=
  list_find (fun s => optionId s = option_id /\ criterionId s = criterion_id) sc.

Definition set_score (now : datetime) (s : Scenario Z)
           (option_id criterion_id : string) (raw_ : Z) (actor : string)
           (rationale_ : option string) : result (Scenario Z) :=
  if negb ((1 <=? raw_) && (raw_ <=? 5)) then
    Raise (ValidationError "Score must be between 1 and 5")
  else if negb (existsb (fun o => bool_decide (o_id o = option_id)) (options s)) then
    Raise (NotFoundError ("Option with id '" +:+ option_id +:+ "' not found"))
  else
    match find_criterion (criteria s) criterion_id with
    | None =>
        Raise (NotFoundError ("Criterion with id '" +:+ criterion_id +:+ "' not found"))
    | Some _ =>
        let found := find_score (scores s) option_id criterion_id in
        let old_value := (fun p => raw (snd p)) <$> found in
        let new_score :=
          {| optionId := option_id;
             criterionId := criterion_id;
             raw := raw_;
             rationale :=
               match rationale_ with
               | Some r => Some r
               | None =>
                   match found with
                   | Some (_, existing_score) => rationale existing_score
                   | None => None
                   end
               end |} in
        let new_scores :=
          match found with
          | Some (score_index, _) => <[score_index := new_score]> (scores s)
          | None => (scores s ++ [new_score])%list
          end in
        let updated := with_scores s new_scores in
        Ok (log_score_change now updated actor option_id criterion_id old_value raw_)
    end.

Definition set_rationale (s : Scenario Z) (option_id criterion_id : string)
           (rationale_ : string) (actor : string) : result (Scenario Z) :=
  if (500 <? py_len rationale_)%nat then
    Raise (ValidationError "Rationale must be 500 characters or less")
  else
    let new_scores :=
      match find_score (scores s) option_id criterion_id with
      | None =>
          (scores s ++ [{| optionId := option_id; criterionId := criterion_id;
                           raw := 3; rationale := Some rationale_ |}])%list
      | Some (score_index, existing_score) =>
          <[score_index := {| optionId := optionId existing_score;
                              criterionId := criterionId existing_score;
                              raw := raw existing_score;
                              rationale := Some rationale_ |}]> (scores s)
      end in
    Ok (with_scores s new_scores).

(** ** Weights service (src/services/weights_service.py) *)

Definition lock_weights (now : datetime) (s : Scenario Z) (actor : string)
  : result (Scenario Z) :=
  if negb (can_lock_weights s) then
    Raise (StateError "Weights are already locked")
  else
    Ok (log_weights_locked now (with_weightsLocked s true) actor).

Definition unlock_weights (now : datetime) (s : Scenario Z)
           (actor reason : string) : result (Scenario Z) :=
  if negb (can_unlock_weights s) then
    Raise (StateError "Weights are already unlocked")
  else
    Ok (log_weights_unlocked now (with_weightsLocked s false) actor reason).

Definition set_weight (now : datetime) (s : Scenario Z) (criterion_id : string)
           (weight : Z) (actor reason : string) : result (Scenario Z) :=
  if weightsLocked s then
    Raise (LockedError "Cannot change weights: weights are locked")
  else if weight <? 0 then
    Raise (ValidationError "Weight must be non-negative")
  else
    match list_find (fun c => c_id c = criterion_id) (criteria s) with
    | None =>
        Raise (NotFoundError ("Criterion with id '" +:+ criterion_id +:+ "' not found"))
    | Some (criterion_index, old_criterion) =>
        let old_weight := c_weight old_criterion in
        let updated_criterion := with_weight old_criterion weight in
        let new_criteria := <[criterion_index := updated_criterion]> (criteria s) in
        let updated := with_criteria s new_criteria in
        Ok (log_weight_change now updated actor criterion_id old_weight weight reason)
    end.

Definition get_total_weight (s : Scenario Z) : Z :=
  foldl (fun acc c => acc + c_weight c) 0 (criteria s).

(** Every score names an option and a criterion of the scenario. *)
Definition refs_valid (s : Scenario Z) : Prop :=
  forall sc, sc ∈ scores s ->
    (exists o, o ∈ options s /\ o_id o = optionId sc) /\
    (exists c, c ∈ criteria s /\ c_id c = criterionId sc).

(** ** JSON repository (src/infra/repositories/json_repository.py) *)

(** *** Scenario id validation *)

(** [str.isspace] on the characters a [string] can hold. *)
(** [str.isspace] on one code point. *)
Definition is_space (cp : N) : bool :=
  ((9 <=? cp) && (cp <=? 13) || (28 <=? cp) && (cp <=? 32)
   || (cp =? 133) || (cp =? 160) || (cp =? 5760)
   || (8192 <=? cp) && (cp <=? 8202)
   || (cp =? 8232) || (cp =? 8233) || (cp =? 8239) || (cp =? 8287)
   || (cp =? 12288))%N.

(** The first byte of a code point of one, two or three bytes. *)
Definition is_lead1 (c : ascii) : bool := (byte_val c <? 128)%N.
Definition is_lead2 (c : ascii) : bool :=
  ((194 <=? byte_val c) && (byte_val c <? 224))%N.
Definition is_lead3 (c : ascii) : bool :=
  ((224 <=? byte_val c) && (byte_val c <? 240))%N.

(** The code point that two or three bytes encode. *)
Definition cp2 (b1 b2 : ascii) : N :=
  ((byte_val b1 - 192) * 64 + (byte_val b2 - 128))%N.
Definition cp3 (b1 b2 b3 : ascii) : N :=
  ((byte_val b1 - 224) * 4096 + (byte_val b2 - 128) * 64
   + (byte_val b3 - 128))%N.

(** [s.lstrip()]: the code points in front are removed while they are
    whitespace.  Every whitespace code point takes at most three bytes. *)
Fixpoint lstrip (s : string) : string :=
  match s with
  | EmptyString => EmptyString
  | String b1 r1 =>
      if is_lead1 b1 then
        if is_space (byte_val b1) then lstrip r1 else s
      else
        match r1 with
        | String b2 r2 =>
            if is_lead2 b1 && is_cont b2 then
              if is_space (cp2 b1 b2) then lstrip r2 else s
            else
              match r2 with
              | String b3 r3 =>
                  if is_lead3 b1 && is_cont b2 && is_cont b3
                     && is_space (cp3 b1 b2 b3)
                  then lstrip r3 else s
              | EmptyString => s
              end
        | EmptyString => s
        end
  end.

Fixpoint string_rev_app (s acc : string) : string :=
  match s with
  | EmptyString => acc
  | String c r => string_rev_app r (String c acc)
  end.

Definition string_rev (s : string) : string := string_rev_app s EmptyString.

(** [lstrip] on the bytes in reverse order: the last byte comes first. *)
Fixpoint lstrip_rev (s : string) : string :=
  match s with
  | EmptyString => EmptyString
  | String b1 r1 =>
      if is_lead1 b1 then
        if is_space (byte_val b1) then lstrip_rev r1 else s
      else
        match r1 with
        | String b2 r2 =>
            if is_lead2 b2 && is_cont b1 then
              if is_space (cp2 b2 b1) then lstrip_rev r2 else s
            else
              match r2 with
              | String b3 r3 =>
                  if is_lead3 b3 && is_cont b2 && is_cont b1
                     && is_space (cp3 b3 b2 b1)
                  then lstrip_rev r3 else s
              | EmptyString => s
              end
        | EmptyString => s
        end
  end.

Definition rstrip (s : string) : string := string_rev (lstrip_rev (string_rev s)).

Definition strip (s : string) : string := rstrip (lstrip s).

Definition is_empty (s : string) : bool :=
  match s with EmptyString => true | _ => false end.

(** [sub in s] *)
Fixpoint str_contains (sub s : string) : bool :=
  String.prefix sub s
  || match s with
     | EmptyString => false
     | String _ r => str_contains sub r
     end.

(** The character class [[a-zA-Z0-9_-]]. *)
Definition is_id_char (c : ascii) : bool :=
  let n := nat_of_ascii c in
  ((97 <=? n) && (n <=? 122) || (65 <=? n) && (n <=? 90)
   || (48 <=? n) && (n <=? 57) || (n =? 95) || (n =? 45))%nat.

Definition newline : ascii := ascii_of_nat 10.

(** Where [$] matches in [re.match] without flags: at the end of the
    string, and just before a newline that is the last character. *)
Definition at_dollar (rest : string) : bool :=
  match rest with
  | EmptyString => true
  | String c EmptyString => Ascii.eqb c newline
  | _ => false
  end.

(** [re.match(r'^[a-zA-Z0-9_-]+$', s)] succeeds. *)
Fixpoint re_match_id (s : string) : bool :=
  match s with
  | EmptyString => false
  | String c r => is_id_char c && (at_dollar r || re_match_id r)
  end.

(** *** Paths *)

Record Path := { parent : string; p_name : string }.

Definition path_str (p : Path) : string := parent p +:+ "/" +:+ p_name p.

(** [name.rfind('.')] *)
Fixpoint rfind_dot (s : string) : option nat :=
  match s with
  | EmptyString => None
  | String c r =>
      match rfind_dot r with
      | Some i => Some (S i)
      | None => if Ascii.eqb c "." then Some 0%nat else None
      end
  end.

(** [PurePath.with_suffix]: the last suffix of the name, when it has one,
    is replaced. *)
Definition with_suffix (p : Path) (suffix : string) : Path :=
  let name := p_name p in
  let stem :=
    match rfind_dot name with
    | Some i =>
        if ((0 <? i) && (i <? String.length name - 1))%nat
        then substring 0 i name
        else name
    | None => name
    end in
  {| parent := parent p; p_name := stem +:+ suffix |}.

Definition _get_file_path (base_path scenario_id : string) : result Path :=
  if is_empty scenario_id || is_empty (strip scenario_id) then
    Raise (ValidationError "scenario_id cannot be empty")
  else if str_contains ".." scenario_id || str_contains "/" scenario_id
          || str_contains "\" scenario_id then
    Raise (ValidationError "Invalid scenario_id: contains path separators")
  else if negb (re_match_id scenario_id) then
    Raise (ValidationError
             ("scenario_id contains invalid characters: " +:+ scenario_id))
  else
    Ok {| parent := base_path; p_name := scenario_id +:+ ".json" |}.

(** *** The file system

    A file holds either a JSON document or text [json.load] cannot parse
    (the text layer of the [json] module is not part of the repository).
    [fs_fails] says which calls the operating system refuses, and
    [fs_trace] records every call made, latest last. *)

Inductive FsCall :=
| FsExists (p : string)
| FsOpenW (p : string)
| FsOpenR (p : string)
| FsReplace (src dst : string)
| FsUnlink (p : string).

Inductive FileContent :=
| Malformed (text : string)
| Document (doc : Json).

Record FS := {
  files : gmap string FileContent;
  fs_fails : FsCall -> bool;
  fs_trace : list FsCall
}.

(** The error of a file operation that the operating system refuses and
    that no handler rewords.  It is an [OSError], which in Python 3 is
    the class [IOError]; its text is the operating system's and is left
    out, as the text of [{e}] is in the messages of the repository. *)
Definition os_error : CTTIError := IOError "".

Definition fs_log (c : FsCall) (fs : FS) : FS :=
  {| files := files fs; fs_fails := fs_fails fs;
     fs_trace := (fs_trace fs ++ [c])%list |}.

Definition fs_set_files (m : gmap string FileContent) (fs : FS) : FS :=
  {| files := m; fs_fails := fs_fails fs; fs_trace := fs_trace fs |}.

(** [Path.exists()] *)
Definition fs_exists (p : Path) (fs : FS) : bool * FS :=
  (bool_decide (is_Some (files fs !! path_str p)), fs_log (FsExists (path_str p)) fs).

(** [Path.unlink()] *)
Definition fs_unlink (p : Path) (fs : FS) : bool * FS :=
  let fs := fs_log (FsUnlink (path_str p)) fs in
  if fs_fails fs (FsUnlink (path_str p)) then (false, fs)
  else (true, fs_set_files (delete (path_str p) (files fs)) fs).

(** [open(p, "w")] followed by the write of the whole document. *)
Definition fs_write (p : Path) (doc : Json) (fs : FS) : bool * FS :=
  let fs := fs_log (FsOpenW (path_str p)) fs in
  if fs_fails fs (FsOpenW (path_str p)) then (false, fs)
  else (true, fs_set_files (<[path_str p := Document doc]> (files fs)) fs).

(** [src.replace(dst)] *)
Definition fs_replace (src dst : Path) (fs : FS) : bool * FS :=
  let fs := fs_log (FsReplace (path_str src) (path_str dst)) fs in
  match files fs !! path_str src with
  | Some c =>
      if fs_fails fs (FsReplace (path_str src) (path_str dst)) then (false, fs)
      else (true, fs_set_files (<[path_str dst := c]> (delete (path_str src) (files fs))) fs)
  | None => (false, fs)
  end.

(** [open(p, "r")] followed by the read of the whole file. *)
Definition fs_read (p : Path) (fs : FS) : option FileContent * FS :=
  let fs := fs_log (FsOpenR (path_str p)) fs in
  if fs_fails fs (FsOpenR (path_str p)) then (None, fs)
  else (files fs !! path_str p, fs).

(** *** Serialization

    [Scenario.model_dump(mode="json")] and [Scenario.model_validate] belong
    to pydantic; they are modelled on documents, field by field, with the
    field names and the validators of src/domain/models.py.  The coercions
    pydantic's lax mode adds on input (a string or a float where an [int]
    is declared, and the like) are left out: a document that needs one is
    refused here.  How a datetime is written and read back is the
    business of the datetime library, and is a parameter. *)

(** [dict.get] on a parsed object: the last binding of a key wins. *)
Fixpoint jget (k : string) (l : list (string * Json)) : option Json :=
  match l with
  | [] => None
  | (k', v) :: r =>
      match jget k r with
      | Some v' => Some v'
      | None => if String.eqb k' k then Some v else None
      end
  end.

Definition opt_all {A} (l : list (option A)) : option (list A) :=
  foldr (fun o acc =>
           match o, acc with
           | Some x, Some xs => Some (x :: xs)
           | _, _ => None
           end) (Some []) l.

Definition dump_opt_str (o : option string) : Json :=
  match o with Some s => JStr s | None => JNull end.

Definition dump_policy (p : RationalePolicy) : string :=
  match p with
  | required => "required" | optional => "optional" | skippable => "skippable"
  end.

Definition dump_flow (f : FlowDefault) : string :=
  match f with by_criterion => "by_criterion" | by_option => "by_option" end.

Definition dump_anchors (a : Anchors) : Json :=
  JObj [("hi", JStr (hi a)); ("lo", JStr (lo a))].

Definition dump_criterion (c : Criterion Z) : Json :=
  JObj [("id", JStr (c_id c)); ("name", JStr (c_name c));
        ("weight", JInt (c_weight c)); ("anchors", dump_anchors (c_anchors c));
        ("active", JBool (c_active c))].

Definition dump_option (o : Option) : Json :=
  JObj [("id", JStr (o_id o)); ("name", JStr (o_name o));
        ("notes", dump_opt_str (o_notes o))].

Definition dump_score (s : Score) : Json :=
  JObj [("optionId", JStr (optionId s)); ("criterionId", JStr (criterionId s));
        ("raw", JInt (raw s)); ("rationale", dump_opt_str (rationale s))].

Definition dump_settings (s : Settings) : Json :=
  JObj [("rationalePolicy", JStr (dump_policy (rationalePolicy s)));
        ("flowDefault", JStr (dump_flow (flowDefault s)));
        ("sensitivityStep", JFloat (sensitivityStep s))].

(** Decoders for the leaves.  [None] is a pydantic validation error. *)
Definition as_str (j : option Json) : option string :=
  match j with Some (JStr s) => Some s | _ => None end.

Definition as_int (j : option Json) : option Z :=
  match j with Some (JInt z) => Some z | _ => None end.

(** A field declared [Optional[str]] with default [None]. *)
Definition as_opt_str (j : option Json) : option (option string) :=
  match j with
  | None | Some JNull => Some None
  | Some (JStr s) => Some (Some s)
  | _ => None
  end.

Definition load_policy (j : option Json) : option RationalePolicy :=
  match j with
  | None => Some optional
  | Some (JStr s) =>
      if String.eqb s "required" then Some required
      else if String.eqb s "optional" then Some optional
      else if String.eqb s "skippable" then Some skippable
      else None
  | _ => None
  end.

Definition load_flow (j : option Json) : option FlowDefault :=
  match j with
  | None => Some by_criterion
  | Some (JStr s) =>
      if String.eqb s "by_criterion" then Some by_criterion
      else if String.eqb s "by_option" then Some by_option
      else None
  | _ => None
  end.

(** [sensitivityStep: float = Field(1.0, gt=0)]; an [int] is a float too. *)
Definition load_step (j : option Json) : option Qc :=
  match j with
  | None => Some (Z2Qc 1)
  | Some (JFloat q) => if Qc_ltb (Z2Qc 0) q then Some q else None
  | Some (JInt z) => if 0 <? z then Some (Z2Qc z) else None
  | _ => None
  end.

Definition load_anchors (j : option Json) : option Anchors :=
  match j with
  | Some (JObj l) =>
      h ← as_str (jget "hi" l);
      lw ← as_str (jget "lo" l);
      Some {| hi := h; lo := lw |}
  | _ => None
  end.

Definition load_criterion (j : Json) : option (Criterion Z) :=
  match j with
  | JObj l =>
      i ← as_str (jget "id" l);
      n ← as_str (jget "name" l);
      w ← as_int (jget "weight" l);
      a ← load_anchors (jget "anchors" l);
      act ← match jget "active" l with
            | None => Some true
            | Some (JBool b) => Some b
            | _ => None
            end;
      if w <? 0 then None
      else Some {| c_id := i; c_name := n; c_weight := w;
                   c_anchors := a; c_active := act |}
  | _ => None
  end.

Definition load_option (j : Json) : option Option :=
  match j with
  | JObj l =>
      i ← as_str (jget "id" l);
      n ← as_str (jget "name" l);
      nt ← as_opt_str (jget "notes" l);
      Some {| o_id := i; o_name := n; o_notes := nt |}
  | _ => None
  end.

Definition load_score (j : Json) : option Score :=
  match j with
  | JObj l =>
      o ← as_str (jget "optionId" l);
      c ← as_str (jget "criterionId" l);
      r ← as_int (jget "raw" l);
      rt ← as_opt_str (jget "rationale" l);
      if (1 <=? r) && (r <=? 5)
      then Some {| optionId := o; criterionId := c; raw := r; rationale := rt |}
      else None
  | _ => None
  end.

Definition load_settings (j : option Json) : option Settings :=
  match j with
  | None =>
      Some {| rationalePolicy := optional; flowDefault := by_criterion;
              sensitivityStep := Z2Qc 1 |}
  | Some (JObj l) =>
      p ← load_policy (jget "rationalePolicy" l);
      f ← load_flow (jget "flowDefault" l);
      st ← load_step (jget "sensitivityStep" l);
      Some {| rationalePolicy := p; flowDefault := f; sensitivityStep := st |}
  | _ => None
  end.

(** A list field with [default_factory=list]. *)
Definition load_list {A} (f : Json -> option A) (j : option Json) : option (list A) :=
  match j with
  | None => Some []
  | Some (JArr l) => opt_all (map f l)
  | _ => None
  end.

Section Serialization.
Variable isoformat : datetime -> string.
Variable fromisoformat : string -> option datetime.

Definition dump_event (e : AuditEvent) : Json :=
  JObj [("ts", JStr (isoformat (ts e))); ("actor", JStr (actor e));
        ("type", JStr (ev_type e)); ("details", JObj (details e))].

Definition model_dump (s : Scenario Z) : Json :=
  JObj [("id", JStr (id s)); ("title", JStr (title s));
        ("createdAt", JStr (isoformat (createdAt s)));
        ("modifiedAt", JStr (isoformat (modifiedAt s)));
        ("weightsLocked", JBool (weightsLocked s));
        ("criteria", JArr (map dump_criterion (criteria s)));
        ("options", JArr (map dump_option (options s)));
        ("scores", JArr (map dump_score (scores s)));
        ("settings", dump_settings (settings s));
        ("audit", JArr (map dump_event (audit s)))].

(** A datetime field with [default_factory=datetime.now]. *)
Definition load_datetime (now : datetime) (j : option Json) : option datetime :=
  match j with
  | None => Some now
  | Some (JStr s) => fromisoformat s
  | _ => None
  end.

Definition load_event (now : datetime) (j : Json) : option AuditEvent :=
  match j with
  | JObj l =>
      t ← load_datetime now (jget "ts" l);
      a ← as_str (jget "actor" l);
      ty ← as_str (jget "type" l);
      d ← match jget "details" l with
          | None => Some []
          | Some (JObj d) => Some d
          | _ => None
          end;
      Some {| ts := t; actor := a; ev_type := ty; details := d |}
  | _ => None
  end.

Definition model_validate (now : datetime) (j : Json) : option (Scenario Z) :=
  match j with
  | JObj l =>
      i ← as_str (jget "id" l);
      t ← as_str (jget "title" l);
      ca ← load_datetime now (jget "createdAt" l);
      ma ← load_datetime now (jget "modifiedAt" l);
      wl ← match jget "weightsLocked" l with
            | None => Some false
            | Some (JBool b) => Some b
            | _ => None
            end;
      cs ← load_list load_criterion (jget "criteria" l);
      os ← load_list load_option (jget "options" l);
      sc ← load_list load_score (jget "scores" l);
      st ← load_settings (jget "settings" l);
      au ← load_list (load_event now) (jget "audit" l);
      Some {| id := i; title := t; createdAt := ca; modifiedAt := ma;
              weightsLocked := wl; criteria := cs; options := os;
              scores := sc; settings := st; audit := au |}
  | _ => None
  end.

(** *** Repository operations.  [base_path] is [self.base_path]. *)

Definition save (base_path : string) (s : Scenario Z) (fs : FS)
  : result unit * FS :=
  match _get_file_path base_path (id s) with
  | Raise e => (Raise e, fs)
  | Ok file_path =>
      let temp_path := with_suffix file_path ".tmp" in
      let failed (fs : FS) : result unit * FS :=
        let error := IOError ("Failed to save scenario " +:+ id s +:+ ": ") in
        let '(there, fs) := fs_exists temp_path fs in
        if there then
          let '(removed, fs) := fs_unlink temp_path fs in
          if removed then (Raise error, fs) else (Raise os_error, fs)
        else (Raise error, fs) in
      let '(written, fs) := fs_write temp_path (model_dump s) fs in
      if written then
        let '(renamed, fs) := fs_replace temp_path file_path fs in
        if renamed then (Ok tt, fs) else failed fs
      else failed fs
  end.

Definition load (now : datetime) (base_path scenario_id : string) (fs : FS)
  : result (Scenario Z) * FS :=
  match _get_file_path base_path scenario_id with
  | Raise e => (Raise e, fs)
  | Ok file_path =>
      let '(there, fs) := fs_exists file_path fs in
      if negb there then
        (Raise (NotFoundError ("Scenario with id '" +:+ scenario_id +:+ "' not found")), fs)
      else
        let '(content, fs) := fs_read file_path fs in
        match content with
        | Some (Document data) =>
            match model_validate now data with
            | Some s => (Ok s, fs)
            | None =>
                (Raise (IOError ("Failed to load scenario " +:+ scenario_id +:+ ": ")), fs)
            end
        | Some (Malformed _) =>
            (Raise (IOError ("Invalid JSON in scenario file " +:+ scenario_id +:+ ": ")), fs)
        | None =>
            (Raise (IOError ("Failed to load scenario " +:+ scenario_id +:+ ": ")), fs)
        end
  end.

Definition exists_ (base_path scenario_id : string) (fs : FS)
  : result bool * FS :=
  match _get_file_path base_path scenario_id with
  | Raise e => (Raise e, fs)
  | Ok file_path =>
      let '(there, fs) := fs_exists file_path fs in (Ok there, fs)
  end.

Definition delete_ (base_path scenario_id : string) (fs : FS)
  : result unit * FS :=
  match _get_file_path base_path scenario_id with
  | Raise e => (Raise e, fs)
  | Ok file_path =>
      let '(there, fs) := fs_exists file_path fs in
      if negb there then
        (Raise (NotFoundError ("Scenario with id '" +:+ scenario_id +:+ "' not found")), fs)
      else
        let '(done_, fs) := fs_unlink file_path fs in
        if done_ then (Ok tt, fs)
        else (Raise (IOError ("Failed to delete scenario " +:+ scenario_id +:+ ": ")), fs)
  end.
End Serialization.

(** ** What the specification says, in its own words *)

Definition Zsum (l : list Z) : Z := foldr Z.add 0 l.

(** The weight of the criterion a score refers to; a score that refers to
    no criterion of the scenario contributes nothing. *)
Definition spec_weight (cs : list (Criterion Z)) (cid : string) : Z :=
  match find_criterion cs cid with
  | Some c => c_weight c
  | None => 0
  end.

(** [total = Σ over scores belonging to that option of (raw × weight)] *)
Definition spec_total (s : Scenario Z) (oid : string) : Z :=
  Zsum (map (fun sc => raw sc * spec_weight (criteria s) (criterionId sc))
            (filter (fun sc => optionId sc = oid) (scores s))).

(** [maxPossible = Σ(weight × 5)] over all criteria *)
Definition spec_max_possible (s : Scenario Z) : Z :=
  Zsum (map (fun c => c_weight c * 5) (criteria s)).

(** The scenario of the specification's worked example. *)
Definition no_anchors : Anchors := {| hi := "high"; lo := "low" |}.

Definition default_settings : Settings :=
  {| rationalePolicy := optional; flowDefault := by_criterion;
     sensitivityStep := Z2Qc 1 |}.

Definition mk_criterion (i : string) (w : Z) : Criterion Z :=
  {| c_id := i; c_name := i; c_weight := w; c_anchors := no_anchors;
     c_active := true |}.

Definition mk_option (i : string) : Option :=
  {| o_id := i; o_name := i; o_notes := None |}.

Definition mk_score (o c : string) (r : Z) : Score :=
  {| optionId := o; criterionId := c; raw := r; rationale := None |}.

Definition mk_scenario (cs : list (Criterion Z)) (os : list Option)
           (sc : list Score) : Scenario Z :=
  {| id := "demo"; title := "Demo"; createdAt := 0; modifiedAt := 0;
     weightsLocked := false; criteria := cs; options := os; scores := sc;
     settings := default_settings; audit := [] |}.

Definition example_scenario : Scenario Z :=
  mk_scenario [mk_criterion "c1" 10; mk_criterion "c2" 5]
              [mk_option "A"; mk_option "B"]
              [mk_score "A" "c1" 5; mk_score "A" "c2" 5;
               mk_score "B" "c1" 1; mk_score "B" "c2" 1].

(** ** Notions used to state the properties *)

(** Descending order of the totals, and the number of rows whose total is
    strictly greater than [t]. *)
Definition desc (a b : Row Z) : Prop := r_total b <= r_total a.

Definition count_gt (t : Z) (l : list (Row Z)) : nat :=
  length (filter (fun r => t < r_total r) l).

(** The rows of the leaderboard in the order of the options. *)
Definition option_rows (s : Scenario Z) : list (Row Z) :=
  build_rows (_calculate_totals s) (options s).

(** The state of the ranking loop after the rows [pre] have been ranked. *)
Definition rank_state (pre : list (Row Z)) (whole : list (Row Z))
           (prev : option Z) (i cr : nat) : Prop :=
  i = length pre /\
  match last pre with
  | None => prev = None /\ cr = 1%nat
  | Some p => prev = Some (r_total p) /\ cr = S (count_gt (r_total p) whole)
  end.

(** Three options with the totals [50, 50, 30]. *)
Definition tie_scenario : Scenario Z :=
  mk_scenario [mk_criterion "c1" 10]
              [mk_option "A"; mk_option "B"; mk_option "C"]
              [mk_score "A" "c1" 5; mk_score "B" "c1" 5; mk_score "C" "c1" 3].

(** The total [delta_to_winner] reads for an option. *)
Definition total_of (s : Scenario Z) (o : Option) : Z :=
  total (totals_get (_calculate_totals s) (o_id o)).

(** A scenario one of whose options has the id "winner", the key under
    which [delta_to_winner] stores the winner. *)
Definition winner_named_scenario : Scenario Z :=
  mk_scenario [mk_criterion "c1" 10]
              [mk_option "winner"; mk_option "B"]
              [mk_score "B" "c1" 5].

(** The scenario a caller holds after a service call: the one returned
    or, when the call raised, the one passed in.  The services build new
    values and never write to their argument. *)
Definition scenario_after (s : Scenario Z) (r : result (Scenario Z)) : Scenario Z :=
  match r with
  | Ok s' => s'
  | Raise _ => s
  end.

Definition is_raise {A} (r : result A) : Prop :=
  match r with Raise _ => True | Ok _ => False end.

Definition locked_example : Scenario Z :=
  with_weightsLocked example_scenario true.

Definition is_pair (option_id criterion_id : string) (sc : Score) : Prop :=
  optionId sc = option_id /\ criterionId sc = criterion_id.

Definition score_changed_event (now : datetime) (actor option_id criterion_id : string)
           (old_value : Json) (new_value : Z) : AuditEvent :=
  {| ts := now; actor := actor; ev_type := "score_changed";
     details := [("optionId", JStr option_id);
                 ("criterionId", JStr criterion_id);
                 ("oldValue", old_value);
                 ("newValue", JInt new_value)] |}.

(** A scenario with one option, one criterion and no score. *)
Definition small_scenario : Scenario Z :=
  mk_scenario [mk_criterion "c1" 10] [mk_option "A"] [].

Fixpoint str_all (P : ascii -> bool) (s : string) : bool :=
  match s with
  | EmptyString => true
  | String c r => P c && str_all P r
  end.

(** The ids the specification allows: not empty, and made of letters,
    digits, underscores and hyphens only. *)
Definition id_well_formed (s : string) : Prop :=
  s <> EmptyString /\ str_all is_id_char s = true.

Definition nl : string := String newline EmptyString.

(** The invariants [Scenario.model_validate] checks. *)
Definition valid_scenario (s : Scenario Z) : Prop :=
  Forall valid_criterion (criteria s) /\
  Forall valid_score (scores s) /\
  Qc_ltb (Z2Qc 0) (sensitivityStep (settings s)) = true.

(** A datetime text format to run the repository with: the decimal
    numeral of the microsecond count. *)
Definition decimal_isoformat (d : datetime) : string :=
  DecimalString.NilEmpty.string_of_int (Z.to_int d).

Definition decimal_fromisoformat (s : string) : option datetime :=
  Z.of_int <$> DecimalString.NilEmpty.int_of_string s.

Definition empty_fs : FS :=
  {| files := ∅; fs_fails := fun _ => false; fs_trace := [] |}.

(** The number [x] is the integer [z]: [x == z] holds in Python. *)
Definition same_num (x : PyNum) (z : Z) : Prop := num_val x = Z2Qc z.

(** A criterion over [int] or [float] weights against one over [int]
    weights: the same id and the same weight as a number. *)
Definition same_criterion (c1 : Criterion PyNum) (c0 : Criterion Z) : Prop :=
  c_id c1 = c_id c0 /\ same_num (c_weight c1) (c_weight c0).

Definition same_row (r1 : Row PyNum) (r0 : Row Z) : Prop :=
  r_optionId r1 = r_optionId r0 /\ r_name r1 = r_name r0 /\
  same_num (r_total r1) (r_total r0) /\ r_normalized r1 = r_normalized r0.

(** Two leaderboard entries that Python's [==] does not tell apart: the
    same option, name, normalized score and rank, and totals that are
    the same number, whether [int] or [float]. *)
Definition same_entry (e1 : Entry PyNum) (e0 : Entry Z) : Prop :=
  same_row (e_row e1) (e_row e0) /\ rank e1 = rank e0.

(** The integers binary64 holds exactly are those up to [2 ** 53]; a
    scenario is within them when its greatest possible score and the
    total of every option are. *)
Definition float_exact (s : Scenario Z) : Prop :=
  max_possible (criteria s) <= 2 ^ 53 /\
  forall o, o ∈ options s ->
    option_total (weights_map (criteria s)) (scores s) (o_id o) <= 2 ^ 53.

(** The weights and raw scores of the scenario and [pct] are far inside
    the range of binary64, so that no conversion to a [float], no step of
    the adjusted weight and no total overflows (a Python list has fewer
    than [2 ** 63] elements). *)
Definition sensitivity_in_range (s : Scenario Z) (pct : PyNum) : Prop :=
  Forall (fun c => Z.abs (c_weight c) < 2 ^ 200) (criteria s) /\
  Forall (fun sc => Z.abs (raw sc) < 2 ^ 200) (scores s) /\
  (Qc_abs (num_val pct) < pow2 200)%Qc.

(** A quotient [t / mp] of two [int] that, times 100, stays in the
    range of binary64. *)
Definition quotient_in_range (t mp : Z) : Prop := Z.abs t <= 2 ^ 1000 * mp.

(** The adjusted weight in the words of the specification as the real
    number it denotes: [max(0, originalWeight + originalWeight × pct / 100)]. *)
Definition exact_adjusted_weight (w : Z) (pct : Qc) : Qc :=
  let x := (Z2Qc w + Z2Qc w * pct / Z2Qc 100)%Qc in
  if Qclt_le_dec 0 x then x else 0%Qc.

(** The adjusted weight as the code evaluates it in binary64:
    [max(0, w + w * (pct / 100.0))], the quotient, the product and the
    sum each rounded, and the [int] 0 when the sum is not positive. *)
Definition spec_adjusted_weight (w : Z) (pct : PyNum) : PyNum :=
  let x := f64_add (f64_of_int w)
                   (f64_mul (f64_of_int w) (f64_div (to_float pct) (Z2Qc 100))) in
  if Qc_ltb (Z2Qc 0) x then PFloat x else PInt 0.

(** One criterion of the derived copy against the one it comes from: the
    weight of the criterion [criterion_id] is [aw], every other weight and
    every other field is kept. *)
Definition derived_from (criterion_id : string) (aw : PyNum)
           (c0 : Criterion Z) (c1 : Criterion PyNum) : Prop :=
  c_id c1 = c_id c0 /\ c_name c1 = c_name c0 /\
  c_anchors c1 = c_anchors c0 /\ c_active c1 = c_active c0 /\
  c_weight c1 = if decide (c_id c0 = criterion_id) then aw
                else PInt (c_weight c0).

(** Two criteria whose weights are [2 ** 53 + 1] and [2 ** 53], and one
    option scored on each. *)
Definition large_weights_scenario : Scenario Z :=
  mk_scenario [mk_criterion "c1" (2 ^ 53 + 1); mk_criterion "c2" (2 ^ 53)]
              [mk_option "A"; mk_option "B"]
              [mk_score "A" "c1" 1; mk_score "B" "c2" 1].

(** ** Further operations of the services *)

(** AuditService.get_history: the two optional filters, applied in turn. *)
Definition get_history (s : Scenario Z) (event_type actor_ : option string)
  : list AuditEvent :=
  let events := audit s in
  let events :=
    match event_type with
    | Some t => filter (fun e => ev_type e = t) events
    | None => events
    end in
  match actor_ with
  | Some a => filter (fun e => actor e = a) events
  | None => events
  end.

(** The events the weights service logs. *)
Definition weight_changed_event (now : datetime) (actor criterion_id : string)
           (old_weight new_weight : Z) (reason : string) : AuditEvent :=
  {| ts := now; actor := actor; ev_type := "weight_changed";
     details := [("criterionId", JStr criterion_id);
                 ("oldWeight", JInt old_weight);
                 ("newWeight", JInt new_weight);
                 ("reason", JStr reason)] |}.

Definition weights_locked_event (now : datetime) (actor : string) : AuditEvent :=
  {| ts := now; actor := actor; ev_type := "weights_locked"; details := [] |}.

Definition weights_unlocked_event (now : datetime) (actor reason : string)
  : AuditEvent :=
  {| ts := now; actor := actor; ev_type := "weights_unlocked";
     details := [("reason", JStr reason)] |}.

(** The pair a score is for, and the invariant of the entity model that a
    scenario holds at most one score per pair. *)
Definition score_key (sc : Score) : string * string :=
  (optionId sc, criterionId sc).

Definition unique_pairs (s : Scenario Z) : Prop :=
  NoDup (map score_key (scores s)).

(** The raw value [set_score] finds for a pair, 0 when it finds none. *)
Definition raw_before (s : Scenario Z) (option_id criterion_id : string) : Z :=
  match find_score (scores s) option_id criterion_id with
  | Some (_, old) => raw old
  | None => 0
  end.

(** An event passes the filters of [get_history]. *)
Definition history_match (ty ac : option string) (e : AuditEvent) : Prop :=
  (forall t, ty = Some t -> ev_type e = t) /\ (forall a, ac = Some a -> actor e = a).

(** ** AnalysisService.contributions *)

(** The values of the dict [contributions] returns: the entry under the
    key ["criteria"] maps a criterion id to its name and weight, the entry
    of an option maps a criterion id to a weighted score and ["total"] to
    their sum. *)
Inductive ContribVal (W : Type) :=
| CCriteria (meta : gmap string (string * W))
| CContrib (m : gmap string W).
Arguments CCriteria {W} meta.
Arguments CContrib {W} m.

Section Contributions.
Context {W : Type} `{PyNumber W}.

(** The loop that fills [result["criteria"]]. *)
Definition criteria_meta (cs : list (Criterion W)) : gmap string (string * W) :=
  foldl (fun m c => <[c_id c := (c_name c, c_weight c)]> m) ∅ cs.

(** The loop over [scenario.scores] for one requested option: the state is
    [(contributions_map, total)]. *)
Definition option_contributions (weights : gmap string W) (sc : list Score)
           (option_id : string) : gmap string W * W :=
  foldl (fun '(contributions_map, total_) score =>
           if decide (optionId score = option_id)
           then
             let weight := default (num_of_int 0) (weights !! criterionId score) in
             let weighted_score := num_mul (num_of_int (raw score)) weight in
             (<[criterionId score := weighted_score]> contributions_map,
              num_add total_ weighted_score)
           else (contributions_map, total_))
        (∅, num_of_int 0) sc.

Definition contributions (s : Scenario W) (option_ids : list string)
  : gmap string (ContribVal W) :=
  let weights := weights_map (criteria s) in
  foldl (fun result option_id =>
           let '(contributions_map, total_) :=
             option_contributions weights (scores s) option_id in
           <[option_id := CContrib (<["total" := total_]> contributions_map)]> result)
        {["criteria" := CCriteria (criteria_meta (criteria s))]} option_ids.
End Contributions.

(** The last character of a string. *)
Fixpoint str_last (s : string) : option ascii :=
  match s with
  | EmptyString => None
  | String c EmptyString => Some c
  | String _ r => str_last r
  end.

Definition not_dot (c : ascii) : bool := negb (Ascii.eqb c ".").

(** The paths [save] works on for a scenario id: the file of the scenario
    and the temporary file beside it. *)
Definition scenario_file (base_path scenario_id : string) : string :=
  base_path +:+ "/" +:+ scenario_id +:+ ".json".

Definition scenario_temp_file (base_path scenario_id : string) : string :=
  base_path +:+ "/" +:+ scenario_id +:+ ".tmp".

(** A store that holds an old file for the id "demo" and whose operating
    system refuses every rename. *)
Definition refusing_rename_fs : FS :=
  {| files := {["store/demo.json" := Malformed "old"]};
     fs_fails := fun c => match c with FsReplace _ _ => true | _ => false end;
     fs_trace := [] |}.

(** A scenario the services cannot produce: one raw score is 9. *)
Definition out_of_range_scenario : Scenario Z :=
  mk_scenario [mk_criterion "c1" 10] [mk_option "A"] [mk_score "A" "c1" 9].

(** ** Scenario service (ScenarioService.create and ScenarioService.progress) *)

(** [str(n)] for an [int]. *)
Definition str_of_int (z : Z) : string :=
  DecimalString.NilEmpty.string_of_int (Z.to_int z).

(** [not s or not s.strip()] *)
Definition is_blank (s : string) : bool := is_empty s || is_empty (strip s).

(** The loop over [enumerate(options)] that validates the option names;
    [i] is the index of the head of the list. *)
Fixpoint check_option_names (i : Z) (options : list string) : result unit :=
  match options with
  | [] => Ok tt
  | opt_name :: rest =>
      if is_blank opt_name then
        Raise (ValidationError
                 ("Option " +:+ str_of_int (i + 1) +:+ " name cannot be empty"))
      else if 100 <? Z.of_nat (py_len opt_name) then
        Raise (ValidationError
                 ("Option " +:+ str_of_int (i + 1)
                  +:+ " name must be 100 characters or less"))
      else check_option_names (i + 1) rest
  end.

(** [[Option(id=f"opt{i+1}", name=name) for i, name in enumerate(options)]] *)
Fixpoint option_models (i : Z) (options : list string) : list Option :=
  match options with
  | [] => []
  | name :: rest =>
      {| o_id := "opt" +:+ str_of_int (i + 1); o_name := name; o_notes := None |}
      :: option_models (i + 1) rest
  end.

(** ScenarioService.create.  [uuid4] is the text of [uuid.uuid4()],
    [created] and [modified] are the two readings of the clock that fill
    [createdAt] and [modifiedAt], and [default_criteria] is what
    [_load_default_criteria()] does when it is called: the criteria it
    returns or the error it raises. *)
Definition create (uuid4 : string) (created modified : datetime)
           (default_criteria : result (list (Criterion Z)))
           (title : string) (options : list string)
           (custom_criteria : option (list (Criterion Z)))
  : result (Scenario Z) :=
  if is_blank title then
    Raise (ValidationError "Scenario title cannot be empty")
  else if 200 <? Z.of_nat (py_len title) then
    Raise (ValidationError "Scenario title must be 200 characters or less")
  else if bool_decide (options = []) then
    Raise (ValidationError "At least one option is required")
  else
    match check_option_names 0 options with
    | Raise e => Raise e
    | Ok _ =>
        let scenario_id := substring 0 12 uuid4 in
        let models := option_models 0 options in
        match match custom_criteria with
              | Some cs => Ok cs
              | None => default_criteria
              end with
        | Raise e => Raise e
        | Ok cs =>
            Ok {| id := scenario_id; title := title;
                  createdAt := created; modifiedAt := modified;
                  weightsLocked := false; criteria := cs;
                  options := models; scores := [];
                  settings := default_settings; audit := [] |}
        end
    end.

Record Progress := {
  total_cells : Z;
  scored_cells : Z;
  percent_complete : Qc;
  weights_locked : bool
}.

(** ScenarioService.progress *)
Definition progress (s : Scenario Z) : Progress :=
  let total := Z.of_nat (length (options s)) * Z.of_nat (length (criteria s)) in
  let scored := Z.of_nat (length (scores s)) in
  {| total_cells := total;
     scored_cells := scored;
     percent_complete :=
       if 0 <? total then f64_mul (int_truediv scored total) (f64_of_int 100)
       else Z2Qc 0;
     weights_locked := weightsLocked s |}.

(** A name that is not blank and has at most [limit] characters. *)
Definition name_ok (limit : Z) (s : string) : bool :=
  negb (is_blank s) && (Z.of_nat (py_len s) <=? limit).

(** The inputs that [create] accepts. *)
Definition inputs_ok (ttl : string) (names : list string) : bool :=
  name_ok 200 ttl && negb (bool_decide (names = [])) && forallb (name_ok 100) names.

(** Text outside ASCII, given by the bytes of its UTF-8 encoding: the
    euro sign (U+20AC), the letter e with acute accent (U+00E9) and the
    em space (U+2003, whitespace for [str.strip]). *)
Definition utf8 (l : list N) : string :=
  foldr (fun b s => String (ascii_of_N b) s) EmptyString l.

Definition euro_sign : string := utf8 [226; 130; 172]%N.
Definition e_acute : string := utf8 [195; 169]%N.
Definition em_space : string := utf8 [226; 128; 131]%N.

Fixpoint str_repeat (s : string) (n : nat) : string :=
  match n with
  | O => EmptyString
  | S k => s +:+ str_repeat s k
  end.

(** The characters of the text of a UUID: lower-case hexadecimal digits
    and hyphens. *)
Definition is_uuid_char (c : ascii) : bool :=
  let n := nat_of_ascii c in
  ((48 <=? n) && (n <=? 57) || (97 <=? n) && (n <=? 102) || (n =? 45))%nat.

Definition uuid_text (u : string) : Prop :=
  String.length u = 36%nat /\ str_all is_uuid_char u = true.

(** * Properties *)

(** ** Weighted totals *)

Lemma weights_map_fold (cs : list (Criterion Z)) (m : gmap string Z) (k : string) :
  NoDup (map c_id cs) ->
  foldl (fun m c => <[c_id c := c_weight c]> m) m cs !! k =
  match find_criterion cs k with
  | Some c => Some (c_weight c)
  | None => m !! k
  end.
Proof.
  revert m. induction cs as [|c cs IH]; intros m Hnd; simpl; [done|].
  inversion Hnd as [|? ? Hnotin Hnd']; subst.
  rewrite IH by done. unfold find_criterion in *.
  case_bool_decide as Hk.
  - subst k.
    destruct (List.find _ cs) as [c'|] eqn:Hf.
    + apply List.find_some in Hf as [Hin Heq].
      apply bool_decide_eq_true in Heq.
      exfalso. apply Hnotin. rewrite <- Heq.
      apply list_elem_of_In in Hin. by apply list_elem_of_fmap_2.
    + by rewrite lookup_insert_eq.
  - destruct (List.find _ cs); [done|]. by rewrite lookup_insert_ne.
Qed.

Lemma weights_map_spec (cs : list (Criterion Z)) (k : string) :
  NoDup (map c_id cs) ->
  default 0 (weights_map cs !! k) = spec_weight cs k.
Proof.
  intros Hnd. unfold weights_map, spec_weight.
  rewrite weights_map_fold by done.
  destruct (find_criterion cs k); [done|]. by rewrite lookup_empty.
Qed.

Lemma option_total_fold (w : gmap string Z) (sc : list Score) (oid : string) (acc : Z) :
  foldl (fun acc s =>
           if decide (optionId s = oid)
           then num_add acc (num_mul (num_of_int (raw s))
                  (default (num_of_int 0) (w !! criterionId s)))
           else acc) acc sc =
  acc + Zsum (map (fun s => raw s * default 0 (w !! criterionId s))
                  (filter (fun s => optionId s = oid) sc)).
Proof.
  revert acc. induction sc as [|s sc IH]; intros acc; simpl; [lia|].
  rewrite IH. rewrite filter_cons.
  destruct (decide (optionId s = oid)); simpl; lia.
Qed.

Lemma max_possible_fold (cs : list (Criterion Z)) (acc : Z) :
  foldl (fun acc c => num_add acc (num_mul (c_weight c) (num_of_int 5))) acc cs =
  acc + Zsum (map (fun c => c_weight c * 5) cs).
Proof.
  revert acc. induction cs as [|c cs IH]; intros acc; simpl; [lia|].
  rewrite IH. lia.
Qed.

Lemma max_possible_spec (s : Scenario Z) :
  max_possible (criteria s) = spec_max_possible s.
Proof. unfold max_possible. by rewrite max_possible_fold. Qed.

Lemma spec_max_possible_nonneg (s : Scenario Z) :
  Forall valid_criterion (criteria s) -> 0 <= spec_max_possible s.
Proof.
  unfold spec_max_possible. induction 1 as [|c cs Hc _ IH]; simpl; [lia|].
  unfold valid_criterion in Hc. lia.
Qed.

Lemma option_total_spec (s : Scenario Z) (oid : string) :
  NoDup (map c_id (criteria s)) ->
  option_total (weights_map (criteria s)) (scores s) oid = spec_total s oid.
Proof.
  intros Hnd. unfold option_total, spec_total.
  rewrite option_total_fold. simpl. rewrite Z.add_0_l. f_equal.
  apply map_ext. intros sc. by rewrite weights_map_spec.
Qed.

(** The dict a loop [for o in os: m[o.id] = g(o.id)] builds. *)
Lemma fold_insert_by_key {V} (g : string -> V) (os : list Option)
      (m : gmap string V) (k : string) :
  foldl (fun m o => <[o_id o := g (o_id o)]> m) m os !! k =
  if decide (k ∈ map o_id os) then Some (g k) else m !! k.
Proof.
  revert m. induction os as [|o os IH]; intros m; simpl.
  - destruct (decide (k ∈ [])) as [Hin|]; [|done]. by apply elem_of_nil in Hin.
  - rewrite IH. destruct (decide (k = o_id o)) as [->|Hne].
    + rewrite lookup_insert_eq.
      rewrite (decide_True (P := o_id o ∈ o_id o :: map o_id os))
        by apply list_elem_of_here.
      by destruct (decide (o_id o ∈ map o_id os)).
    + rewrite lookup_insert_ne by done.
      destruct (decide (k ∈ map o_id os)) as [Hin|Hin].
      * by rewrite decide_True by (by apply list_elem_of_further).
      * rewrite decide_False; [done|].
        intros [?|?]%elem_of_cons; done.
Qed.

Lemma totals_from_lookup {W} `{PyNumber W} (cs : list (Criterion W))
      (os : list Option) (sc : list Score) (k : string) :
  totals_from cs os sc !! k =
  if decide (k ∈ map o_id os)
  then Some {| total := option_total (weights_map cs) sc k;
               normalized := normalize (option_total (weights_map cs) sc k)
                                       (max_possible cs) |}
  else None.
Proof.
  unfold totals_from.
  rewrite (fold_insert_by_key
             (fun k => {| total := option_total (weights_map cs) sc k;
                          normalized := normalize (option_total (weights_map cs) sc k)
                                                  (max_possible cs) |})).
  by rewrite lookup_empty.
Qed.

(** C1.  In a scenario whose criteria have unique ids and non-negative
    weights (the invariants of the entity model), [totals] is defined on
    exactly the option ids, and for each of them [total] is the sum, over
    the scores of that option, of [raw] times the weight of the criterion
    the score refers to (nothing when it refers to none), and [normalized]
    is the [float] that [total / maxPossible * 100] evaluates to, with
    [maxPossible] the sum of [weight * 5] over all criteria: the quotient
    of the two integers rounded to binary64, times 100, rounded again
    (as long as the quotient is in the range of binary64); and
    [normalized] is 0 when [maxPossible] is 0.  The private copy
    [_calculate_totals] of the analysis service returns the same
    mapping. *)
Theorem totals_spec (s : Scenario Z) :
  NoDup (map c_id (criteria s)) ->
  Forall valid_criterion (criteria s) ->
  _calculate_totals s = totals s /\
  (forall oid, is_Some (totals s !! oid) <-> oid ∈ map o_id (options s)) /\
  forall oid, oid ∈ map o_id (options s) ->
    exists r, totals s !! oid = Some r /\
      total r = spec_total s oid /\
      (spec_max_possible s = 0 -> normalized r = Z2Qc 0) /\
      (spec_max_possible s <> 0 ->
       quotient_in_range (spec_total s oid) (spec_max_possible s) ->
       normalized r =
       f64_mul (int_truediv (spec_total s oid) (spec_max_possible s))
               (f64_of_int 100)).
Proof.
  intros Hnd Hw. split; [done|]. split.
  - intros oid. unfold totals. rewrite totals_from_lookup.
    case_decide; split; intros Hx; try done.
  - intros oid Hin. unfold totals. rewrite totals_from_lookup.
    rewrite decide_True by done. eexists; split; [done|].
    cbn [total normalized].
    rewrite option_total_spec by done. split; [done|].
    unfold normalize. rewrite max_possible_spec.
    cbn [num_ltb num_of_int num_truediv PyInt].
    pose proof (spec_max_possible_nonneg s Hw) as Hge.
    split.
    + intros Hmp. rewrite Hmp. done.
    + intros Hmp _. destruct (Z.ltb_spec 0 (spec_max_possible s)); [done|lia].
Qed.

Lemma totals_spec_witness :
  exists r, totals example_scenario !! "A" = Some r /\
            total r = 75 /\ normalized r = Z2Qc 100.
Proof.
  destruct (totals_spec example_scenario) as (_ & _ & Hall).
  - repeat constructor; vm_compute; intros Hin;
      repeat (apply elem_of_cons in Hin as [Hin|Hin]; [discriminate|]);
      by apply elem_of_nil in Hin.
  - repeat constructor; vm_compute; discriminate.
  - destruct (Hall "A") as (r & Hr & Ht & _ & Hn).
    + apply list_elem_of_here.
    + exists r. split; [exact Hr|]. split.
      * rewrite Ht. reflexivity.
      * rewrite Hn; [|vm_compute; discriminate|vm_compute; discriminate].
        apply Qc_is_canon. vm_compute. reflexivity.
Defined.

(** The worked example of the specification: A has 75 points and 100%,
    B has 15 points and 20%. *)
Example totals_example :
  totals example_scenario !! "A" = Some {| total := 75; normalized := Z2Qc 100 |} /\
  totals example_scenario !! "B" = Some {| total := 15; normalized := Z2Qc 20 |}.
Proof.
  unfold totals. rewrite !totals_from_lookup.
  split; (rewrite decide_True by (simpl; repeat constructor)).
  - do 2 f_equal; apply Qc_is_canon; vm_compute; reflexivity.
  - do 2 f_equal; apply Qc_is_canon; vm_compute; reflexivity.
Qed.

(** ** Leaderboard *)

Lemma insert_desc_perm (x : Row Z) (l : list (Row Z)) :
  insert_desc x l ≡ₚ x :: l.
Proof.
  induction l as [|y l IH]; simpl; [done|].
  destruct (Z.ltb_spec (r_total x) (r_total y)); [|done].
  rewrite IH. apply Permutation_swap.
Qed.

Lemma sort_desc_perm (l : list (Row Z)) : sort_desc l ≡ₚ l.
Proof.
  induction l as [|x l IH]; simpl; [done|].
  rewrite insert_desc_perm. by rewrite IH.
Qed.

Lemma insert_desc_sorted (x : Row Z) (l : list (Row Z)) :
  StronglySorted desc l -> StronglySorted desc (insert_desc x l).
Proof.
  induction 1 as [|y l Hs IH Hall]; simpl.
  - repeat constructor.
  - destruct (Z.ltb_spec (r_total x) (r_total y)) as [Hlt|Hge].
    + constructor; [done|]. rewrite insert_desc_perm.
      constructor; [unfold desc; lia | done].
    + constructor; [by constructor|].
      constructor; [done|].
      eapply Forall_impl; [exact Hall|]. unfold desc. intros z Hz. simpl in *. lia.
Qed.

Lemma sort_desc_sorted (l : list (Row Z)) : StronglySorted desc (sort_desc l).
Proof.
  induction l as [|x l IH]; simpl; [constructor|]. by apply insert_desc_sorted.
Qed.

(** Stability: inserting [x] moves it past rows with a strictly greater
    total only, so the rows of any one total keep their order. *)
Lemma insert_desc_stable (t : Z) (x : Row Z) (l : list (Row Z)) :
  filter (fun r => r_total r = t) (insert_desc x l) =
  filter (fun r => r_total r = t) (x :: l).
Proof.
  induction l as [|y l IH]; simpl; [done|].
  destruct (Z.ltb_spec (r_total x) (r_total y)) as [Hlt|Hge]; [|done].
  rewrite filter_cons, IH, !filter_cons.
  destruct (decide (r_total y = t)), (decide (r_total x = t)); try done. lia.
Qed.

Lemma sort_desc_stable (t : Z) (l : list (Row Z)) :
  filter (fun r => r_total r = t) (sort_desc l) =
  filter (fun r => r_total r = t) l.
Proof.
  induction l as [|x l IH]; simpl; [done|].
  rewrite insert_desc_stable, !filter_cons, IH. done.
Qed.

Lemma assign_ranks_rows (prev : option Z) (i cr : nat) (l : list (Row Z)) :
  map e_row (assign_ranks prev i cr l) = l.
Proof.
  revert prev i cr. induction l as [|r l IH]; intros; simpl; [done|].
  by rewrite IH.
Qed.

Lemma count_gt_app (t : Z) (l1 l2 : list (Row Z)) :
  count_gt t (l1 ++ l2) = (count_gt t l1 + count_gt t l2)%nat.
Proof. unfold count_gt. by rewrite filter_app, length_app. Qed.

Lemma count_gt_none (t : Z) (l : list (Row Z)) :
  Forall (fun r => r_total r <= t) l -> count_gt t l = 0%nat.
Proof.
  unfold count_gt. induction 1 as [|r l Hr _ IH]; [done|].
  rewrite filter_cons. destruct (decide (t < r_total r)); [lia|done].
Qed.

Lemma count_gt_all (t : Z) (l : list (Row Z)) :
  Forall (fun r => t < r_total r) l -> count_gt t l = length l.
Proof.
  unfold count_gt. induction 1 as [|r l Hr _ IH]; [done|].
  rewrite filter_cons. destruct (decide (t < r_total r)); [|lia].
  simpl. by rewrite IH.
Qed.

Lemma sorted_app_bounds (pre l : list (Row Z)) (r : Row Z) :
  StronglySorted desc (pre ++ r :: l) ->
  Forall (fun x => r_total r <= r_total x) pre /\
  Forall (fun x => r_total x <= r_total r) (r :: l).
Proof.
  intros Hs. split.
  - apply Forall_forall. intros x Hx.
    apply (StronglySorted_app_1_elem_of desc pre (r :: l) x r Hs Hx).
    apply list_elem_of_here.
  - apply StronglySorted_app_1_r in Hs.
    apply StronglySorted_inv in Hs as [_ Hall].
    constructor; [lia|]. exact Hall.
Qed.

Lemma sorted_last_bound (pre : list (Row Z)) (p : Row Z) :
  StronglySorted desc pre -> last pre = Some p ->
  Forall (fun x => r_total p <= r_total x) pre.
Proof.
  intros Hs Hp. apply last_Some in Hp as [l' ->].
  apply Forall_app. split; [|by repeat constructor].
  apply Forall_forall. intros x Hx.
  apply (StronglySorted_app_1_elem_of desc l' [p] x p Hs Hx).
  apply list_elem_of_here.
Qed.

Lemma assign_ranks_count (pre l : list (Row Z)) (prev : option Z) (i cr : nat) :
  StronglySorted desc (pre ++ l) ->
  rank_state pre (pre ++ l) prev i cr ->
  Forall (fun e => rank e = S (count_gt (e_total e) (pre ++ l)))
         (assign_ranks prev i cr l).
Proof.
  revert pre prev i cr. induction l as [|r l IH]; intros pre prev i cr Hs Hst;
    simpl; [constructor|].
  destruct (sorted_app_bounds pre l r Hs) as [Hpre Hpost].
  assert (Hcr : match prev with
                | Some p => if r_total r <? p then (i + 1)%nat else cr
                | None => cr
                end = S (count_gt (r_total r) (pre ++ r :: l))).
  { destruct Hst as [Hi Hlast].
    rewrite count_gt_app, (count_gt_none _ (r :: l)) by done.
    destruct (last pre) as [p|] eqn:Hp.
    - destruct Hlast as [-> ->].
      assert (Hpin : p ∈ pre).
      { apply last_Some in Hp as [l' ->]. apply elem_of_app. right. by left. }
      destruct (Z.ltb_spec (r_total r) (r_total p)) as [Hlt|Hge].
      + rewrite count_gt_all; [lia|].
        apply StronglySorted_app_1_l in Hs.
        eapply Forall_impl; [exact (sorted_last_bound pre p Hs Hp)|].
        simpl. intros x Hx. lia.
      + rewrite Forall_forall in Hpre. specialize (Hpre p Hpin).
        assert (r_total p = r_total r) as -> by lia.
        rewrite count_gt_app, (count_gt_none _ (r :: l)) by done. lia.
    - destruct Hlast as [-> ->].
      apply last_None in Hp. subst pre. done. }
  rewrite Hcr. constructor; [done|].
  replace (pre ++ r :: l) with ((pre ++ [r]) ++ l) by (by rewrite <- app_assoc).
  apply IH.
  - by rewrite <- app_assoc.
  - split.
    + destruct Hst as [-> _]. rewrite length_app. simpl. lia.
    + rewrite last_snoc. split; [done|]. by rewrite <- app_assoc.
Qed.

Lemma sorted_lookup_le (l : list (Row Z)) (i j : nat) (a b : Row Z) :
  StronglySorted desc l -> (i < j)%nat ->
  l !! i = Some a -> l !! j = Some b -> r_total b <= r_total a.
Proof.
  intros Hs Hij Ha Hb.
  rewrite <- (take_drop j l) in Hs.
  apply (StronglySorted_app_1_elem_of desc _ _ a b Hs).
  - apply list_elem_of_lookup. exists i. by rewrite lookup_take_lt.
  - apply list_elem_of_lookup. exists 0%nat. rewrite lookup_drop.
    by rewrite Nat.add_0_r.
Qed.

Lemma count_gt_perm (t : Z) (l1 l2 : list (Row Z)) :
  l1 ≡ₚ l2 -> count_gt t l1 = count_gt t l2.
Proof. intros Hp. unfold count_gt. by rewrite Hp. Qed.

Lemma leaderboard_rows (s : Scenario Z) :
  map e_row (leaderboard s) = sort_desc (option_rows s).
Proof. unfold leaderboard. by rewrite assign_ranks_rows. Qed.

Lemma leaderboard_rank_count (s : Scenario Z) (e : Entry Z) :
  e ∈ leaderboard s -> rank e = S (count_gt (e_total e) (option_rows s)).
Proof.
  intros He.
  pose proof (assign_ranks_count [] (sort_desc (option_rows s)) None 0 1
                (sort_desc_sorted _)) as Hall.
  simpl in Hall. rewrite Forall_forall in Hall.
  rewrite (Hall ltac:(by split) e He).
  f_equal. apply count_gt_perm, sort_desc_perm.
Qed.

Lemma count_gt_block_start (l : list (Row Z)) (i : nat) (r : Row Z) :
  StronglySorted desc l -> l !! i = Some r ->
  (i = 0%nat \/ exists p, l !! (i - 1)%nat = Some p /\ r_total r < r_total p) ->
  count_gt (r_total r) l = i.
Proof.
  intros Hs Hr Hstart.
  rewrite <- (take_drop i l), count_gt_app.
  assert (Hi : (i < length l)%nat) by (by eapply lookup_lt_Some).
  rewrite (count_gt_none _ (drop i l)), count_gt_all.
  - rewrite length_take. lia.
  - apply Forall_forall. intros x Hx.
    apply list_elem_of_lookup in Hx as [k Hk].
    assert (Hki : (k < i)%nat).
    { apply lookup_lt_Some in Hk. rewrite length_take in Hk. lia. }
    rewrite lookup_take_lt in Hk by done.
    destruct Hstart as [->|(p & Hp & Hlt)]; [lia|].
    destruct (decide (k = (i - 1)%nat)) as [->|Hne].
    + rewrite Hp in Hk. by inversion Hk; subst.
    + pose proof (sorted_lookup_le l k (i - 1) x p Hs ltac:(lia) Hk Hp). lia.
  - apply Forall_forall. intros x Hx.
    apply list_elem_of_lookup in Hx as [k Hk].
    rewrite lookup_drop in Hk.
    destruct k as [|k].
    + rewrite Nat.add_0_r, Hr in Hk. inversion Hk; subst. lia.
    + by apply (sorted_lookup_le l i (i + S k) r x Hs ltac:(lia)).
Qed.

(** C2.  [leaderboard] has one entry per option, carrying the option's
    name and total; the entries are in descending order of total; entries
    with equal totals have the same rank; an entry that is first, or whose
    predecessor has a strictly greater total, has its 1-based position as
    rank.  Together: the rank of an entry is one more than the number of
    options with a strictly greater total, so ranks skip after a tie. *)
Theorem leaderboard_spec (s : Scenario Z) :
  let lb := leaderboard s in
  map e_row lb ≡ₚ option_rows s /\
  map e_optionId lb ≡ₚ map o_id (options s) /\
  length lb = length (options s) /\
  (forall e, e ∈ lb ->
     total (totals_get (totals s) (e_optionId e)) = e_total e) /\
  (forall i j ei ej, (i < j)%nat -> lb !! i = Some ei -> lb !! j = Some ej ->
     e_total ej <= e_total ei) /\
  (forall ei ej, ei ∈ lb -> ej ∈ lb -> e_total ei = e_total ej ->
     rank ei = rank ej) /\
  (forall i e, lb !! i = Some e ->
     (i = 0%nat \/ exists p, lb !! (i - 1)%nat = Some p /\ e_total e < e_total p) ->
     rank e = S i) /\
  (forall e, e ∈ lb -> rank e = S (count_gt (e_total e) (option_rows s))).
Proof.
  intros lb.
  assert (Hrows : map e_row lb ≡ₚ option_rows s).
  { unfold lb. rewrite leaderboard_rows. apply sort_desc_perm. }
  assert (Hlook : forall i e, lb !! i = Some e ->
                    sort_desc (option_rows s) !! i = Some (e_row e)).
  { intros i e He. rewrite <- leaderboard_rows.
    change (map e_row (leaderboard s)) with (e_row <$> lb).
    by rewrite list_lookup_fmap, He. }
  split; [exact Hrows|]. split.
  { assert (map e_optionId lb = map r_optionId (map e_row lb)) as ->
      by (unfold e_optionId; by rewrite map_map).
    assert (map o_id (options s) = map r_optionId (option_rows s)) as ->
      by (unfold option_rows, build_rows; by rewrite map_map).
    by apply Permutation_map. }
  split.
  { rewrite <- (length_map e_row lb). rewrite Hrows.
    unfold option_rows, build_rows. by rewrite length_map. }
  split.
  { intros e He.
    assert (Hin : e_row e ∈ option_rows s).
    { rewrite <- Hrows. by apply (list_elem_of_fmap_2 e_row). }
    unfold option_rows, build_rows in Hin.
    apply list_elem_of_fmap in Hin as (o & Heq & _).
    unfold e_optionId, e_total. rewrite Heq. done. }
  split.
  { intros i j ei ej Hij Hi Hj.
    apply (sorted_lookup_le (sort_desc (option_rows s)) i j (e_row ei) (e_row ej)
             (sort_desc_sorted _) Hij); by apply Hlook. }
  split.
  { intros ei ej Hi Hj Heq.
    rewrite (leaderboard_rank_count s ei Hi), (leaderboard_rank_count s ej Hj).
    by rewrite Heq. }
  split.
  { intros i e He Hstart.
    rewrite (leaderboard_rank_count s e) by (by eapply list_elem_of_lookup_2).
    f_equal. rewrite (count_gt_perm _ _ _ (symmetry (sort_desc_perm (option_rows s)))).
    apply count_gt_block_start; [apply sort_desc_sorted | by apply Hlook |].
    destruct Hstart as [->|(p & Hp & Hlt)]; [by left|right].
    exists (e_row p). split; [by apply Hlook | done]. }
  apply leaderboard_rank_count.
Qed.

Lemma leaderboard_spec_witness :
  length (leaderboard tie_scenario) = 3%nat /\
  forall e, e ∈ leaderboard tie_scenario ->
    rank e = S (count_gt (e_total e) (option_rows tie_scenario)).
Proof.
  destruct (leaderboard_spec tie_scenario) as (_ & _ & Hlen & _ & _ & _ & _ & Hrank).
  split; [exact Hlen | exact Hrank].
Defined.

(** The tie rule of the specification: totals [50, 50, 30] give the ranks
    [1, 1, 3]. *)
Example leaderboard_tie_example :
  map (fun e => (e_optionId e, e_total e, rank e)) (leaderboard tie_scenario) =
  [("A", 50, 1%nat); ("B", 50, 1%nat); ("C", 30, 3%nat)].
Proof. vm_compute. reflexivity. Qed.

(** C10.  [leaderboard] is a function of the scenario, and its sort is
    stable: for every total [t], the options whose total is [t] appear in
    the leaderboard in the order they have in the scenario's option list. *)
Theorem leaderboard_stable (s : Scenario Z) (t : Z) :
  map e_optionId (filter (fun e => e_total e = t) (leaderboard s)) =
  map o_id (filter (fun o => total (totals_get (totals s) (o_id o)) = t)
                   (options s)).
Proof.
  transitivity (map r_optionId (filter (fun r => r_total r = t)
                                       (map e_row (leaderboard s)))).
  { induction (leaderboard s) as [|e l IH]; [done|].
    simpl. rewrite !filter_cons. unfold e_total at 1.
    destruct (decide (r_total (e_row e) = t)); simpl; by rewrite IH. }
  rewrite leaderboard_rows, sort_desc_stable.
  unfold option_rows, build_rows.
  induction (options s) as [|o l IH]; [done|].
  simpl. rewrite !filter_cons. simpl.
  destruct (decide (total (totals_get (_calculate_totals s) (o_id o)) = t)) as [Ht|Ht].
  - rewrite decide_True by exact Ht. simpl. by rewrite IH.
  - rewrite decide_False by exact Ht. by rewrite IH.
Qed.

(** ** Gap to the winner *)

Lemma weights_map_values (cs : list (Criterion Z)) (m : gmap string Z) (k : string) (v : Z) :
  foldl (fun m c => <[c_id c := c_weight c]> m) m cs !! k = Some v ->
  m !! k = Some v \/ exists c, c ∈ cs /\ c_weight c = v.
Proof.
  revert m. induction cs as [|c cs IH]; intros m; simpl; [by left|].
  intros Hk. apply IH in Hk as [Hk|(c' & Hin & Hv)].
  - destruct (decide (c_id c = k)) as [<-|Hne].
    + rewrite lookup_insert_eq in Hk. inversion Hk; subst.
      right. exists c. split; [apply list_elem_of_here | done].
    + rewrite lookup_insert_ne in Hk by done. by left.
  - right. exists c'. split; [by apply list_elem_of_further | done].
Qed.

Lemma Zsum_nonneg (l : list Z) : Forall (fun z => 0 <= z) l -> 0 <= Zsum l.
Proof. induction 1; simpl; lia. Qed.

Lemma option_total_nonneg (cs : list (Criterion Z)) (sc : list Score) (oid : string) :
  Forall valid_criterion cs -> Forall valid_score sc ->
  0 <= option_total (weights_map cs) sc oid.
Proof.
  intros Hc Hs. unfold option_total. rewrite option_total_fold. simpl.
  apply Zsum_nonneg. apply Forall_forall. intros z Hz.
  apply list_elem_of_fmap in Hz as (x & -> & Hx).
  apply list_elem_of_filter in Hx as [_ Hx].
  rewrite Forall_forall in Hs. specialize (Hs x Hx). unfold valid_score in Hs.
  destruct (weights_map cs !! criterionId x) as [w|] eqn:Hw; simpl; [|lia].
  apply weights_map_values in Hw as [Hw|(c & Hin & <-)].
  - by rewrite lookup_empty in Hw.
  - rewrite Forall_forall in Hc. specialize (Hc c Hin).
    unfold valid_criterion in Hc. nia.
Qed.

Lemma total_of_nonneg (s : Scenario Z) (o : Option) :
  Forall valid_criterion (criteria s) -> Forall valid_score (scores s) ->
  0 <= total_of s o.
Proof.
  intros Hc Hs. unfold total_of, totals_get, _calculate_totals.
  rewrite totals_from_lookup. case_decide; simpl; [|done].
  by apply option_total_nonneg.
Qed.

Lemma find_winner_snoc (t : gmap string (TotalRec Z)) (os : list Option) (o : Option) :
  find_winner t (os ++ [o]) =
  if snd (find_winner t os) <? total (totals_get t (o_id o))
  then (Some (o_id o), total (totals_get t (o_id o)))
  else find_winner t os.
Proof.
  unfold find_winner. rewrite foldl_app. simpl.
  by destruct (foldl _ _ os) as [w m].
Qed.

(** The winner loop returns the first option, in list order, whose total
    is the greatest. *)
Lemma find_winner_spec (t : gmap string (TotalRec Z)) (os : list Option) :
  (forall o, o ∈ os -> 0 <= total (totals_get t (o_id o))) ->
  os <> [] ->
  exists i w,
    os !! i = Some w /\
    find_winner t os = (Some (o_id w), total (totals_get t (o_id w))) /\
    (forall o, o ∈ os -> total (totals_get t (o_id o)) <= total (totals_get t (o_id w))) /\
    (forall j o, (j < i)%nat -> os !! j = Some o ->
       total (totals_get t (o_id o)) < total (totals_get t (o_id w))).
Proof.
  induction os as [|o os IH] using rev_ind; [done|].
  intros Hpos _. rewrite find_winner_snoc.
  destruct (decide (os = [])) as [->|Hne].
  - simpl. assert (Ho : 0 <= total (totals_get t (o_id o))).
    { apply Hpos. apply list_elem_of_here. }
    destruct (Z.ltb_spec (-1) (total (totals_get t (o_id o)))); [|lia].
    exists 0%nat, o. split; [done|]. split; [done|]. split.
    + intros o' Hin. apply list_elem_of_singleton in Hin. subst. lia.
    + intros j o' Hj. lia.
  - destruct IH as (i & w & Hi & Hfw & Hmax & Hfirst); [|done|].
    { intros o' Hin. apply Hpos. apply elem_of_app. by left. }
    rewrite Hfw. simpl.
    destruct (Z.ltb_spec (total (totals_get t (o_id w))) (total (totals_get t (o_id o))))
      as [Hlt|Hge].
    + exists (length os), o. split; [by rewrite list_lookup_middle|].
      split; [done|]. split.
      * intros o' Hin. apply elem_of_app in Hin as [Hin|Hin].
        -- specialize (Hmax o' Hin). lia.
        -- apply list_elem_of_singleton in Hin. subst. lia.
      * intros j o' Hj Hlook. rewrite lookup_app_l in Hlook by done.
        apply list_elem_of_lookup_2 in Hlook. specialize (Hmax o' Hlook). lia.
    + exists i, w. split.
      { rewrite lookup_app_l; [done|]. by eapply lookup_lt_Some. }
      split; [done|]. split.
      * intros o' Hin. apply elem_of_app in Hin as [Hin|Hin].
        -- by apply Hmax.
        -- apply list_elem_of_singleton in Hin. by subst.
      * intros j o' Hj Hlook. apply (Hfirst j o' Hj).
        rewrite lookup_app_l in Hlook; [done|].
        apply lookup_lt_Some in Hi. lia.
Qed.

Lemma delta_to_winner_lookup (s : Scenario Z) (w : string) (m : Z) (k : string) :
  options s <> [] ->
  find_winner (_calculate_totals s) (options s) = (Some w, m) ->
  delta_to_winner s !! k =
  if decide (k ∈ map o_id (options s))
  then Some (DGap (total (totals_get (_calculate_totals s) k))
                  (m - total (totals_get (_calculate_totals s) k)))
  else ({["winner" := DWinner (Some w)]} : gmap string (DeltaVal Z)) !! k.
Proof.
  intros Hne Hfw. unfold delta_to_winner. rewrite Hfw.
  apply (fold_insert_by_key
           (fun k => DGap (total (totals_get (_calculate_totals s) k))
                          (m - total (totals_get (_calculate_totals s) k)))).
Qed.

(** C3, as stated, fails.  With totals [50, 50, 30] the winner is A, yet B
    is reported with [delta = 0] too.  And when an option is called
    "winner", its own row replaces the designation of the winner. *)
Lemma delta_zero_not_only_winner :
  (delta_to_winner tie_scenario !! "winner" = Some (DWinner (Some "A")) /\
   delta_to_winner tie_scenario !! "B" = Some (DGap 50 0) /\
   "B" <> "A") /\
  delta_to_winner winner_named_scenario !! "winner" = Some (DGap 0 50).
Proof. repeat split; try (vm_compute; reflexivity). discriminate. Qed.

(** C3, amended.  In a scenario with at least one option, with
    non-negative weights and valid scores, none of whose options has the
    id "winner": the winner is the first option, in list order, whose
    total is the greatest; every option is reported with its total and
    [delta = winnerTotal - optionTotal], which is not negative and
    satisfies [winnerTotal - delta = optionTotal]; and [delta] is 0 for the
    winner and for exactly the options whose total equals the winner's. *)
Theorem delta_to_winner_spec (s : Scenario Z) :
  options s <> [] ->
  Forall valid_criterion (criteria s) ->
  Forall valid_score (scores s) ->
  "winner" ∉ map o_id (options s) ->
  exists i w,
    options s !! i = Some w /\
    delta_to_winner s !! "winner" = Some (DWinner (Some (o_id w))) /\
    (forall o, o ∈ options s -> total_of s o <= total_of s w) /\
    (forall j o, (j < i)%nat -> options s !! j = Some o ->
       total_of s o < total_of s w) /\
    delta_to_winner s !! o_id w = Some (DGap (total_of s w) 0) /\
    forall o, o ∈ options s ->
      exists delta,
        delta_to_winner s !! o_id o = Some (DGap (total_of s o) delta) /\
        delta = total_of s w - total_of s o /\
        0 <= delta /\
        total_of s w - delta = total_of s o /\
        (delta = 0 <-> total_of s o = total_of s w).
Proof.
  intros Hne Hc Hs Hkey.
  destruct (find_winner_spec (_calculate_totals s) (options s))
    as (i & w & Hi & Hfw & Hmax & Hfirst); [|done|].
  { intros o _. by apply total_of_nonneg. }
  exists i, w. split; [done|]. split.
  { rewrite (delta_to_winner_lookup s _ _ _ Hne Hfw).
    rewrite decide_False by done. by rewrite lookup_singleton_eq. }
  split; [exact Hmax|]. split; [exact Hfirst|].
  assert (Hrow : forall o, o ∈ options s ->
            delta_to_winner s !! o_id o =
            Some (DGap (total_of s o) (total_of s w - total_of s o))).
  { intros o Ho. rewrite (delta_to_winner_lookup s _ _ _ Hne Hfw).
    rewrite decide_True; [done|]. by apply (list_elem_of_fmap_2 o_id). }
  split.
  { rewrite Hrow by (by eapply list_elem_of_lookup_2). by rewrite Z.sub_diag. }
  intros o Ho. eexists. split; [by apply Hrow|].
  specialize (Hmax o Ho). unfold total_of in *. repeat split; lia.
Qed.

Lemma delta_to_winner_spec_witness :
  exists w, delta_to_winner tie_scenario !! "winner" = Some (DWinner (Some (o_id w))) /\
            delta_to_winner tie_scenario !! o_id w = Some (DGap (total_of tie_scenario w) 0).
Proof.
  destruct (delta_to_winner_spec tie_scenario) as (i & w & _ & Hw & _ & _ & Hd & _).
  - discriminate.
  - repeat constructor; vm_compute; discriminate.
  - repeat constructor; vm_compute; discriminate.
  - simpl. intros Hin.
    repeat (apply elem_of_cons in Hin as [Hin|Hin]; [discriminate|]).
    by apply elem_of_nil in Hin.
  - exists w. split; [exact Hw | exact Hd].
Defined.

(** ** Weights service *)

Lemma list_find_absent {A} (P : A -> Prop) `{forall x, Decision (P x)} (l : list A) :
  (forall x, x ∈ l -> ~ P x) -> list_find P l = None.
Proof.
  intros Hno. apply list_find_None. apply Forall_forall. exact Hno.
Qed.

(** C4.  On a locked scenario [set_weight] raises [LockedError], whatever
    the other arguments.  On an unlocked one it raises [ValidationError]
    when the weight is negative and, the weight being acceptable,
    [NotFoundError] when no criterion has the id.  In the three cases no
    scenario is returned: the caller's scenario, its criteria and its
    audit list are what they were. *)
Theorem set_weight_errors (now : datetime) (s : Scenario Z) (criterion_id : string)
        (weight : Z) (actor reason : string) :
  let r := set_weight now s criterion_id weight actor reason in
  (weightsLocked s = true ->
   r = Raise (LockedError "Cannot change weights: weights are locked")) /\
  (weightsLocked s = false -> weight < 0 ->
   r = Raise (ValidationError "Weight must be non-negative")) /\
  (weightsLocked s = false -> 0 <= weight ->
   (forall c, c ∈ criteria s -> c_id c <> criterion_id) ->
   r = Raise (NotFoundError ("Criterion with id '" +:+ criterion_id +:+ "' not found"))) /\
  (is_raise r -> scenario_after s r = s).
Proof.
  intros r. unfold r, set_weight. repeat split.
  - intros ->. done.
  - intros -> Hw. by destruct (Z.ltb_spec weight 0); [|lia].
  - intros -> Hw Hno. destruct (Z.ltb_spec weight 0); [lia|].
    by rewrite list_find_absent.
  - by destruct (if weightsLocked s then _ else _).
Qed.

Lemma set_weight_errors_witness :
  set_weight 7 locked_example "c1" 3 "ann" "why"
    = Raise (LockedError "Cannot change weights: weights are locked") /\
  set_weight 7 example_scenario "c1" (-1) "ann" "why"
    = Raise (ValidationError "Weight must be non-negative") /\
  set_weight 7 example_scenario "zz" 3 "ann" "why"
    = Raise (NotFoundError "Criterion with id 'zz' not found").
Proof.
  split; [|split].
  - apply (set_weight_errors 7 locked_example "c1" 3 "ann" "why"). reflexivity.
  - apply (set_weight_errors 7 example_scenario "c1" (-1) "ann" "why");
      [reflexivity | lia].
  - apply (set_weight_errors 7 example_scenario "zz" 3 "ann" "why");
      [reflexivity | lia |].
    simpl. intros c Hin.
    repeat (apply elem_of_cons in Hin as [->|Hin]; [discriminate|]).
    by apply elem_of_nil in Hin.
Defined.

(** ** Scoring service *)

Lemma existsb_option (os : list Option) (oid : string) :
  (exists o, o ∈ os /\ o_id o = oid) ->
  existsb (fun o => bool_decide (o_id o = oid)) os = true.
Proof.
  intros (o & Hin & Hid). apply existsb_exists. exists o.
  split; [by apply list_elem_of_In | by apply bool_decide_eq_true].
Qed.

Lemma find_criterion_some {W} (cs : list (Criterion W)) (cid : string) :
  (exists c, c ∈ cs /\ c_id c = cid) -> is_Some (find_criterion cs cid).
Proof.
  intros (c & Hin & Hid). unfold find_criterion.
  destruct (List.find _ cs) eqn:Hf; [done|].
  apply list_elem_of_In in Hin.
  pose proof (List.find_none _ _ Hf c Hin) as Hb. simpl in Hb.
  by apply bool_decide_eq_false in Hb.
Qed.

(** C5.  With [raw] in [1, 5] and ids that exist, [set_score] succeeds.  If
    the pair has a score, the first one, at index [i], is replaced at that
    index by the new score, which keeps the old rationale unless one is
    supplied, and every other position is unchanged; if it has none, the
    new score is appended.  In both cases exactly one event is appended to
    the audit list, a [score_changed] event whose details are [optionId],
    [criterionId], [oldValue] (the previous raw value, or null) and
    [newValue]; nothing else of the scenario changes. *)
Theorem set_score_spec (now : datetime) (s : Scenario Z)
        (option_id criterion_id : string) (raw_ : Z) (actor : string)
        (rationale_ : option string) :
  1 <= raw_ <= 5 ->
  (exists o, o ∈ options s /\ o_id o = option_id) ->
  (exists c, c ∈ criteria s /\ c_id c = criterion_id) ->
  exists s' old_value,
    set_score now s option_id criterion_id raw_ actor rationale_ = Ok s' /\
    audit s' = audit s ++ [score_changed_event now actor option_id criterion_id
                                               old_value raw_] /\
    criteria s' = criteria s /\ options s' = options s /\
    weightsLocked s' = weightsLocked s /\ settings s' = settings s /\
    id s' = id s /\ title s' = title s /\
    (forall i old,
       scores s !! i = Some old -> is_pair option_id criterion_id old ->
       (forall j x, (j < i)%nat -> scores s !! j = Some x ->
                    ~ is_pair option_id criterion_id x) ->
       old_value = JInt (raw old) /\
       length (scores s') = length (scores s) /\
       scores s' !! i =
         Some {| optionId := option_id; criterionId := criterion_id; raw := raw_;
                 rationale := match rationale_ with
                              | Some r => Some r
                              | None => rationale old
                              end |} /\
       (forall j, j <> i -> scores s' !! j = scores s !! j)) /\
    ((forall x, x ∈ scores s -> ~ is_pair option_id criterion_id x) ->
     old_value = JNull /\
     scores s' = scores s ++ [{| optionId := option_id; criterionId := criterion_id;
                                 raw := raw_; rationale := rationale_ |}]).
Proof.
  intros Hraw Hopt Hcrit. unfold set_score.
  destruct (Z.leb_spec 1 raw_); [|lia]. destruct (Z.leb_spec raw_ 5); [|lia].
  simpl. rewrite existsb_option by done. simpl.
  destruct (find_criterion_some _ _ Hcrit) as [c ->].
  unfold find_score. fold (is_pair option_id criterion_id).
  destruct (list_find (is_pair option_id criterion_id) (scores s))
    as [[i0 old0]|] eqn:Hf.
  - apply list_find_Some in Hf as (Hi0 & Hp0 & Hfirst0).
    eexists _, (JInt (raw old0)). split; [reflexivity|]. simpl.
    split; [done|]. do 6 (split; [done|]). split.
    + intros i old Hi Hp Hfirst.
      assert (i = i0) as ->.
      { destruct (Nat.lt_trichotomy i i0) as [Hlt|[Heq|Hgt]]; [|done|].
        - exfalso. by apply (Hfirst0 i old).
        - exfalso. by apply (Hfirst i0 old0). }
      rewrite Hi0 in Hi. inversion Hi; subst old0.
      split; [done|]. split; [apply length_insert|]. split.
      * rewrite list_lookup_insert_eq by (by eapply lookup_lt_Some).
        by destruct rationale_.
      * intros j Hj. by rewrite list_lookup_insert_ne.
    + intros Hno. exfalso. apply (Hno old0); [|done].
      by eapply list_elem_of_lookup_2.
  - eexists _, JNull. split; [reflexivity|]. simpl.
    split; [done|]. do 6 (split; [done|]). split.
    + intros i old Hi Hp _. exfalso.
      apply list_find_None in Hf. rewrite Forall_forall in Hf.
      apply (Hf old); [by eapply list_elem_of_lookup_2 | done].
    + intros _. split; [done|]. by destruct rationale_.
Qed.

Lemma set_score_spec_witness :
  exists s' old_value,
    set_score 7 example_scenario "A" "c1" 3 "ann" None = Ok s' /\
    audit s' = [score_changed_event 7 "ann" "A" "c1" old_value 3].
Proof.
  destruct (set_score_spec 7 example_scenario "A" "c1" 3 "ann" None)
    as (s' & ov & Hok & Haudit & _).
  - lia.
  - exists (mk_option "A"). split; [apply list_elem_of_here | reflexivity].
  - exists (mk_criterion "c1" 10). split; [apply list_elem_of_here | reflexivity].
  - exists s', ov. split; [exact Hok | exact Haudit].
Defined.

(** A second call for the same pair reads back the first value as
    [oldValue] and keeps the rationale. *)
Example set_score_twice :
  forall s1, set_score 7 example_scenario "B" "c2" 4 "ann" (Some "first") = Ok s1 ->
  exists s2, set_score 8 s1 "B" "c2" 2 "bob" None = Ok s2 /\
    scores s2 !! 3%nat = Some {| optionId := "B"; criterionId := "c2"; raw := 2;
                                 rationale := Some "first" |} /\
    last (audit s2) = Some (score_changed_event 8 "bob" "B" "c2" (JInt 4) 2).
Proof.
  intros s1 H1. vm_compute in H1. inversion H1; subst s1.
  eexists. split; [vm_compute; reflexivity|]. split; reflexivity.
Qed.

(** ** Referential validity of scores *)

Lemma refs_valid_insert (s : Scenario Z) (i : nat) (old new : Score) :
  refs_valid s -> scores s !! i = Some old ->
  optionId new = optionId old -> criterionId new = criterionId old ->
  forall sc, sc ∈ <[i := new]> (scores s) ->
    (exists o, o ∈ options s /\ o_id o = optionId sc) /\
    (exists c, c ∈ criteria s /\ c_id c = criterionId sc).
Proof.
  intros Hv Hold Ho Hc sc Hin.
  apply list_elem_of_lookup in Hin as [j Hj].
  destruct (decide (j = i)) as [->|Hne].
  - rewrite list_lookup_insert_eq in Hj by (by eapply lookup_lt_Some).
    inversion Hj; subst sc. rewrite Ho, Hc.
    apply Hv. by eapply list_elem_of_lookup_2.
  - rewrite list_lookup_insert_ne in Hj by done.
    apply Hv. by eapply list_elem_of_lookup_2.
Qed.

(** [set_score] checks both ids before it writes a score. *)
Lemma set_score_refs_valid (now : datetime) (s s' : Scenario Z)
      (option_id criterion_id : string) (raw_ : Z) (actor : string)
      (rationale_ : option string) :
  refs_valid s ->
  set_score now s option_id criterion_id raw_ actor rationale_ = Ok s' ->
  refs_valid s'.
Proof.
  intros Hv. unfold set_score.
  destruct (negb _); [done|].
  destruct (existsb _ (options s)) eqn:Hex; [|done]. simpl.
  destruct (find_criterion (criteria s) criterion_id) as [c|] eqn:Hfc; [|done].
  intros Hs'. inversion Hs'; subst s'. clear Hs'.
  apply existsb_exists in Hex as (o & Hin & Ho).
  apply list_elem_of_In in Hin. apply bool_decide_eq_true in Ho.
  apply List.find_some in Hfc as [Hcin Hc].
  apply list_elem_of_In in Hcin. apply bool_decide_eq_true in Hc.
  unfold refs_valid. simpl.
  destruct (find_score (scores s) option_id criterion_id) as [[i old]|] eqn:Hf.
  - apply list_find_Some in Hf as (Hi & [Hpo Hpc] & _).
    by apply (refs_valid_insert s i old).
  - intros sc Hsc. apply elem_of_app in Hsc as [Hsc|Hsc]; [by apply Hv|].
    apply list_elem_of_singleton in Hsc. subst sc. simpl.
    split; [by exists o | by exists c].
Qed.

Lemma list_insert_same_ids (cs : list (Criterion Z)) (i : nat) (old : Criterion Z) (w : Z) :
  cs !! i = Some old ->
  forall k, (exists c, c ∈ cs /\ c_id c = k) ->
            exists c, c ∈ <[i := with_weight old w]> cs /\ c_id c = k.
Proof.
  intros Hold k (c & Hin & Hk).
  apply list_elem_of_lookup in Hin as [j Hj].
  destruct (decide (j = i)) as [->|Hne].
  - exists (with_weight old w). split.
    + apply list_elem_of_lookup. exists i.
      by rewrite list_lookup_insert_eq by (by eapply lookup_lt_Some).
    + rewrite Hold in Hj. by inversion Hj; subst.
  - exists c. split; [|done]. apply list_elem_of_lookup. exists j.
    by rewrite list_lookup_insert_ne.
Qed.

Lemma set_weight_refs_valid (now : datetime) (s s' : Scenario Z)
      (criterion_id : string) (weight : Z) (actor reason : string) :
  refs_valid s ->
  set_weight now s criterion_id weight actor reason = Ok s' ->
  refs_valid s'.
Proof.
  intros Hv. unfold set_weight.
  destruct (weightsLocked s); [done|]. destruct (weight <? 0); [done|].
  destruct (list_find _ (criteria s)) as [[i old]|] eqn:Hf; [|done].
  intros Hs'. inversion Hs'; subst s'. clear Hs'.
  apply list_find_Some in Hf as (Hi & _ & _).
  intros sc Hsc. simpl in *. destruct (Hv sc Hsc) as [Ho Hc].
  split; [done|]. by apply list_insert_same_ids.
Qed.

Lemma lock_weights_refs_valid (now : datetime) (s s' : Scenario Z) (actor : string) :
  refs_valid s -> lock_weights now s actor = Ok s' -> refs_valid s'.
Proof.
  intros Hv. unfold lock_weights. destruct (negb _); [done|].
  intros Hs'. by inversion Hs'; subst.
Qed.

Lemma unlock_weights_refs_valid (now : datetime) (s s' : Scenario Z)
      (actor reason : string) :
  refs_valid s -> unlock_weights now s actor reason = Ok s' -> refs_valid s'.
Proof.
  intros Hv. unfold unlock_weights. destruct (negb _); [done|].
  intros Hs'. by inversion Hs'; subst.
Qed.

(** [set_rationale] keeps the scores valid when the pair it is given
    exists; it does not look the ids up itself. *)
Lemma set_rationale_refs_valid (s s' : Scenario Z) (option_id criterion_id : string)
      (rationale_ actor : string) :
  refs_valid s ->
  (exists o, o ∈ options s /\ o_id o = option_id) ->
  (exists c, c ∈ criteria s /\ c_id c = criterion_id) ->
  set_rationale s option_id criterion_id rationale_ actor = Ok s' ->
  refs_valid s'.
Proof.
  intros Hv Ho Hc. unfold set_rationale.
  destruct (500 <? py_len rationale_)%nat; [done|].
  intros Hs'. inversion Hs'; subst s'. clear Hs'.
  unfold refs_valid. simpl.
  destruct (find_score (scores s) option_id criterion_id) as [[i old]|] eqn:Hf.
  - apply list_find_Some in Hf as (Hi & _ & _).
    by apply (refs_valid_insert s i old).
  - intros sc Hsc. apply elem_of_app in Hsc as [Hsc|Hsc]; [by apply Hv|].
    apply list_elem_of_singleton in Hsc. by subst sc.
Qed.

(** C6 fails for [set_rationale]: asked to attach a rationale for an
    option id the scenario does not have, it succeeds and stores a score,
    with the default raw value 3, that refers to no option. *)
Theorem set_rationale_dangling_score :
  refs_valid small_scenario /\
  exists s',
    set_rationale small_scenario "ghost" "c1" "because" "ann" = Ok s' /\
    scores s' = [{| optionId := "ghost"; criterionId := "c1"; raw := 3;
                    rationale := Some "because" |}] /\
    options s' = [mk_option "A"] /\
    ~ refs_valid s'.
Proof.
  split.
  - intros sc Hsc. simpl in Hsc. by apply elem_of_nil in Hsc.
  - eexists. split; [reflexivity|]. split; [reflexivity|]. split; [reflexivity|].
    intros Hv. destruct (Hv _ (list_elem_of_here _ _)) as [(o & Hin & Hid) _].
    simpl in Hin. apply list_elem_of_singleton in Hin. subst o. discriminate.
Qed.

(** ** Scenario ids and path resolution *)

Lemma id_char_ascii (c : ascii) :
  is_id_char c = true -> is_lead1 c = true /\ is_space (byte_val c) = false.
Proof.
  destruct c as [[] [] [] [] [] [] [] []]; vm_compute; intros H;
    (discriminate H || (split; reflexivity)).
Qed.

Lemma id_char_not_special (c : ascii) :
  is_id_char c = true -> c <> "."%char /\ c <> "/"%char /\ c <> "\"%char /\ c <> newline.
Proof.
  intros Hc. repeat split; intros ->; vm_compute in Hc; discriminate.
Qed.

Lemma str_all_rev_app (P : ascii -> bool) (s acc : string) :
  str_all P (string_rev_app s acc) = str_all P s && str_all P acc.
Proof.
  revert acc. induction s as [|c r IH]; intros acc; simpl; [done|].
  rewrite IH. simpl. destruct (P c), (str_all P r); simpl; try done.
Qed.

Lemma string_rev_app_nonempty (s acc : string) :
  is_empty (string_rev_app s acc) = is_empty s && is_empty acc.
Proof.
  revert acc. induction s as [|c r IH]; intros acc; simpl; [done|].
  rewrite IH. simpl. by rewrite andb_false_r.
Qed.

Lemma lstrip_id (s : string) :
  str_all is_id_char s = true -> lstrip s = s.
Proof.
  destruct s as [|c r]; cbn [str_all lstrip]; [done|].
  intros [Hc _]%andb_prop. destruct (id_char_ascii c Hc) as [-> ->]. done.
Qed.

Lemma lstrip_rev_id (s : string) :
  str_all is_id_char s = true -> lstrip_rev s = s.
Proof.
  destruct s as [|c r]; cbn [str_all lstrip_rev]; [done|].
  intros [Hc _]%andb_prop. destruct (id_char_ascii c Hc) as [-> ->]. done.
Qed.

Lemma strip_nonempty (s : string) :
  id_well_formed s -> is_empty (strip s) = false.
Proof.
  intros [Hne Hall]. unfold strip, rstrip, string_rev.
  rewrite (lstrip_id s Hall).
  rewrite (lstrip_rev_id (string_rev_app s EmptyString))
    by (by rewrite str_all_rev_app, Hall).
  rewrite !string_rev_app_nonempty. simpl. rewrite !andb_true_r.
  by destruct s.
Qed.

Lemma no_separator (s : string) :
  str_all is_id_char s = true ->
  str_contains ".." s = false /\ str_contains "/" s = false /\
  str_contains "\" s = false.
Proof.
  induction s as [|c r IH]; [done|].
  cbn [str_all str_contains String.prefix].
  intros [Hc Hr]%andb_prop. destruct (IH Hr) as (H1 & H2 & H3).
  rewrite H1, H2, H3.
  destruct (id_char_not_special c Hc) as (Hd & Hs & Hb & _).
  repeat split.
  - destruct (ascii_dec "." c); [congruence|done].
  - destruct (ascii_dec "/" c); [congruence|done].
  - destruct (ascii_dec "\" c); [congruence|done].
Qed.

Lemma re_match_well_formed (s : string) : id_well_formed s -> re_match_id s = true.
Proof.
  intros [Hne Hall]. induction s as [|c r IH]; [done|].
  simpl in *. apply andb_prop in Hall as [Hc Hr]. rewrite Hc. simpl.
  destruct r as [|c' r']; [done|].
  rewrite IH by done. apply orb_true_r.
Qed.

(** What [re.match] accepts: a well-formed id, possibly followed by one
    newline. *)
Lemma re_match_id_iff (s : string) :
  re_match_id s = true <->
  id_well_formed s \/ exists p, id_well_formed p /\ s = p +:+ nl.
Proof.
  split.
  - induction s as [|c r IH]; simpl; [done|].
    intros [Hc Hr]%andb_prop. apply orb_prop in Hr as [Hr|Hr].
    + destruct r as [|c' [|c'' r'']]; simpl in Hr; try done.
      * left. split; [done|]. simpl. by rewrite Hc.
      * apply Ascii.eqb_eq in Hr. subst c'. right.
        exists (String c EmptyString). split; [|done].
        split; [done|]. simpl. by rewrite Hc.
    + destruct (IH Hr) as [[Hne Hall]|(p & [Hne Hall] & ->)].
      * left. split; [done|]. simpl. by rewrite Hc, Hall.
      * right. exists (String c p). split; [|done].
        split; [done|]. simpl. by rewrite Hc, Hall.
  - intros [Hwf|(p & [Hne Hall] & ->)]; [by apply re_match_well_formed|].
    induction p as [|c r IH]; [done|].
    simpl in *. apply andb_prop in Hall as [Hc Hr]. rewrite Hc. simpl.
    destruct r as [|c' r'].
    + reflexivity.
    + rewrite IH by done. apply orb_true_r.
Qed.

(** Every well-formed id passes path resolution. *)
Lemma get_file_path_well_formed (base_path s : string) :
  id_well_formed s ->
  _get_file_path base_path s = Ok {| parent := base_path; p_name := s +:+ ".json" |}.
Proof.
  intros Hwf. unfold _get_file_path.
  rewrite (strip_nonempty s Hwf).
  destruct Hwf as [Hne Hall].
  destruct (no_separator s Hall) as (-> & -> & ->).
  rewrite re_match_well_formed by done.
  by destruct s.
Qed.

(** An id is refused with a [ValidationError], or resolved to
    [<base>/<id>.json]. *)
Lemma get_file_path_cases (base_path s : string) :
  (exists msg, _get_file_path base_path s = Raise (ValidationError msg)) \/
  (_get_file_path base_path s = Ok {| parent := base_path; p_name := s +:+ ".json" |} /\
   re_match_id s = true).
Proof.
  unfold _get_file_path.
  destruct (is_empty s || is_empty (strip s)); [left; eauto|].
  destruct (str_contains ".." s || str_contains "/" s || str_contains "\" s);
    [left; eauto|].
  destruct (re_match_id s); simpl; [right; done | left; eauto].
Qed.

Section RepositoryIds.
Variable isoformat : datetime -> string.
Variable fromisoformat : string -> option datetime.

(** An id that path resolution refuses makes each repository operation
    raise that error with the file system untouched: no file changed and
    no call made. *)
Lemma refused_id_no_access (now : datetime) (base_path scenario_id : string)
      (s : Scenario Z) (fs : FS) (e : CTTIError) :
  _get_file_path base_path scenario_id = Raise e ->
  (id s = scenario_id -> save isoformat base_path s fs = (Raise e, fs)) /\
  load fromisoformat now base_path scenario_id fs = (Raise e, fs) /\
  exists_ base_path scenario_id fs = (Raise e, fs) /\
  delete_ base_path scenario_id fs = (Raise e, fs).
Proof.
  intros He. unfold save, load, exists_, delete_. rewrite He.
  repeat split. intros ->. by rewrite He.
Qed.
End RepositoryIds.

(** An id that is not well formed and has no trailing newline is refused. *)
Lemma get_file_path_refuses (base_path s : string) :
  ~ id_well_formed s ->
  (forall p, s <> p +:+ nl) ->
  exists msg, _get_file_path base_path s = Raise (ValidationError msg).
Proof.
  intros Hbad Hnl.
  destruct (get_file_path_cases base_path s) as [Hr|[_ Hm]]; [done|].
  apply re_match_id_iff in Hm as [Hwf|(p & _ & ->)]; [done|]. by destruct (Hnl p).
Qed.

(** C7 fails on an id that ends in a newline: ["abc\n"] holds a character
    that is neither a letter, a digit, an underscore nor a hyphen, and
    path resolution accepts it, because [$] of [re.match] also matches
    just before a final newline.  A repository operation on that id goes
    on to the file system: [exists] asks for [<base>/abc\n.json]. *)
Theorem trailing_newline_accepted :
  ~ id_well_formed ("abc" +:+ nl) /\
  is_id_char newline = false /\
  _get_file_path "store" ("abc" +:+ nl)
    = Ok {| parent := "store"; p_name := "abc" +:+ nl +:+ ".json" |} /\
  fst (exists_ "store" ("abc" +:+ nl) empty_fs) = Ok false /\
  fs_trace (snd (exists_ "store" ("abc" +:+ nl) empty_fs))
    = [FsExists ("store/abc" +:+ nl +:+ ".json")].
Proof.
  split; [|repeat split]; try reflexivity.
  intros [_ Hall]. vm_compute in Hall. discriminate.
Qed.

(** ** Persistence round trip *)

Lemma opt_all_map {A} (f : Json -> option A) (g : A -> Json) (l : list A) :
  Forall (fun x => f (g x) = Some x) l -> opt_all (map f (map g l)) = Some l.
Proof.
  induction 1 as [|x l Hx _ IH]; [done|].
  unfold opt_all in *. simpl. by rewrite Hx, IH.
Qed.

Lemma load_dump_criterion (c : Criterion Z) :
  valid_criterion c -> load_criterion (dump_criterion c) = Some c.
Proof.
  unfold valid_criterion. intros Hw. destruct c as [i n w [h l] a]. simpl in *.
  by destruct (Z.ltb_spec w 0); [lia|].
Qed.

Lemma load_dump_option (o : Option) : load_option (dump_option o) = Some o.
Proof. by destruct o as [i n [nt|]]. Qed.

Lemma load_dump_score (sc : Score) :
  valid_score sc -> load_score (dump_score sc) = Some sc.
Proof.
  unfold valid_score. intros Hr. destruct sc as [o c r [rt|]]; simpl in *.
  - destruct (Z.leb_spec 1 r); [|lia]. by destruct (Z.leb_spec r 5); [|lia].
  - destruct (Z.leb_spec 1 r); [|lia]. by destruct (Z.leb_spec r 5); [|lia].
Qed.

Lemma load_dump_settings (st : Settings) :
  Qc_ltb (Z2Qc 0) (sensitivityStep st) = true ->
  load_settings (Some (dump_settings st)) = Some st.
Proof.
  intros Hq. destruct st as [p f q]. simpl in *. rewrite Hq.
  by destruct p, f.
Qed.

Section RoundTrip.
Variable isoformat : datetime -> string.
Variable fromisoformat : string -> option datetime.
Hypothesis iso_round_trip : forall d, fromisoformat (isoformat d) = Some d.

Lemma load_dump_event (now : datetime) (e : AuditEvent) :
  load_event fromisoformat now (dump_event isoformat e) = Some e.
Proof. destruct e as [t a ty d]. simpl. by rewrite iso_round_trip. Qed.

Lemma model_validate_dump (now : datetime) (s : Scenario Z) :
  valid_scenario s ->
  model_validate fromisoformat now (model_dump isoformat s) = Some s.
Proof.
  intros (Hc & Hs & Hq). destruct s as [i t ca ma wl cs os sc [p f q] au].
  simpl in *. rewrite !iso_round_trip. simpl.
  rewrite (opt_all_map load_criterion dump_criterion cs)
    by (eapply Forall_impl; [exact Hc | apply load_dump_criterion]).
  rewrite (opt_all_map load_option dump_option os)
    by (apply Forall_forall; intros; apply load_dump_option).
  rewrite (opt_all_map load_score dump_score sc)
    by (eapply Forall_impl; [exact Hs | apply load_dump_score]).
  rewrite (opt_all_map (load_event fromisoformat now) (dump_event isoformat) au)
    by (apply Forall_forall; intros; apply load_dump_event).
  simpl. rewrite Hq. by destruct p, f.
Qed.

(** A successful [save] leaves the document at [<base>/<id>.json]. *)
Lemma save_ok_file (base_path : string) (s : Scenario Z) (fs : FS) :
  fst (save isoformat base_path s fs) = Ok tt ->
  _get_file_path base_path (id s)
    = Ok {| parent := base_path; p_name := id s +:+ ".json" |} /\
  files (snd (save isoformat base_path s fs))
    !! (base_path +:+ "/" +:+ id s +:+ ".json")
    = Some (Document (model_dump isoformat s)) /\
  fs_fails (snd (save isoformat base_path s fs)) = fs_fails fs.
Proof.
  unfold save.
  destruct (get_file_path_cases base_path (id s)) as [[msg ->]|[-> _]]; [done|].
  unfold fs_write, fs_replace, fs_exists, fs_unlink. simpl.
  destruct (fs_fails fs (FsOpenW _)); simpl; [by repeat case_match|].
  rewrite lookup_insert_eq.
  destruct (fs_fails fs (FsReplace _ _)); simpl; [by repeat case_match|].
  intros _. split; [done|]. split; [|done].
  unfold path_str. simpl. by rewrite lookup_insert_eq.
Qed.

(** [save] succeeds when the id is well formed and the operating system
    refuses nothing. *)
Lemma save_succeeds (base_path : string) (s : Scenario Z) (fs : FS) :
  id_well_formed (id s) ->
  (forall c, fs_fails fs c = false) ->
  fst (save isoformat base_path s fs) = Ok tt.
Proof.
  intros Hwf Hno. unfold save.
  rewrite (get_file_path_well_formed base_path (id s) Hwf).
  unfold fs_write, fs_replace. simpl.
  rewrite !Hno. simpl. rewrite lookup_insert_eq. by rewrite Hno.
Qed.

(** C8.  When [save] of a valid scenario has succeeded and the file can
    be read, [load] of the scenario's id returns a scenario equal to the
    one saved, in every field; and [save] does succeed, and the file can
    be read, when the id is well formed and the operating system refuses
    nothing.  [load] of an id that resolves to a path where no file
    exists raises [NotFoundError]. *)
Theorem save_load_round_trip (now : datetime) (base_path : string)
        (s : Scenario Z) (fs : FS) :
  (valid_scenario s ->
   fst (save isoformat base_path s fs) = Ok tt ->
   fs_fails fs (FsOpenR (base_path +:+ "/" +:+ id s +:+ ".json")) = false ->
   fst (load fromisoformat now base_path (id s)
             (snd (save isoformat base_path s fs))) = Ok s) /\
  (valid_scenario s ->
   id_well_formed (id s) ->
   (forall c, fs_fails fs c = false) ->
   fst (save isoformat base_path s fs) = Ok tt /\
   fst (load fromisoformat now base_path (id s)
             (snd (save isoformat base_path s fs))) = Ok s) /\
  (forall scenario_id p,
     _get_file_path base_path scenario_id = Ok p ->
     files fs !! path_str p = None ->
     fst (load fromisoformat now base_path scenario_id fs)
     = Raise (NotFoundError ("Scenario with id '" +:+ scenario_id +:+ "' not found"))).
Proof.
  assert (Hmain : valid_scenario s ->
            fst (save isoformat base_path s fs) = Ok tt ->
            fs_fails fs (FsOpenR (base_path +:+ "/" +:+ id s +:+ ".json")) = false ->
            fst (load fromisoformat now base_path (id s)
                      (snd (save isoformat base_path s fs))) = Ok s).
  { intros Hv Hok Hread.
    destruct (save_ok_file base_path s fs Hok) as (Hp & Hfile & Hfails).
    unfold load. rewrite Hp.
    unfold fs_exists, fs_read, path_str. simpl.
    rewrite Hfile. rewrite bool_decide_eq_true_2 by done. simpl.
    rewrite Hfails, Hread.
    by rewrite (model_validate_dump now s Hv). }
  split; [exact Hmain|]. split.
  - intros Hv Hwf Hno.
    pose proof (save_succeeds base_path s fs Hwf Hno) as Hok.
    split; [exact Hok|]. by apply Hmain.
  - intros sid p Hp Hnone. unfold load. rewrite Hp.
    unfold fs_exists. simpl. rewrite Hnone.
    rewrite bool_decide_eq_false_2; [done|]. by intros [? ?].
Qed.
End RoundTrip.

Lemma decimal_round_trip (d : datetime) :
  decimal_fromisoformat (decimal_isoformat d) = Some d.
Proof.
  unfold decimal_fromisoformat, decimal_isoformat.
  rewrite DecimalString.NilEmpty.isi. simpl. by rewrite DecimalZ.of_to.
Qed.

Lemma save_load_round_trip_witness :
  fst (load decimal_fromisoformat 9 "store" (id example_scenario)
            (snd (save decimal_isoformat "store" example_scenario empty_fs)))
  = Ok example_scenario.
Proof.
  apply (save_load_round_trip decimal_isoformat decimal_fromisoformat
           decimal_round_trip 9 "store" example_scenario empty_fs).
  - split; [|split].
    + repeat constructor; vm_compute; discriminate.
    + repeat constructor; vm_compute; discriminate.
    + reflexivity.
  - split; [discriminate | reflexivity].
  - reflexivity.
Defined.

(** ** Sensitivity analysis *)

(** *** An [int] and the [float] of the same value *)

Lemma Z2Qc_add (a b : Z) : Z2Qc (a + b) = (Z2Qc a + Z2Qc b)%Qc.
Proof.
  apply Qc_is_canon. unfold Z2Qc, Qcplus, Q2Qc. simpl.
  rewrite !Qred_correct. rewrite inject_Z_plus. reflexivity.
Qed.

Lemma Z2Qc_mul (a b : Z) : Z2Qc (a * b) = (Z2Qc a * Z2Qc b)%Qc.
Proof.
  apply Qc_is_canon. unfold Z2Qc, Qcmult, Q2Qc. simpl.
  rewrite !Qred_correct. rewrite inject_Z_mult. reflexivity.
Qed.

Lemma Z2Qc_ltb (a b : Z) : Qc_ltb (Z2Qc a) (Z2Qc b) = (a <? b).
Proof.
  unfold Qc_ltb, Qccompare, Z2Qc, Q2Qc. simpl.
  rewrite !Qred_correct. unfold Qcompare. simpl.
  rewrite !Z.mul_1_r. unfold Z.ltb. done.
Qed.

Lemma Qc_ltb_lt (a b : Qc) : Qc_ltb a b = true <-> (a < b)%Qc.
Proof.
  unfold Qc_ltb. rewrite Qclt_alt. by destruct (a ?= b)%Qc.
Qed.

Lemma Z2Qc_le (a b : Z) : a <= b -> (Z2Qc a <= Z2Qc b)%Qc.
Proof.
  intros Hab. apply Qcnot_lt_le. intros Hlt. apply Qc_ltb_lt in Hlt.
  rewrite Z2Qc_ltb in Hlt. apply Z.ltb_lt in Hlt. lia.
Qed.

Lemma Z2Qc_lt (a b : Z) : a < b -> (Z2Qc a < Z2Qc b)%Qc.
Proof.
  intros Hab. apply Qc_ltb_lt. rewrite Z2Qc_ltb. by apply Z.ltb_lt.
Qed.

Lemma Z2Qc_opp (a : Z) : Z2Qc (- a) = (- Z2Qc a)%Qc.
Proof.
  apply Qc_is_canon. unfold Z2Qc, Qcopp, Q2Qc. simpl.
  rewrite !Qred_correct. reflexivity.
Qed.

Lemma Z2Qc_le_inv (a b : Z) : (Z2Qc a <= Z2Qc b)%Qc -> a <= b.
Proof.
  intros Hle. destruct (Z.le_gt_cases a b) as [|Hgt]; [done|].
  apply Z2Qc_lt in Hgt. by apply Qclt_not_le in Hgt.
Qed.

Lemma Z2Qc_inj (a b : Z) : Z2Qc a = Z2Qc b -> a = b.
Proof.
  intros Heq. apply Z.le_antisymm; apply Z2Qc_le_inv; rewrite Heq; apply Qcle_refl.
Qed.

Lemma Z2Qc_pos_neq (a : Z) : 0 < a -> Z2Qc a <> 0%Qc.
Proof.
  intros Ha Heq. apply (Z2Qc_lt 0 a) in Ha. rewrite Heq in Ha.
  by apply Qclt_not_eq in Ha.
Qed.

(** A rational is its numerator over its denominator. *)
Lemma Qc_num_den (y : Qc) : (y * Z2Qc (Z.pos (Qden y)))%Qc = Z2Qc (Qnum y).
Proof.
  apply Qc_is_canon. unfold Z2Qc, Qcmult, Q2Qc. simpl.
  rewrite !Qred_correct. destruct y as [[p q] Hc]. simpl.
  unfold Qeq, Qmult, inject_Z. simpl. lia.
Qed.

Lemma Qc_le_num (y : Qc) (k : Z) :
  (y <= Z2Qc k)%Qc <-> Qnum y <= k * Z.pos (Qden y).
Proof.
  unfold Qcle, Z2Qc, Q2Qc. simpl. rewrite Qred_correct.
  unfold Qle, inject_Z. simpl. lia.
Qed.

Lemma Qc_ge_num (y : Qc) (k : Z) :
  (Z2Qc k <= y)%Qc <-> k * Z.pos (Qden y) <= Qnum y.
Proof.
  unfold Qcle, Z2Qc, Q2Qc. simpl. rewrite Qred_correct.
  unfold Qle, inject_Z. simpl. lia.
Qed.

(** *** Rounding to an integer *)

Lemma round_half_even_floor (y : Qc) :
  let fl := Qnum y / Z.pos (Qden y) in
  round_half_even y = fl \/ round_half_even y = fl + 1.
Proof.
  unfold round_half_even. simpl.
  destruct (2 * _ ?= _); [destruct (Z.even _)| |]; auto.
Qed.

Lemma round_half_even_le (y : Qc) (k : Z) :
  (y <= Z2Qc k)%Qc -> round_half_even y <= k.
Proof.
  rewrite Qc_le_num. intros Hle.
  set (p := Qnum y) in *. set (q := Z.pos (Qden y)) in *.
  assert (Hq : 0 < q) by (unfold q; lia).
  pose proof (Z.div_mod p q ltac:(lia)) as Hdm.
  pose proof (Z.mod_pos_bound p q Hq) as Hmod.
  unfold round_half_even. fold p q.
  destruct (Z.eq_dec (p mod q) 0) as [H0|Hn0].
  - rewrite H0. simpl. destruct (2 * 0 ?= q) eqn:Hc.
    + apply Z.compare_eq in Hc. lia.
    + nia.
    + apply Z.compare_gt_iff in Hc. lia.
  - assert (p / q < k) by nia.
    destruct (2 * (p mod q) ?= q); [destruct (Z.even _)| |]; lia.
Qed.

Lemma round_half_even_ge (y : Qc) (k : Z) :
  (Z2Qc k <= y)%Qc -> k <= round_half_even y.
Proof.
  rewrite Qc_ge_num. intros Hle.
  set (p := Qnum y) in *. set (q := Z.pos (Qden y)) in *.
  assert (Hq : 0 < q) by (unfold q; lia).
  pose proof (Z.div_mod p q ltac:(lia)) as Hdm.
  pose proof (Z.mod_pos_bound p q Hq) as Hmod.
  assert (k <= p / q) by nia.
  unfold round_half_even. fold p q.
  destruct (2 * (p mod q) ?= q); [destruct (Z.even _)| |]; lia.
Qed.

Lemma round_half_even_int (k : Z) : round_half_even (Z2Qc k) = k.
Proof.
  apply Z.le_antisymm.
  - apply round_half_even_le, Qcle_refl.
  - apply round_half_even_ge, Qcle_refl.
Qed.

(** *** Powers of two *)

Lemma Qcinv_pos (p : Qc) : (0 < p)%Qc -> (0 < / p)%Qc.
Proof.
  intros Hp. apply Qcnot_le_lt. intros Hle.
  assert (Hne : p <> 0%Qc) by (intros ->; by apply Qclt_not_eq in Hp).
  pose proof (Qcmult_le_compat_r _ _ p Hle (Qclt_le_weak _ _ Hp)) as H.
  rewrite Qcmult_inv_l, Qcmult_0_l in H by done.
  by apply (Qclt_not_le 0 1).
Qed.

Lemma Z2Qc_pow2_pos (n : Z) : 0 <= n -> (0 < Z2Qc (2 ^ n))%Qc.
Proof. intros Hn. apply (Z2Qc_lt 0). by apply Z.pow_pos_nonneg. Qed.

Lemma pow2_pos (e : Z) : (0 < pow2 e)%Qc.
Proof.
  unfold pow2. destruct (Z.leb_spec 0 e).
  - by apply Z2Qc_pow2_pos.
  - apply Qcinv_pos, Z2Qc_pow2_pos. lia.
Qed.

Lemma pow2_neq (e : Z) : pow2 e <> 0%Qc.
Proof. intros Heq. pose proof (pow2_pos e) as H. rewrite Heq in H. by apply Qclt_not_eq in H. Qed.

Lemma pow2_nonneg (e : Z) : 0 <= e -> pow2 e = Z2Qc (2 ^ e).
Proof. intros He. unfold pow2. by destruct (Z.leb_spec 0 e); [|lia]. Qed.

(** [2 ** (u - v)] is [2 ** u / 2 ** v]. *)
Lemma pow2_sub (u v : Z) :
  0 <= u -> 0 <= v -> pow2 (u - v) = (Z2Qc (2 ^ u) / Z2Qc (2 ^ v))%Qc.
Proof.
  intros Hu Hv.
  pose proof (Z2Qc_pos_neq (2 ^ v) ltac:(by apply Z.pow_pos_nonneg)) as Hvn.
  unfold pow2. destruct (Z.leb_spec 0 (u - v)).
  - replace u with ((u - v) + v) at 2 by lia.
    rewrite Z.pow_add_r, Z2Qc_mul by lia. by rewrite Qcdiv_mult_l.
  - pose proof (Z2Qc_pos_neq (2 ^ u) ltac:(by apply Z.pow_pos_nonneg)) as Hun.
    pose proof (Z2Qc_pos_neq (2 ^ (- (u - v))) ltac:(apply Z.pow_pos_nonneg; lia)) as Hdn.
    replace v with (- (u - v) + u) at 2 by lia.
    rewrite Z.pow_add_r, Z2Qc_mul by lia.
    field. split; done.
Qed.

Lemma pow2_add (a b : Z) : pow2 (a + b) = (pow2 a * pow2 b)%Qc.
Proof.
  assert (Hsplit : forall e, e = Z.max e 0 - Z.max (- e) 0) by lia.
  assert (Hne : forall n, 0 <= n -> Z2Qc (2 ^ n) <> 0%Qc).
  { intros n Hn. apply Z2Qc_pos_neq. by apply Z.pow_pos_nonneg. }
  rewrite (Hsplit a) at 2. rewrite (Hsplit b) at 2.
  replace (a + b) with ((Z.max a 0 + Z.max b 0) - (Z.max (- a) 0 + Z.max (- b) 0)) by lia.
  rewrite !pow2_sub by lia.
  rewrite !Z.pow_add_r, !Z2Qc_mul by lia.
  field. split; apply Hne; lia.
Qed.

Lemma pow2_0 : pow2 0 = 1%Qc.
Proof. apply Qc_is_canon. reflexivity. Qed.

Lemma pow2_opp (e : Z) : pow2 (- e) = (/ pow2 e)%Qc.
Proof.
  pose proof (pow2_add e (- e)) as H. rewrite Z.add_opp_diag_r, pow2_0 in H.
  pose proof (pow2_neq e) as Hne.
  rewrite <- (Qcmult_1_l (/ pow2 e)), H.
  rewrite (Qcmult_comm (pow2 e)), <- Qcmult_assoc, Qcmult_inv_r by done. ring.
Qed.

Lemma pow2_le (a b : Z) : a <= b -> (pow2 a <= pow2 b)%Qc.
Proof.
  intros Hab. replace b with (a + (b - a)) by lia. rewrite pow2_add.
  rewrite <- (Qcmult_1_l (pow2 a)) at 1. rewrite (Qcmult_comm (pow2 a)).
  apply Qcmult_le_compat_r; [|apply Qclt_le_weak, pow2_pos].
  rewrite pow2_nonneg by lia. apply (Z2Qc_le 1).
  pose proof (Z.pow_pos_nonneg 2 (b - a)). lia.
Qed.

Lemma pow2_lt (a b : Z) : a < b -> (pow2 a < pow2 b)%Qc.
Proof.
  intros Hab. replace b with (a + (b - a)) by lia. rewrite pow2_add.
  rewrite <- (Qcmult_1_l (pow2 a)) at 1. rewrite (Qcmult_comm (pow2 a)).
  apply Qcmult_lt_compat_r; [apply pow2_pos|].
  rewrite pow2_nonneg by lia. apply (Z2Qc_lt 1).
  apply Z.pow_gt_1; lia.
Qed.

(** *** The binary exponent *)

Lemma frac_le (n1 d1 n2 d2 : Z) :
  0 < d1 -> 0 < d2 -> n1 * d2 <= n2 * d1 ->
  (Z2Qc n1 / Z2Qc d1 <= Z2Qc n2 / Z2Qc d2)%Qc.
Proof.
  intros H1 H2 Hle.
  pose proof (Z2Qc_pos_neq d1 H1) as Hn1. pose proof (Z2Qc_pos_neq d2 H2) as Hn2.
  apply (Qcmult_lt_0_le_reg_r _ _ (Z2Qc (d1 * d2))).
  { apply (Z2Qc_lt 0). lia. }
  rewrite Z2Qc_mul.
  replace (Z2Qc n1 / Z2Qc d1 * (Z2Qc d1 * Z2Qc d2))%Qc with (Z2Qc n1 * Z2Qc d2)%Qc
    by (field; done).
  replace (Z2Qc n2 / Z2Qc d2 * (Z2Qc d1 * Z2Qc d2))%Qc with (Z2Qc n2 * Z2Qc d1)%Qc
    by (field; done).
  rewrite <- !Z2Qc_mul. by apply Z2Qc_le.
Qed.

Lemma frac_lt (n1 d1 n2 d2 : Z) :
  0 < d1 -> 0 < d2 -> n1 * d2 < n2 * d1 ->
  (Z2Qc n1 / Z2Qc d1 < Z2Qc n2 / Z2Qc d2)%Qc.
Proof.
  intros H1 H2 Hlt. apply Qcnot_le_lt. intros Hle.
  pose proof (Z2Qc_pos_neq d1 H1) as Hn1. pose proof (Z2Qc_pos_neq d2 H2) as Hn2.
  assert (Hz : (0 <= Z2Qc (d1 * d2))%Qc) by (apply (Z2Qc_le 0); lia).
  pose proof (Qcmult_le_compat_r _ _ _ Hle Hz) as H. rewrite Z2Qc_mul in H.
  replace (Z2Qc n1 / Z2Qc d1 * (Z2Qc d1 * Z2Qc d2))%Qc with (Z2Qc n1 * Z2Qc d2)%Qc in H
    by (field; done).
  replace (Z2Qc n2 / Z2Qc d2 * (Z2Qc d1 * Z2Qc d2))%Qc with (Z2Qc n2 * Z2Qc d1)%Qc in H
    by (field; done).
  rewrite <- !Z2Qc_mul in H. apply Z2Qc_le_inv in H. lia.
Qed.

Lemma Qc_frac (x : Qc) : x = (Z2Qc (Qnum x) / Z2Qc (Z.pos (Qden x)))%Qc.
Proof.
  rewrite <- Qc_num_den. rewrite Qcdiv_mult_l; [done|]. by apply Z2Qc_pos_neq.
Qed.

Lemma Qc_lt_0_num (x : Qc) : Qc_ltb x (Z2Qc 0) = (Qnum x <? 0).
Proof.
  rewrite (Qc_frac x) at 1.
  destruct (Z.ltb_spec (Qnum x) 0) as [Hneg|Hpos].
  - apply Qc_ltb_lt.
    replace (Z2Qc 0) with (Z2Qc 0 / Z2Qc 1)%Qc by (apply Qc_is_canon; reflexivity).
    apply frac_lt; lia.
  - destruct (Qc_ltb _ _) eqn:Hlt; [|done]. apply Qc_ltb_lt in Hlt.
    exfalso. apply (Qclt_not_le _ _ Hlt).
    replace (Z2Qc 0) with (Z2Qc 0 / Z2Qc 1)%Qc by (apply Qc_is_canon; reflexivity).
    apply frac_le; lia.
Qed.

Lemma Qc_abs_frac (x : Qc) :
  Qc_abs x = (Z2Qc (Z.abs (Qnum x)) / Z2Qc (Z.pos (Qden x)))%Qc.
Proof.
  unfold Qc_abs. rewrite Qc_lt_0_num.
  destruct (Z.ltb_spec (Qnum x) 0).
  - rewrite Z.abs_neq by lia. rewrite Z2Qc_opp. rewrite (Qc_frac x) at 1.
    unfold Qcdiv. ring.
  - rewrite Z.abs_eq by lia. apply Qc_frac.
Qed.

Lemma Qc_num_0 (x : Qc) : Qnum x = 0 -> x = 0%Qc.
Proof.
  intros H0. rewrite (Qc_frac x), H0. apply Qc_is_canon.
  unfold Qcdiv, Qcmult, Qcinv, Z2Qc, Q2Qc. simpl. rewrite !Qred_correct.
  unfold Qeq. simpl. lia.
Qed.

(** [mag x] is the binary exponent of [x]. *)
Lemma mag_spec (x : Qc) :
  x <> 0%Qc ->
  (pow2 (mag x - 1) <= Qc_abs x)%Qc /\ (Qc_abs x < pow2 (mag x))%Qc.
Proof.
  intros Hx.
  assert (Hn : 0 < Z.abs (Qnum x)).
  { destruct (Z.eq_dec (Qnum x) 0) as [H0|]; [|lia]. by apply Qc_num_0 in H0. }
  set (n := Z.abs (Qnum x)) in *. set (d := Z.pos (Qden x)).
  assert (Hd : 0 < d) by (unfold d; lia).
  pose proof (Z.log2_spec n Hn) as [Ha1 Ha2].
  pose proof (Z.log2_spec d Hd) as [Hb1 Hb2].
  pose proof (Z.log2_nonneg n) as Ha0. pose proof (Z.log2_nonneg d) as Hb0.
  assert (Hpa : 0 < 2 ^ Z.log2 n) by (by apply Z.pow_pos_nonneg).
  assert (Hpb : 0 < 2 ^ Z.log2 d) by (by apply Z.pow_pos_nonneg).
  rewrite Z.pow_succ_r in Ha2, Hb2 by done.
  assert (Hlow : (pow2 (Z.log2 n - Z.log2 d - 1) <= Qc_abs x)%Qc).
  { rewrite Qc_abs_frac. fold n d.
    replace (Z.log2 n - Z.log2 d - 1) with (Z.log2 n - (Z.log2 d + 1)) by lia.
    rewrite pow2_sub by lia. apply frac_le; [apply Z.pow_pos_nonneg; lia|done|].
    rewrite Z.pow_add_r by lia. nia. }
  assert (Hhigh : (Qc_abs x < pow2 (Z.log2 n - Z.log2 d + 1))%Qc).
  { rewrite Qc_abs_frac. fold n d.
    replace (Z.log2 n - Z.log2 d + 1) with ((Z.log2 n + 1) - Z.log2 d) by lia.
    rewrite pow2_sub by lia. apply frac_lt; [done|done|].
    rewrite Z.pow_add_r by lia. nia. }
  unfold mag. fold n d.
  destruct (Qc_ltb (Qc_abs x) (pow2 (Z.log2 n - Z.log2 d))) eqn:Hlt.
  - split; [exact Hlow|]. by apply Qc_ltb_lt.
  - split; [|exact Hhigh].
    replace (Z.log2 n - Z.log2 d + 1 - 1) with (Z.log2 n - Z.log2 d) by lia.
    apply Qcnot_lt_le. intros Hc. apply Qc_ltb_lt in Hc. congruence.
Qed.

(** The exponent is the least one above the magnitude. *)
Lemma mag_le (x : Qc) (e : Z) :
  x <> 0%Qc -> (Qc_abs x < pow2 e)%Qc -> mag x <= e.
Proof.
  intros Hx Hlt. destruct (mag_spec x Hx) as [Hlow _].
  destruct (Z.le_gt_cases (mag x) e) as [|Hgt]; [done|].
  exfalso. apply (Qclt_not_le _ _ Hlt).
  eapply Qcle_trans; [|exact Hlow]. apply pow2_le. lia.
Qed.

Lemma mag_ge (x : Qc) (e : Z) :
  x <> 0%Qc -> (pow2 e <= Qc_abs x)%Qc -> e < mag x.
Proof.
  intros Hx Hle. destruct (mag_spec x Hx) as [_ Hhigh].
  destruct (Z.lt_ge_cases e (mag x)) as [|Hge]; [done|].
  exfalso. apply (Qclt_not_le _ _ Hhigh).
  eapply Qcle_trans; [|exact Hle]. by apply pow2_le.
Qed.

(** *** Rounding to binary64 *)

Lemma Qcdiv_mul_cancel (x p : Qc) : p <> 0%Qc -> (x / p * p)%Qc = x.
Proof. intros Hp. field. done. Qed.

(** A number whose last place is a whole multiple of the unit in the
    last place is not changed by rounding. *)
Lemma f64_round_exact (x : Qc) (n : Z) :
  (x / pow2 (f64_exp x))%Qc = Z2Qc n -> f64_round x = x.
Proof.
  intros Hn. unfold f64_round. rewrite Hn, round_half_even_int, <- Hn.
  apply Qcdiv_mul_cancel, pow2_neq.
Qed.

Lemma Qc_abs_Z (k : Z) : Qc_abs (Z2Qc k) = Z2Qc (Z.abs k).
Proof.
  unfold Qc_abs. rewrite Z2Qc_ltb. destruct (Z.ltb_spec k 0).
  - rewrite Z.abs_neq by lia. by rewrite Z2Qc_opp.
  - by rewrite Z.abs_eq by lia.
Qed.

Lemma Qc_abs_nonneg (x : Qc) : (0 <= x)%Qc -> Qc_abs x = x.
Proof.
  intros Hx. unfold Qc_abs. destruct (Qc_ltb x (Z2Qc 0)) eqn:Hlt; [|done].
  apply Qc_ltb_lt in Hlt. by apply Qclt_not_le in Hlt.
Qed.

Lemma f64_exp_small (x : Qc) :
  x <> 0%Qc -> (Qc_abs x < pow2 54)%Qc -> f64_exp x <= 1.
Proof.
  intros Hx Hlt. pose proof (mag_le x 54 Hx Hlt). unfold f64_exp. lia.
Qed.

Lemma f64_exp_1 (x : Qc) :
  x <> 0%Qc -> 1 <= f64_exp x -> (pow2 53 <= Qc_abs x)%Qc.
Proof.
  intros Hx Hc. destruct (mag_spec x Hx) as [Hlow _].
  eapply Qcle_trans; [|exact Hlow]. apply pow2_le. unfold f64_exp in Hc. lia.
Qed.

(** Division by a unit in the last place that is at most 1 is
    multiplication by a whole number. *)
Lemma div_pow2_nonpos (x : Qc) (c : Z) :
  c <= 0 -> (x / pow2 c)%Qc = (x * Z2Qc (2 ^ (- c)))%Qc.
Proof.
  intros Hc. unfold Qcdiv. rewrite <- pow2_opp. by rewrite pow2_nonneg by lia.
Qed.

(** binary64 holds every integer up to [2 ** 53] exactly. *)
Lemma f64_round_int (k : Z) :
  Z.abs k <= 2 ^ 53 -> f64_round (Z2Qc k) = Z2Qc k.
Proof.
  intros Hk. destruct (Z.eq_dec k 0) as [->|Hk0].
  { apply (f64_round_exact _ 0). unfold Qcdiv. change (Z2Qc 0) with 0%Qc. ring. }
  assert (Hx : Z2Qc k <> 0%Qc).
  { intros Heq. by apply (Z2Qc_inj k 0) in Heq. }
  assert (Hlt : (Qc_abs (Z2Qc k) < pow2 54)%Qc).
  { rewrite Qc_abs_Z, pow2_nonneg by lia. apply Z2Qc_lt. lia. }
  pose proof (f64_exp_small _ Hx Hlt) as Hc.
  destruct (Z.le_gt_cases (f64_exp (Z2Qc k)) 0) as [Hc0|Hc1].
  - apply (f64_round_exact _ (k * 2 ^ (- f64_exp (Z2Qc k)))).
    by rewrite div_pow2_nonpos, Z2Qc_mul.
  - assert (Hc' : f64_exp (Z2Qc k) = 1) by lia.
    pose proof (f64_exp_1 _ Hx ltac:(lia)) as Hbig.
    rewrite Qc_abs_Z, pow2_nonneg in Hbig by lia. apply Z2Qc_le_inv in Hbig.
    apply (f64_round_exact _ (k / 2)). rewrite Hc'.
    assert (Hk2 : k = (k / 2) * 2).
    { assert (Z.abs k = 2 ^ 53) as Habs by lia.
      change (2 ^ 53) with (2 ^ 52 * 2) in Habs. destruct (Z.abs_spec k) as [[_ Hk']|[_ Hk']].
      - rewrite Hk' in Habs. rewrite Habs. by rewrite Z.div_mul.
      - assert (k = (- 2 ^ 52) * 2) as -> by lia. by rewrite Z.div_mul. }
    rewrite Hk2 at 1. rewrite Z2Qc_mul, pow2_nonneg by lia.
    change (2 ^ 1) with 2. apply Qcdiv_mult_l. by apply Z2Qc_pos_neq.
Qed.

Lemma f64_round_0 : f64_round 0 = 0%Qc.
Proof. apply (f64_round_int 0). lia. Qed.

Lemma Qcdiv_le_compat (x y p : Qc) : (0 < p)%Qc -> (x <= y)%Qc -> (x / p <= y / p)%Qc.
Proof.
  intros Hp Hxy. unfold Qcdiv. apply Qcmult_le_compat_r; [done|].
  apply Qclt_le_weak. by apply Qcinv_pos.
Qed.

Lemma f64_round_nonneg (x : Qc) : (0 <= x)%Qc -> (0 <= f64_round x)%Qc.
Proof.
  intros Hx. unfold f64_round.
  pose proof (pow2_pos (f64_exp x)) as Hp.
  assert (Hq : (Z2Qc 0 <= x / pow2 (f64_exp x))%Qc).
  { pose proof (Qcdiv_le_compat 0 x _ Hp Hx) as H.
    unfold Qcdiv in H at 1. by rewrite Qcmult_0_l in H. }
  apply round_half_even_ge, (Z2Qc_le 0) in Hq.
  pose proof (Qcmult_le_compat_r _ _ _ Hq (Qclt_le_weak _ _ Hp)) as H.
  by rewrite Qcmult_0_l in H.
Qed.

(** Rounding does not cross an integer that binary64 holds exactly:
    what is at most [k] before rounding is at most [k] after. *)
Lemma f64_round_le_int (x : Qc) (k : Z) :
  (0 <= x)%Qc -> (x <= Z2Qc k)%Qc -> k <= 2 ^ 53 ->
  (f64_round x <= Z2Qc k)%Qc.
Proof.
  intros Hx0 Hxk Hk.
  assert (Hk0 : 0 <= k) by (apply Z2Qc_le_inv; by eapply Qcle_trans).
  destruct (Qc_eq_dec x 0%Qc) as [->|Hx].
  { rewrite f64_round_0. by apply (Z2Qc_le 0). }
  assert (Hlt : (Qc_abs x < pow2 54)%Qc).
  { rewrite Qc_abs_nonneg by done. eapply Qcle_lt_trans; [exact Hxk|].
    rewrite pow2_nonneg by lia. apply Z2Qc_lt. lia. }
  pose proof (f64_exp_small _ Hx Hlt) as Hc.
  pose proof (pow2_pos (f64_exp x)) as Hp.
  destruct (Z.le_gt_cases (f64_exp x) 0) as [Hc0|Hc1].
  - unfold f64_round.
    pose proof (Qcdiv_le_compat _ _ _ Hp Hxk) as Hq.
    rewrite (div_pow2_nonpos (Z2Qc k)), <- Z2Qc_mul in Hq by done.
    apply round_half_even_le, Z2Qc_le in Hq.
    pose proof (Qcmult_le_compat_r _ _ _ Hq (Qclt_le_weak _ _ Hp)) as H.
    rewrite Z2Qc_mul, <- div_pow2_nonpos in H by done.
    by rewrite Qcdiv_mul_cancel in H by apply pow2_neq.
  - pose proof (f64_exp_1 _ Hx ltac:(lia)) as Hbig.
    rewrite Qc_abs_nonneg, pow2_nonneg in Hbig by (done || lia).
    assert (Hxe : x = Z2Qc k).
    { apply Qcle_antisym; [done|]. eapply Qcle_trans; [|exact Hbig]. by apply Z2Qc_le. }
    rewrite Hxe, f64_round_int by lia. apply Qcle_refl.
Qed.

(** A quotient of two [int] in [[0, 1]], times 100, stays in
    [[0, 100]] through both roundings. *)
Lemma f64_percent_bounds (t m : Z) :
  0 <= t <= m -> 0 < m ->
  (0 <= f64_mul (int_truediv t m) (Z2Qc 100))%Qc /\
  (f64_mul (int_truediv t m) (Z2Qc 100) <= Z2Qc 100)%Qc.
Proof.
  intros [Ht Htm] Hm.
  assert (Hq0 : (0 <= Z2Qc t / Z2Qc m)%Qc).
  { replace 0%Qc with (Z2Qc 0 / Z2Qc 1)%Qc by (apply Qc_is_canon; reflexivity).
    apply frac_le; lia. }
  assert (Hq1 : (Z2Qc t / Z2Qc m <= Z2Qc 1)%Qc).
  { replace (Z2Qc 1) with (Z2Qc 1 / Z2Qc 1)%Qc by (apply Qc_is_canon; reflexivity).
    apply frac_le; lia. }
  pose proof (f64_round_nonneg _ Hq0) as Hr0.
  pose proof (f64_round_le_int _ 1 Hq0 Hq1 ltac:(lia)) as Hr1.
  fold (int_truediv t m) in Hr0, Hr1.
  assert (H100 : (0 <= Z2Qc 100)%Qc) by (by apply (Z2Qc_le 0 100)).
  assert (Hp0 : (0 <= int_truediv t m * Z2Qc 100)%Qc).
  { pose proof (Qcmult_le_compat_r _ _ _ Hr0 H100) as H. by rewrite Qcmult_0_l in H. }
  assert (Hp1 : (int_truediv t m * Z2Qc 100 <= Z2Qc 100)%Qc).
  { pose proof (Qcmult_le_compat_r _ _ _ Hr1 H100) as H.
    change (Z2Qc 1) with 1%Qc in H. by rewrite Qcmult_1_l in H. }
  split.
  - by apply f64_round_nonneg.
  - apply f64_round_le_int; [done|done|lia].
Qed.

Lemma Qc_abs_opp (x : Qc) : Qc_abs (- x) = Qc_abs x.
Proof.
  unfold Qc_abs.
  destruct (Qc_ltb (- x) (Z2Qc 0)) eqn:H1; destruct (Qc_ltb x (Z2Qc 0)) eqn:H2.
  - apply Qc_ltb_lt in H1, H2. exfalso.
    apply Qcopp_le_compat in H2 as H3 || idtac.
    apply (Qclt_not_le _ _ H1). change (Z2Qc 0) with (- 0)%Qc.
    apply Qcopp_le_compat. by apply Qclt_le_weak.
  - apply Qcopp_involutive.
  - done.
  - assert (Hx : (Z2Qc 0 <= x)%Qc).
    { apply Qcnot_lt_le. intros Hc. apply Qc_ltb_lt in Hc. congruence. }
    assert (Hnx : (Z2Qc 0 <= - x)%Qc).
    { apply Qcnot_lt_le. intros Hc. apply Qc_ltb_lt in Hc. congruence. }
    apply Qcopp_le_compat in Hnx. rewrite Qcopp_involutive in Hnx.
    change (- Z2Qc 0)%Qc with (Z2Qc 0) in Hnx.
    assert (x = Z2Qc 0) as -> by (by apply Qcle_antisym).
    apply Qc_is_canon. reflexivity.
Qed.

Lemma Qc_abs_pos (x : Qc) : x <> 0%Qc -> (0 < Qc_abs x)%Qc.
Proof.
  intros Hx. unfold Qc_abs. destruct (Qc_ltb x (Z2Qc 0)) eqn:Hlt.
  - apply Qc_ltb_lt in Hlt. apply Qclt_minus_iff in Hlt.
    by rewrite Qcplus_0_l in Hlt.
  - destruct (Qcle_lt_or_eq 0 x) as [|Heq]; [|done|by symmetry in Heq].
    apply Qcnot_lt_le. intros Hc. apply (Qc_ltb_lt x (Z2Qc 0)) in Hc. congruence.
Qed.

(** The binary exponent is determined by the magnitude. *)
Lemma mag_unique (x : Qc) (e : Z) :
  (pow2 (e - 1) <= Qc_abs x)%Qc -> (Qc_abs x < pow2 e)%Qc -> mag x = e.
Proof.
  intros Hlow Hhigh.
  assert (Hx : x <> 0%Qc).
  { intros ->. apply (Qclt_not_le _ _ (pow2_pos (e - 1))).
    by replace 0%Qc with (Qc_abs 0) by (apply Qc_is_canon; reflexivity). }
  pose proof (mag_le x e Hx Hhigh). pose proof (mag_ge x (e - 1) Hx Hlow). lia.
Qed.

Lemma mag_opp (x : Qc) : x <> 0%Qc -> mag (- x) = mag x.
Proof.
  intros Hx. destruct (mag_spec x Hx) as [Hlow Hhigh].
  apply mag_unique; by rewrite Qc_abs_opp.
Qed.

Lemma f64_exp_opp (x : Qc) : x <> 0%Qc -> f64_exp (- x) = f64_exp x.
Proof. intros Hx. unfold f64_exp. by rewrite mag_opp. Qed.

Lemma f64_round_is_f64 (x : Qc) : is_f64 x -> f64_round x = x.
Proof. intros [n Hn]. by apply (f64_round_exact x n). Qed.

Lemma is_f64_opp (x : Qc) : is_f64 x -> is_f64 (- x).
Proof.
  intros [n Hn]. destruct (Qc_eq_dec x 0%Qc) as [->|Hx].
  { exists 0. unfold Qcdiv. change (Z2Qc 0) with 0%Qc. ring. }
  exists (- n). rewrite f64_exp_opp, Z2Qc_opp, <- Hn by done.
  unfold Qcdiv. ring.
Qed.

Lemma is_f64_int (k : Z) : Z.abs k <= 2 ^ 53 -> is_f64 (Z2Qc k).
Proof.
  intros Hk. exists (round_half_even (Z2Qc k / pow2 (f64_exp (Z2Qc k)))).
  pose proof (f64_round_int k Hk) as Hr. unfold f64_round in Hr.
  rewrite <- Hr at 1. apply Qcdiv_mult_l, pow2_neq.
Qed.

Lemma Qc_abs_le (x b : Qc) :
  (- b <= x)%Qc -> (x <= b)%Qc -> (Qc_abs x <= b)%Qc.
Proof.
  intros Hl Hu. unfold Qc_abs. destruct (Qc_ltb x (Z2Qc 0)); [|done].
  apply Qcopp_le_compat in Hl. by rewrite Qcopp_involutive in Hl.
Qed.

Lemma Qc_abs_bounds (x : Qc) : (- Qc_abs x <= x)%Qc /\ (x <= Qc_abs x)%Qc.
Proof.
  unfold Qc_abs. destruct (Qc_ltb x (Z2Qc 0)) eqn:Hlt.
  - apply Qc_ltb_lt in Hlt. rewrite Qcopp_involutive. split; [apply Qcle_refl|].
    apply Qclt_le_weak. eapply Qclt_trans; [exact Hlt|].
    apply Qclt_minus_iff in Hlt. by rewrite Qcplus_0_l in Hlt.
  - assert (Hx : (0 <= x)%Qc).
    { apply Qcnot_lt_le. intros Hc. apply (Qc_ltb_lt x (Z2Qc 0)) in Hc. congruence. }
    split; [|apply Qcle_refl].
    eapply Qcle_trans; [|exact Hx]. apply Qcopp_le_compat in Hx. exact Hx.
Qed.

Lemma Qc_abs_mul_pos (x p : Qc) : (0 < p)%Qc -> Qc_abs (x * p) = (Qc_abs x * p)%Qc.
Proof.
  intros Hp. unfold Qc_abs.
  assert (Hiff : Qc_ltb (x * p) (Z2Qc 0) = Qc_ltb x (Z2Qc 0)).
  { destruct (Qc_ltb x (Z2Qc 0)) eqn:Hlt.
    - apply Qc_ltb_lt in Hlt. apply Qc_ltb_lt.
      pose proof (Qcmult_lt_compat_r _ _ _ Hp Hlt) as H.
      change (Z2Qc 0) with 0%Qc in *. by rewrite Qcmult_0_l in H.
    - destruct (Qc_ltb (x * p) (Z2Qc 0)) eqn:Hlt2; [|done].
      apply Qc_ltb_lt in Hlt2. exfalso.
      assert (Hx : (0 <= x)%Qc).
      { apply Qcnot_lt_le. intros Hc. apply (Qc_ltb_lt x (Z2Qc 0)) in Hc. congruence. }
      pose proof (Qcmult_le_compat_r _ _ _ Hx (Qclt_le_weak _ _ Hp)) as H.
      rewrite Qcmult_0_l in H. by apply (Qclt_not_le _ _ Hlt2). }
  rewrite Hiff. destruct (Qc_ltb x (Z2Qc 0)); [ring|done].
Qed.

(** The scaled value that is rounded to an integer is below [2 ** 53]
    in magnitude, so the significand has at most 53 bits, or is
    [2 ** 53] itself. *)
Lemma f64_scaled_bound (x : Qc) :
  x <> 0%Qc -> (Qc_abs (x / pow2 (f64_exp x)) < Z2Qc (2 ^ 53))%Qc.
Proof.
  intros Hx. destruct (mag_spec x Hx) as [_ Hhigh].
  pose proof (pow2_pos (f64_exp x)) as Hp.
  unfold Qcdiv. rewrite Qc_abs_mul_pos by (by apply Qcinv_pos).
  rewrite <- pow2_opp.
  eapply Qclt_le_trans.
  { apply Qcmult_lt_compat_r; [apply pow2_pos | exact Hhigh]. }
  rewrite <- pow2_add, <- pow2_nonneg by lia. apply pow2_le.
  unfold f64_exp. lia.
Qed.

Lemma f64_significand_bound (x : Qc) :
  Z.abs (round_half_even (x / pow2 (f64_exp x))) <= 2 ^ 53.
Proof.
  destruct (Qc_eq_dec x 0%Qc) as [->|Hx].
  { unfold Qcdiv. rewrite Qcmult_0_l. change 0%Qc with (Z2Qc 0).
    rewrite round_half_even_int. simpl. lia. }
  pose proof (f64_scaled_bound x Hx) as Hb. apply Qclt_le_weak in Hb.
  destruct (Qc_abs_bounds (x / pow2 (f64_exp x))) as [Hl Hu].
  assert (Hle : (x / pow2 (f64_exp x) <= Z2Qc (2 ^ 53))%Qc) by (by eapply Qcle_trans).
  assert (Hge : (Z2Qc (- 2 ^ 53) <= x / pow2 (f64_exp x))%Qc).
  { eapply Qcle_trans; [|exact Hl]. rewrite Z2Qc_opp. by apply Qcopp_le_compat. }
  apply round_half_even_le in Hle. apply round_half_even_ge in Hge. lia.
Qed.

(** Rounding yields a binary64 number. *)
Lemma f64_round_f64 (x : Qc) : is_f64 (f64_round x).
Proof.
  unfold f64_round. set (c := f64_exp x).
  set (n := round_half_even (x / pow2 c)).
  pose proof (f64_significand_bound x) as Hn. fold c n in Hn.
  pose proof (pow2_pos c) as Hp.
  destruct (Z.eq_dec n 0) as [->|Hn0].
  { exists 0. unfold Qcdiv. change (Z2Qc 0) with 0%Qc. ring. }
  set (y := (Z2Qc n * pow2 c)%Qc).
  assert (Hy : y <> 0%Qc).
  { intros Heq. apply Qcmult_integral in Heq as [Heq|Heq].
    - by apply (Z2Qc_inj n 0) in Heq.
    - by apply pow2_neq in Heq. }
  assert (Habs : Qc_abs y = (Z2Qc (Z.abs n) * pow2 c)%Qc).
  { unfold y. by rewrite Qc_abs_mul_pos, Qc_abs_Z. }
  assert (Hc : -1074 <= c) by (unfold c, f64_exp; lia).
  destruct (Z.eq_dec (Z.abs n) (2 ^ 53)) as [Hmax|Hlt].
  - (* the significand is [2 ** 53]: the exponent moves up by one *)
    assert (Hmag : mag y = c + 54).
    { apply mag_unique; rewrite Habs, Hmax, <- pow2_nonneg, <- pow2_add by lia.
      - apply pow2_le. lia.
      - apply pow2_lt. lia. }
    exists (n / 2). unfold f64_exp. rewrite Hmag.
    replace (Z.max (c + 54 - 53) (-1074)) with (c + 1) by lia.
    rewrite pow2_add. unfold y.
    assert (Hn2 : n = (n / 2) * 2).
    { change (2 ^ 53) with (2 ^ 52 * 2) in Hmax.
      destruct (Z.abs_spec n) as [[_ Hk']|[_ Hk']].
      - rewrite Hk' in Hmax. rewrite Hmax. by rewrite Z.div_mul.
      - assert (n = (- 2 ^ 52) * 2) as -> by lia. by rewrite Z.div_mul. }
    rewrite Hn2 at 1. rewrite Z2Qc_mul, (pow2_nonneg 1) by lia.
    change (2 ^ 1) with 2.
    pose proof (pow2_neq c). pose proof (Z2Qc_pos_neq 2 ltac:(lia)).
    field. split; done.
  - assert (Hmag : mag y <= c + 53).
    { apply mag_le; [done|]. rewrite Habs, pow2_add.
      rewrite (Qcmult_comm (pow2 c)).
      apply Qcmult_lt_compat_r; [done|]. rewrite pow2_nonneg by lia.
      apply Z2Qc_lt. lia. }
    assert (Hc' : f64_exp y <= c) by (unfold f64_exp; lia).
    set (c' := f64_exp y) in *. exists (n * 2 ^ (c - c')). fold c'. unfold y.
    rewrite Z2Qc_mul, <- pow2_nonneg by lia.
    replace (c - c') with (c + - c') by lia.
    rewrite pow2_add, pow2_opp. unfold Qcdiv. ring.
Qed.

Lemma f64_round_idem (x : Qc) : f64_round (f64_round x) = f64_round x.
Proof. apply f64_round_is_f64, f64_round_f64. Qed.

(** *** An [int] and the number of the same value

    As long as every intermediate result is an integer up to [2 ** 53],
    the arithmetic on [int] and [float] mixed computes the same numbers
    as the arithmetic on [int]. *)

Lemma to_float_same (x : PyNum) (z : Z) :
  same_num x z -> Z.abs z <= 2 ^ 53 -> to_float x = Z2Qc z.
Proof.
  unfold same_num. destruct x as [a|q]; cbn [num_val to_float]; intros Hx Hz; [|done].
  apply Z2Qc_inj in Hx as ->. by apply f64_round_int.
Qed.

Lemma f64_add_int (a b : Z) :
  Z.abs (a + b) <= 2 ^ 53 -> f64_add (Z2Qc a) (Z2Qc b) = Z2Qc (a + b).
Proof. intros H. unfold f64_add. rewrite <- Z2Qc_add. by apply f64_round_int. Qed.

Lemma f64_mul_int (a b : Z) :
  Z.abs (a * b) <= 2 ^ 53 -> f64_mul (Z2Qc a) (Z2Qc b) = Z2Qc (a * b).
Proof. intros H. unfold f64_mul. rewrite <- Z2Qc_mul. by apply f64_round_int. Qed.

Lemma py_arith_same (fi : Z -> Z -> Z) (ff : Qc -> Qc -> Qc) (x y : PyNum) (a b : Z) :
  (forall u v, Z.abs (fi u v) <= 2 ^ 53 -> ff (Z2Qc u) (Z2Qc v) = Z2Qc (fi u v)) ->
  same_num x a -> same_num y b ->
  Z.abs a <= 2 ^ 53 -> Z.abs b <= 2 ^ 53 -> Z.abs (fi a b) <= 2 ^ 53 ->
  same_num (py_arith fi ff x y) (fi a b).
Proof.
  intros Hf Hx Hy Ha Hb Hab.
  pose proof (to_float_same x a Hx Ha) as Hfx.
  pose proof (to_float_same y b Hy Hb) as Hfy.
  unfold same_num in *.
  destruct x as [u|p], y as [v|q]; cbn [py_arith num_val] in *.
  - apply Z2Qc_inj in Hx as ->. by apply Z2Qc_inj in Hy as ->.
  - rewrite Hfx, Hfy. by apply Hf.
  - rewrite Hfx, Hfy. by apply Hf.
  - rewrite Hfx, Hfy. by apply Hf.
Qed.

Lemma num_add_same (x y : PyNum) (a b : Z) :
  same_num x a -> same_num y b ->
  Z.abs a <= 2 ^ 53 -> Z.abs b <= 2 ^ 53 -> Z.abs (a + b) <= 2 ^ 53 ->
  same_num (num_add x y) (a + b).
Proof. apply py_arith_same. apply f64_add_int. Qed.

Lemma num_mul_same (x y : PyNum) (a b : Z) :
  same_num x a -> same_num y b ->
  Z.abs a <= 2 ^ 53 -> Z.abs b <= 2 ^ 53 -> Z.abs (a * b) <= 2 ^ 53 ->
  same_num (num_mul x y) (a * b).
Proof. apply py_arith_same. apply f64_mul_int. Qed.

Lemma num_ltb_same (x y : PyNum) (a b : Z) :
  same_num x a -> same_num y b -> num_ltb x y = (a <? b).
Proof.
  unfold same_num. intros Hx Hy. cbn [num_ltb PyMixed]. by rewrite Hx, Hy, Z2Qc_ltb.
Qed.

Lemma num_truediv_same (t m : PyNum) (a b : Z) :
  same_num t a -> same_num m b ->
  Z.abs a <= 2 ^ 53 -> Z.abs b <= 2 ^ 53 ->
  num_truediv t m = int_truediv a b.
Proof.
  intros Ht Hm Ha Hb.
  pose proof (to_float_same t a Ht Ha) as Hft.
  pose proof (to_float_same m b Hm Hb) as Hfm.
  unfold same_num in *. cbn [num_truediv PyMixed].
  destruct t as [u|p], m as [v|q]; cbn [py_truediv num_val] in *.
  - apply Z2Qc_inj in Ht as ->. by apply Z2Qc_inj in Hm as ->.
  - by rewrite Hft, Hfm.
  - by rewrite Hft, Hfm.
  - by rewrite Hft, Hfm.
Qed.

Lemma normalize_same (t m : PyNum) (a b : Z) :
  same_num t a -> same_num m b ->
  Z.abs a <= 2 ^ 53 -> Z.abs b <= 2 ^ 53 ->
  normalize t m = normalize a b.
Proof.
  intros Ht Hm Ha Hb. unfold normalize.
  rewrite (num_ltb_same (num_of_int 0) m 0 b) by done.
  by rewrite (num_truediv_same t m a b).
Qed.

(** *** The analysis over weights of the same values *)

Lemma weights_map_same_fold (cs1 : list (Criterion PyNum)) (cs0 : list (Criterion Z))
      (m1 : gmap string PyNum) (m0 : gmap string Z) :
  Forall2 same_criterion cs1 cs0 ->
  num_val <$> m1 = Z2Qc <$> m0 ->
  num_val <$> foldl (fun m c => <[c_id c := c_weight c]> m) m1 cs1
  = Z2Qc <$> foldl (fun m c => <[c_id c := c_weight c]> m) m0 cs0.
Proof.
  intros Hcs. revert m1 m0.
  induction Hcs as [|c1 c0 cs1 cs0 [Hid Hw] _ IH]; intros m1 m0 Hm; simpl; [done|].
  apply IH. rewrite !fmap_insert, Hid, Hm. by rewrite Hw.
Qed.

Lemma weights_map_same (cs1 : list (Criterion PyNum)) (cs0 : list (Criterion Z)) :
  Forall2 same_criterion cs1 cs0 ->
  num_val <$> weights_map cs1 = Z2Qc <$> weights_map cs0.
Proof.
  intros Hcs. apply weights_map_same_fold; [done|]. by rewrite !fmap_empty.
Qed.

Lemma weights_lookup_same (w1 : gmap string PyNum) (w0 : gmap string Z) (k : string) :
  num_val <$> w1 = Z2Qc <$> w0 ->
  same_num (default (num_of_int 0) (w1 !! k)) (default 0 (w0 !! k)).
Proof.
  intros Hw. apply (f_equal (fun m => m !! k)) in Hw. rewrite !lookup_fmap in Hw.
  unfold same_num.
  destruct (w1 !! k) as [x|], (w0 !! k) as [z|]; simpl in *; try done.
  by injection Hw.
Qed.

Lemma weights_map_nonneg (cs : list (Criterion Z)) (k : string) :
  Forall valid_criterion cs -> 0 <= default 0 (weights_map cs !! k).
Proof.
  intros Hc. destruct (weights_map cs !! k) as [v|] eqn:Hk; simpl; [|done].
  apply weights_map_values in Hk as [Hk|(c & Hin & <-)].
  - by rewrite lookup_empty in Hk.
  - rewrite Forall_forall in Hc. by apply Hc.
Qed.

(** The running total only grows. *)
Lemma option_total_fold_ge (w : gmap string Z) (sc : list Score) (oid : string)
      (acc : Z) :
  (forall k, 0 <= default 0 (w !! k)) -> Forall valid_score sc ->
  acc <= foldl (fun acc s =>
                  if decide (optionId s = oid)
                  then num_add acc (num_mul (num_of_int (raw s))
                         (default (num_of_int 0) (w !! criterionId s)))
                  else acc) acc sc.
Proof.
  intros Hw Hsc. revert acc.
  induction Hsc as [|x sc Hx _ IH]; intros acc; simpl; [done|].
  destruct (decide (optionId x = oid)); [|apply IH].
  etransitivity; [|apply IH].
  pose proof (Hw (criterionId x)). unfold valid_score in Hx. nia.
Qed.

Lemma option_total_same_fold (w1 : gmap string PyNum) (w0 : gmap string Z)
      (sc : list Score) (oid : string) :
  num_val <$> w1 = Z2Qc <$> w0 ->
  (forall k, 0 <= default 0 (w0 !! k)) -> Forall valid_score sc ->
  forall (acc1 : PyNum) (acc0 : Z),
    same_num acc1 acc0 -> 0 <= acc0 ->
    foldl (fun acc s =>
             if decide (optionId s = oid)
             then num_add acc (num_mul (num_of_int (raw s))
                    (default (num_of_int 0) (w0 !! criterionId s)))
             else acc) acc0 sc <= 2 ^ 53 ->
    same_num
      (foldl (fun acc s =>
                if decide (optionId s = oid)
                then num_add acc (num_mul (num_of_int (raw s))
                       (default (num_of_int 0) (w1 !! criterionId s)))
                else acc) acc1 sc)
      (foldl (fun acc s =>
                if decide (optionId s = oid)
                then num_add acc (num_mul (num_of_int (raw s))
                       (default (num_of_int 0) (w0 !! criterionId s)))
                else acc) acc0 sc).
Proof.
  intros Hw Hnn Hsc.
  induction Hsc as [|x sc Hx Hsc IH]; intros acc1 acc0 Hacc H0 Hb;
    cbn [foldl] in *; [done|].
  destruct (decide (optionId x = oid)); [|by apply IH].
  pose proof (Hnn (criterionId x)) as Hwx.
  set (wx := default 0 (w0 !! criterionId x)) in *.
  pose proof (option_total_fold_ge w0 sc oid (acc0 + raw x * wx) Hnn Hsc) as Hge.
  cbn [num_add num_mul num_of_int PyInt] in Hge, Hb |- *.
  fold wx in Hge, Hb |- *.
  unfold valid_score in Hx.
  assert (Hterm : 0 <= raw x * wx) by nia.
  assert (Hwb : wx <= raw x * wx) by nia.
  apply IH; [|lia|done].
  apply num_add_same; [done| |lia|lia|lia].
  apply num_mul_same; [done|by apply weights_lookup_same|lia|lia|lia].
Qed.

Lemma max_possible_fold_ge (cs : list (Criterion Z)) (acc : Z) :
  Forall valid_criterion cs ->
  acc <= foldl (fun acc c => num_add acc (num_mul (c_weight c) (num_of_int 5))) acc cs.
Proof.
  intros Hc. rewrite max_possible_fold.
  assert (0 <= Zsum (map (fun c => c_weight c * 5) cs)); [|lia].
  apply Zsum_nonneg. apply Forall_forall. intros z Hz.
  apply list_elem_of_fmap in Hz as (c & -> & Hin).
  rewrite Forall_forall in Hc. specialize (Hc c Hin). unfold valid_criterion in Hc. lia.
Qed.

Lemma max_possible_same_fold (cs1 : list (Criterion PyNum)) (cs0 : list (Criterion Z)) :
  Forall2 same_criterion cs1 cs0 -> Forall valid_criterion cs0 ->
  forall (acc1 : PyNum) (acc0 : Z),
    same_num acc1 acc0 -> 0 <= acc0 ->
    foldl (fun acc c => num_add acc (num_mul (c_weight c) (num_of_int 5))) acc0 cs0
      <= 2 ^ 53 ->
    same_num
      (foldl (fun acc c => num_add acc (num_mul (c_weight c) (num_of_int 5))) acc1 cs1)
      (foldl (fun acc c => num_add acc (num_mul (c_weight c) (num_of_int 5))) acc0 cs0).
Proof.
  intros Hcs. induction Hcs as [|c1 c0 cs1 cs0 [Hid Hw] _ IH];
    intros Hc acc1 acc0 Hacc H0 Hb; simpl in *; [done|].
  inversion Hc as [|? ? Hc0 Hc']; subst.
  pose proof (max_possible_fold_ge cs0 (acc0 + c_weight c0 * 5) Hc') as Hge.
  cbn [num_add num_mul num_of_int PyInt] in Hge.
  unfold valid_criterion in Hc0.
  apply IH; [done| |lia|done].
  apply (num_add_same acc1 _ acc0 (c_weight c0 * 5)); [done| |lia|lia|lia].
  apply (num_mul_same (c_weight c1) (PInt 5) (c_weight c0) 5);
    [done|reflexivity|lia|lia|lia].
Qed.

Section SameLeaderboard.
Variable s1 : Scenario PyNum.
Variable s0 : Scenario Z.
Hypothesis same_options : options s1 = options s0.
Hypothesis same_scores : scores s1 = scores s0.
Hypothesis same_criteria : Forall2 same_criterion (criteria s1) (criteria s0).
Hypothesis valid_criteria : Forall valid_criterion (criteria s0).
Hypothesis valid_scores : Forall valid_score (scores s0).
Hypothesis exact : float_exact s0.

Lemma totals_get_same (k : string) :
  same_num (total (totals_get (_calculate_totals s1) k))
           (total (totals_get (_calculate_totals s0) k)) /\
  normalized (totals_get (_calculate_totals s1) k)
  = normalized (totals_get (_calculate_totals s0) k).
Proof.
  destruct exact as [Hmp Htot].
  unfold totals_get, _calculate_totals. rewrite !totals_from_lookup.
  rewrite same_options, same_scores.
  destruct (decide (k ∈ map o_id (options s0))) as [Hk|]; cbn [default total normalized].
  2:{ split; [reflexivity|done]. }
  apply list_elem_of_fmap in Hk as (o & -> & Ho). specialize (Htot o Ho).
  pose proof (weights_map_same _ _ same_criteria) as Hw.
  assert (Hnn : forall k, 0 <= default 0 (weights_map (criteria s0) !! k)).
  { intros k'. by apply weights_map_nonneg. }
  assert (Ht : same_num (option_total (weights_map (criteria s1)) (scores s0) (o_id o))
                        (option_total (weights_map (criteria s0)) (scores s0) (o_id o))).
  { apply option_total_same_fold; [done|done|done|reflexivity|done|exact Htot]. }
  assert (Hm : same_num (max_possible (criteria s1)) (max_possible (criteria s0))).
  { apply max_possible_same_fold; [done|done|reflexivity|done|exact Hmp]. }
  split; [exact Ht|].
  pose proof (option_total_nonneg (criteria s0) (scores s0) (o_id o)
                valid_criteria valid_scores).
  pose proof (max_possible_fold_ge (criteria s0) 0 valid_criteria) as Hmp0.
  change (0 <= max_possible (criteria s0)) in Hmp0.
  apply normalize_same; [done|done|lia|lia].
Qed.

Lemma build_rows_same :
  Forall2 same_row (build_rows (_calculate_totals s1) (options s1))
                   (build_rows (_calculate_totals s0) (options s0)).
Proof.
  rewrite same_options.
  assert (Hall : forall os,
            Forall2 same_row (build_rows (_calculate_totals s1) os)
                             (build_rows (_calculate_totals s0) os));
    [|apply Hall].
  unfold build_rows.
  induction os as [|o os IH]; simpl; constructor; [|exact IH].
  destruct (totals_get_same (o_id o)) as [Ht Hn]. by repeat split.
Qed.
End SameLeaderboard.

Lemma insert_desc_same (x1 : Row PyNum) (x0 : Row Z) (l1 : list (Row PyNum))
      (l0 : list (Row Z)) :
  same_row x1 x0 -> Forall2 same_row l1 l0 ->
  Forall2 same_row (insert_desc x1 l1) (insert_desc x0 l0).
Proof.
  intros Hx Hl. induction Hl as [|y1 y0 l1 l0 Hy Hl IH]; cbn [insert_desc].
  - constructor; [done|constructor].
  - rewrite (num_ltb_same (r_total x1) (r_total y1) (r_total x0) (r_total y0))
      by (apply Hx || apply Hy).
    cbn [num_ltb PyInt]. destruct (r_total x0 <? r_total y0).
    + by constructor.
    + constructor; [done|]. by constructor.
Qed.

Lemma sort_desc_same (l1 : list (Row PyNum)) (l0 : list (Row Z)) :
  Forall2 same_row l1 l0 -> Forall2 same_row (sort_desc l1) (sort_desc l0).
Proof.
  unfold sort_desc. induction 1; cbn [foldr]; [constructor|]. by apply insert_desc_same.
Qed.

Lemma assign_ranks_same (l1 : list (Row PyNum)) (l0 : list (Row Z)) :
  Forall2 same_row l1 l0 ->
  forall (prev1 : option PyNum) (prev0 : option Z) (i cr : nat),
    option_Forall2 same_num prev1 prev0 ->
    Forall2 same_entry (assign_ranks prev1 i cr l1) (assign_ranks prev0 i cr l0).
Proof.
  induction 1 as [|r1 r0 l1 l0 Hr _ IH]; intros prev1 prev0 i cr Hprev;
    cbn [assign_ranks]; [constructor|].
  assert (Hrank :
            match prev1 with
            | Some p => if num_ltb (r_total r1) p then (i + 1)%nat else cr
            | None => cr
            end =
            match prev0 with
            | Some p => if num_ltb (r_total r0) p then (i + 1)%nat else cr
            | None => cr
            end).
  { destruct Hprev as [p1 p0 Hp|]; [|done].
    by rewrite (num_ltb_same (r_total r1) p1 (r_total r0) p0) by (apply Hr || done). }
  rewrite Hrank. constructor.
  - by split.
  - apply IH. constructor. apply Hr.
Qed.

(** The leaderboard does not depend on whether a weight is stored as an
    [int] or as the [float] of the same value, as long as the totals and
    the greatest possible score are integers binary64 holds exactly. *)
Lemma leaderboard_same (s1 : Scenario PyNum) (s0 : Scenario Z) :
  options s1 = options s0 -> scores s1 = scores s0 ->
  Forall2 same_criterion (criteria s1) (criteria s0) ->
  Forall valid_criterion (criteria s0) -> Forall valid_score (scores s0) ->
  float_exact s0 ->
  Forall2 same_entry (leaderboard s1) (leaderboard s0).
Proof.
  intros Ho Hs Hc Hvc Hvs Hex. unfold leaderboard.
  apply assign_ranks_same; [|constructor].
  apply sort_desc_same. by apply build_rows_same.
Qed.

Lemma NoDup_map_inj {A B} (f : A -> B) (l : list A) (x y : A) :
  NoDup (map f l) -> x ∈ l -> y ∈ l -> f x = f y -> x = y.
Proof.
  induction l as [|a l IH]; simpl; intros Hnd Hx Hy Heq.
  - by apply elem_of_nil in Hx.
  - inversion Hnd as [|? ? Hnotin Hnd']; subst.
    apply elem_of_cons in Hx as [->|Hx]; apply elem_of_cons in Hy as [->|Hy].
    + done.
    + exfalso. apply Hnotin. rewrite Heq. by apply (list_elem_of_fmap_2 f).
    + exfalso. apply Hnotin. rewrite <- Heq. by apply (list_elem_of_fmap_2 f).
    + by apply IH.
Qed.

Lemma find_criterion_unique (cs : list (Criterion Z)) (c : Criterion Z) :
  NoDup (map c_id cs) -> c ∈ cs -> find_criterion cs (c_id c) = Some c.
Proof.
  intros Hnd Hin.
  destruct (find_criterion_some cs (c_id c)) as [c' Hc']; [by exists c|].
  rewrite Hc'. unfold find_criterion in Hc'.
  apply List.find_some in Hc' as [Hin' Hid]. apply bool_decide_eq_true in Hid.
  apply list_elem_of_In in Hin'. f_equal. by apply (NoDup_map_inj c_id cs).
Qed.

(** *** The adjusted weight *)

Lemma adjusted_weight_spec (w : Z) (pct : PyNum) :
  adjusted_weight w pct = spec_adjusted_weight w pct.
Proof. unfold adjusted_weight, spec_adjusted_weight, py_max. by destruct pct. Qed.

(** With [pct = -100] every step is exact: [-100 / 100.0] is [-1.0], the
    product is the negated weight and the sum is 0. *)
Lemma adjusted_weight_minus_100 (w : Z) (pct : PyNum) :
  same_num pct (-100) -> adjusted_weight w pct = PInt 0.
Proof.
  intros Hp. rewrite adjusted_weight_spec. unfold spec_adjusted_weight.
  rewrite (to_float_same pct (-100) Hp) by (simpl; lia).
  assert (Hq : f64_div (Z2Qc (-100)) (Z2Qc 100) = Z2Qc (-1)).
  { unfold f64_div.
    replace (Z2Qc (-100) / Z2Qc 100)%Qc with (Z2Qc (-1))
      by (apply Qc_is_canon; reflexivity).
    apply f64_round_int. simpl. lia. }
  rewrite Hq.
  assert (Hm : f64_mul (f64_of_int w) (Z2Qc (-1)) = (- f64_of_int w)%Qc).
  { unfold f64_mul.
    replace (f64_of_int w * Z2Qc (-1))%Qc with (- f64_of_int w)%Qc.
    - apply f64_round_is_f64, is_f64_opp, f64_round_f64.
    - replace (Z2Qc (-1)) with (- (1))%Qc by (apply Qc_is_canon; reflexivity). ring. }
  rewrite Hm. unfold f64_add. rewrite Qcplus_opp_r, f64_round_0. reflexivity.
Qed.

(** With [pct = 0] the adjusted weight is the [float] of the weight,
    which is the weight itself as long as binary64 holds it. *)
Lemma adjusted_weight_zero (w : Z) (pct : PyNum) :
  same_num pct 0 -> 0 <= w <= 2 ^ 53 -> same_num (adjusted_weight w pct) w.
Proof.
  intros Hp Hw. rewrite adjusted_weight_spec. unfold spec_adjusted_weight.
  rewrite (to_float_same pct 0 Hp) by (simpl; lia).
  assert (Hq : f64_div (Z2Qc 0) (Z2Qc 100) = Z2Qc 0).
  { unfold f64_div.
    replace (Z2Qc 0 / Z2Qc 100)%Qc with (Z2Qc 0) by (apply Qc_is_canon; reflexivity).
    apply f64_round_int. simpl. lia. }
  rewrite Hq. unfold f64_of_int. rewrite (f64_round_int w) by lia.
  rewrite (f64_mul_int w 0) by (rewrite Z.mul_0_r; simpl; lia).
  rewrite Z.mul_0_r, (f64_add_int w 0) by (rewrite Z.add_0_r; lia).
  rewrite Z.add_0_r, Z2Qc_ltb. unfold same_num.
  destruct (Z.ltb_spec 0 w); cbn [num_val]; [done|].
  f_equal. lia.
Qed.

Lemma adjusted_scenario_derived (s : Scenario Z) (cid : string) (aw : PyNum) :
  Forall2 (derived_from cid aw) (criteria s) (criteria (adjusted_scenario s cid aw)).
Proof.
  unfold adjusted_scenario. simpl.
  induction (criteria s) as [|c cs IH]; simpl; constructor; [|exact IH].
  unfold derived_from. by destruct (decide (c_id c = cid)).
Qed.

Lemma NoDup_map_lookup_inj {A B} (f : A -> B) (l : list A) (i j : nat) (x y : A) :
  NoDup (map f l) -> l !! i = Some x -> l !! j = Some y -> f x = f y -> i = j.
Proof.
  intros Hnd Hi Hj Hf.
  apply (NoDup_lookup (map f l) i j (f x)); [done| |].
  - change (map f l) with (f <$> l). by rewrite list_lookup_fmap, Hi.
  - change (map f l) with (f <$> l). by rewrite list_lookup_fmap, Hj, Hf.
Qed.

(** The criteria of the derived copy against the criteria after the
    weight [w] has been written into the criterion at index [i]. *)
Lemma adjusted_criteria_same (s : Scenario Z) (i : nat) (c : Criterion Z)
      (aw : PyNum) (w : Z) :
  NoDup (map c_id (criteria s)) -> criteria s !! i = Some c ->
  same_num aw w ->
  Forall2 same_criterion
          (criteria (adjusted_scenario s (c_id c) aw))
          (<[i := with_weight c w]> (criteria s)).
Proof.
  intros Hnd Hi Haw. unfold adjusted_scenario. cbn [criteria with_criteria].
  apply Forall2_same_length_lookup_2.
  { by rewrite length_map, length_insert. }
  intros j x y Hx Hy.
  change (map ?g ?l) with (g <$> l) in Hx. rewrite list_lookup_fmap in Hx.
  destruct (criteria s !! j) as [c'|] eqn:Hj; [|done].
  injection Hx as <-.
  destruct (decide (j = i)) as [->|Hne].
  - rewrite list_lookup_insert_eq in Hy by (by eapply lookup_lt_Some).
    injection Hy as <-. rewrite Hi in Hj. injection Hj as <-.
    rewrite decide_True by done. by split.
  - rewrite list_lookup_insert_ne in Hy by done.
    rewrite Hj in Hy. injection Hy as <-.
    rewrite decide_False.
    + by split.
    + intros Heq. apply Hne.
      by apply (NoDup_map_lookup_inj c_id (criteria s) j i c' c).
Qed.

Lemma with_weight_same (c : Criterion Z) : with_weight c (c_weight c) = c.
Proof. by destruct c. Qed.


Lemma example_float_exact : float_exact example_scenario.
Proof.
  split; [vm_compute; discriminate|].
  intros o Ho. unfold example_scenario, mk_scenario in Ho. cbn [options] in Ho.
  repeat (apply elem_of_cons in Ho as [->|Ho]; [vm_compute; discriminate|]).
  by apply elem_of_nil in Ho.
Qed.

Lemma example_in_range (pct : Z) :
  Z.abs pct <= 100 -> sensitivity_in_range example_scenario (PFloat (Z2Qc pct)).
Proof.
  intros Hp. split; [|split].
  - repeat constructor; vm_compute; reflexivity.
  - repeat constructor; vm_compute; reflexivity.
  - cbn [num_val]. rewrite Qc_abs_Z, pow2_nonneg by lia. apply Z2Qc_lt.
    assert (100 < 2 ^ 200) by (vm_compute; reflexivity). lia.
Qed.


(** Where the claim of the specification fails.  With the weights
    [2 ** 53 + 1] and [2 ** 53] and [pct = 0], the original leaderboard
    ranks A first and B second, and the adjusted one ranks both first:
    the [float] of [2 ** 53 + 1] is [2 ** 53].  And with the weight 25
    and [pct = -58] the adjusted weight is not the number
    [max(0, 25 + 25 × (-58) / 100) = 10.5] but the binary64 number next
    above it. *)
Theorem sensitivity_not_exact :
  (exists r, sensitivity large_weights_scenario "c1" (PFloat (Z2Qc 0)) = Ok r /\
     map (fun e => (e_optionId e, rank e)) (sens_original r)
     = [("A", 1%nat); ("B", 2%nat)] /\
     map (fun e => (e_optionId e, rank e)) (sens_adjusted r)
     = [("A", 1%nat); ("B", 1%nat)]) /\
  exact_adjusted_weight 25 (Z2Qc (-58)) = (Z2Qc 21 / Z2Qc 2)%Qc /\
  num_val (adjusted_weight 25 (PFloat (Z2Qc (-58))))
  = (Z2Qc 21 / Z2Qc 2 + pow2 (-49))%Qc.
Proof.
  split.
  - eexists. split; [reflexivity|]. split; vm_compute; reflexivity.
  - split; apply Qc_is_canon; vm_compute; reflexivity.
Qed.

(** Halving the weight of c1 in the worked example: A keeps 100% and the
    first place. *)
Example sensitivity_example :
  exists r, sensitivity example_scenario "c1" (PFloat (Z2Qc (-50))) = Ok r /\
    map (fun e => (e_optionId e, rank e)) (sens_adjusted r)
    = [("A", 1%nat); ("B", 2%nat)] /\
    map (fun e => this (num_val (e_total e))) (sens_adjusted r)
    = [this (Z2Qc 50); this (Z2Qc 10)] /\
    map (fun e => this (e_normalized e)) (sens_adjusted r)
    = [this (Z2Qc 100); this (Z2Qc 20)].
Proof.
  eexists. split; [reflexivity|]. repeat split; vm_compute; reflexivity.
Qed.

(** The model of binary64 on the numbers where rounding shows:
    [7 / 50 * 100] is [14.000000000000002], [25 + 25 * (-58 / 100.0)]
    is [10.500000000000002], [90 + 90 * (-70 / 100.0)] is
    [27.000000000000007], the [float] of [2 ** 53 + 1] is [2 ** 53], and
    the least positive number is [2 ** -1074]. *)
Example f64_examples :
  f64_mul (int_truediv 7 50) (f64_of_int 100) = (Z2Qc 14 + pow2 (-49))%Qc /\
  f64_add (f64_of_int 25) (f64_mul (f64_of_int 25) (f64_div (Z2Qc (-58)) (Z2Qc 100)))
  = (Z2Qc 21 / Z2Qc 2 + pow2 (-49))%Qc /\
  f64_add (f64_of_int 90) (f64_mul (f64_of_int 90) (f64_div (Z2Qc (-70)) (Z2Qc 100)))
  = (Z2Qc 27 + pow2 (-47))%Qc /\
  f64_of_int (2 ^ 53 + 1) = Z2Qc (2 ^ 53) /\
  f64_of_int (2 ^ 53 + 3) = Z2Qc (2 ^ 53 + 4) /\
  int_truediv 1 (2 ^ 1074) = pow2 (-1074) /\
  int_truediv 1 (2 ^ 1075) = Z2Qc 0 /\
  int_truediv 3 (2 ^ 1075) = pow2 (-1073).
Proof. repeat split; apply Qc_is_canon; vm_compute; reflexivity. Qed.

(** * Further properties of the services *)

(** ** Weights service: the lock state machine *)

Lemma lock_weights_ok (now : datetime) (s : Scenario Z) (actor : string) :
  weightsLocked s = false ->
  lock_weights now s actor
  = Ok (with_audit (with_weightsLocked s true)
                   (audit s ++ [weights_locked_event now actor])).
Proof. intros Hl. unfold lock_weights, can_lock_weights. by rewrite Hl. Qed.

Lemma unlock_weights_ok (now : datetime) (s : Scenario Z) (actor reason : string) :
  weightsLocked s = true ->
  unlock_weights now s actor reason
  = Ok (with_audit (with_weightsLocked s false)
                   (audit s ++ [weights_unlocked_event now actor reason])).
Proof. intros Hl. unfold unlock_weights, can_unlock_weights. by rewrite Hl. Qed.

(** X1.  Unlocking a locked scenario and locking it again succeeds, and
    gives back the scenario it started from with two more audit events, in
    this order: [weights_unlocked] with the reason, then [weights_locked]
    with empty details. *)
Theorem unlock_lock_round_trip (t1 t2 : datetime) (s : Scenario Z)
        (actor1 reason actor2 : string) :
  weightsLocked s = true ->
  exists s1 s2,
    unlock_weights t1 s actor1 reason = Ok s1 /\
    lock_weights t2 s1 actor2 = Ok s2 /\
    weightsLocked s1 = false /\
    audit s2 = audit s ++ [weights_unlocked_event t1 actor1 reason;
                           weights_locked_event t2 actor2] /\
    with_audit s2 (audit s) = s.
Proof.
  intros Hl. eexists _, _. split; [by apply unlock_weights_ok|].
  split; [by apply lock_weights_ok|]. split; [done|]. split.
  - simpl. by rewrite <- app_assoc.
  - destruct s; simpl in *. by subst.
Qed.

Lemma unlock_lock_round_trip_witness :
  exists s1 s2,
    unlock_weights 1 locked_example "ann" "typo" = Ok s1 /\
    lock_weights 2 s1 "bob" = Ok s2 /\
    with_audit s2 (audit locked_example) = locked_example.
Proof.
  destruct (unlock_lock_round_trip 1 2 locked_example "ann" "typo" "bob")
    as (s1 & s2 & H1 & H2 & _ & _ & H3); [reflexivity|].
  exists s1, s2. split; [exact H1|]. split; [exact H2 | exact H3].
Defined.

(** X2.  The lock is a two-state machine.  Whatever succeeds, [lock_weights]
    leaves the scenario locked and [unlock_weights] unlocked; on a locked
    scenario a further [lock_weights] raises [StateError] and every
    [set_weight] raises [LockedError]; on an unlocked one [unlock_weights]
    raises [StateError].  So after a successful lock the only transition
    left is unlock, and the other way round. *)
Theorem lock_state_machine (now : datetime) (s s' : Scenario Z) (actor : string) :
  (lock_weights now s actor = Ok s' ->
   weightsLocked s = false /\ weightsLocked s' = true /\
   (forall t a, lock_weights t s' a = Raise (StateError "Weights are already locked")) /\
   (forall t c w a r, set_weight t s' c w a r
                      = Raise (LockedError "Cannot change weights: weights are locked")) /\
   (forall t a r, exists s'', unlock_weights t s' a r = Ok s'')) /\
  (forall reason, unlock_weights now s actor reason = Ok s' ->
   weightsLocked s = true /\ weightsLocked s' = false /\
   (forall t a r, unlock_weights t s' a r
                  = Raise (StateError "Weights are already unlocked")) /\
   (forall t a, exists s'', lock_weights t s' a = Ok s'')).
Proof.
  split.
  - unfold lock_weights at 1, can_lock_weights.
    destruct (weightsLocked s) eqn:Hl; simpl; [done|].
    intros Hs'. inversion Hs'; subst s'. clear Hs'. simpl.
    repeat split; try done.
    intros t a r. eexists. by apply unlock_weights_ok.
  - intros reason. unfold unlock_weights at 1, can_unlock_weights.
    destruct (weightsLocked s) eqn:Hl; simpl; [|done].
    intros Hs'. inversion Hs'; subst s'. clear Hs'. simpl.
    repeat split; try done.
    intros t a. eexists. by apply lock_weights_ok.
Qed.

Lemma lock_state_machine_witness :
  exists s', lock_weights 3 example_scenario "ann" = Ok s' /\
    set_weight 4 s' "c1" 7 "ann" "why"
    = Raise (LockedError "Cannot change weights: weights are locked").
Proof.
  eexists. split; [reflexivity|].
  eapply (lock_state_machine 3 example_scenario _ "ann"). reflexivity.
Defined.

(** ** Weights service: a successful [set_weight] *)

(** What a successful [set_weight] did. *)
Lemma set_weight_ok_inv (now : datetime) (s s' : Scenario Z) (criterion_id : string)
      (weight : Z) (actor reason : string) :
  set_weight now s criterion_id weight actor reason = Ok s' ->
  weightsLocked s = false /\ 0 <= weight /\
  exists i c,
    criteria s !! i = Some c /\ c_id c = criterion_id /\
    (forall j x, (j < i)%nat -> criteria s !! j = Some x -> c_id x <> criterion_id) /\
    s' = with_audit (with_criteria s (<[i := with_weight c weight]> (criteria s)))
                    (audit s ++ [weight_changed_event now actor criterion_id
                                                      (c_weight c) weight reason]).
Proof.
  unfold set_weight. destruct (weightsLocked s); [done|].
  destruct (Z.ltb_spec weight 0); [done|].
  destruct (list_find _ (criteria s)) as [[i c]|] eqn:Hf; [|done].
  intros Hs'. inversion Hs'; subst s'. clear Hs'.
  apply list_find_Some in Hf as (Hi & Hid & Hfirst).
  split; [done|]. split; [done|]. exists i, c.
  split; [done|]. split; [done|]. split; [|done].
  intros j x Hj Hx. by apply (Hfirst j x).
Qed.

Lemma set_weight_ok (now : datetime) (s : Scenario Z) (i : nat) (c : Criterion Z)
      (weight : Z) (actor reason : string) :
  weightsLocked s = false -> 0 <= weight ->
  criteria s !! i = Some c ->
  (forall j x, (j < i)%nat -> criteria s !! j = Some x -> c_id x <> c_id c) ->
  set_weight now s (c_id c) weight actor reason
  = Ok (with_audit (with_criteria s (<[i := with_weight c weight]> (criteria s)))
                   (audit s ++ [weight_changed_event now actor (c_id c)
                                                     (c_weight c) weight reason])).
Proof.
  intros Hl Hw Hi Hfirst. unfold set_weight. rewrite Hl.
  destruct (Z.ltb_spec weight 0); [lia|].
  assert (Hf : list_find (fun x => c_id x = c_id c) (criteria s) = Some (i, c)).
  { apply list_find_Some. split; [done|]. split; [done|].
    intros j x Hx Hj. by apply (Hfirst j x). }
  by rewrite Hf.
Qed.

Lemma Zsum_map_insert {A} (f : A -> Z) (l : list A) (i : nat) (x y : A) :
  l !! i = Some x ->
  Zsum (map f (<[i := y]> l)) = Zsum (map f l) - f x + f y.
Proof.
  revert i. induction l as [|a l IH]; intros [|i] Hi; simpl in *; try done.
  - inversion Hi; subst. lia.
  - rewrite (IH i Hi). lia.
Qed.

Lemma get_total_weight_sum (s : Scenario Z) :
  get_total_weight s = Zsum (map c_weight (criteria s)).
Proof.
  unfold get_total_weight.
  assert (forall acc l, foldl (fun acc c => acc + c_weight c) acc l
                        = acc + Zsum (map c_weight l)) as ->.
  { intros acc l. revert acc. induction l as [|a l IH]; intros acc; simpl; [lia|].
    rewrite IH. lia. }
  lia.
Qed.

(** X3.  On an unlocked scenario, with a weight that is not negative and
    the id of a criterion of the scenario, [set_weight] succeeds: the first
    criterion with that id gets the weight and keeps its other fields and
    its place, every other criterion is untouched (so the list of ids is
    the same), one [weight_changed] event with the old weight, the new
    weight and the reason is appended, and no other field changes. *)
Theorem set_weight_success (now : datetime) (s : Scenario Z) (i : nat)
        (c : Criterion Z) (weight : Z) (actor reason : string) :
  weightsLocked s = false -> 0 <= weight ->
  criteria s !! i = Some c ->
  (forall j x, (j < i)%nat -> criteria s !! j = Some x -> c_id x <> c_id c) ->
  exists s',
    set_weight now s (c_id c) weight actor reason = Ok s' /\
    criteria s' !! i = Some (with_weight c weight) /\
    (forall j, j <> i -> criteria s' !! j = criteria s !! j) /\
    map c_id (criteria s') = map c_id (criteria s) /\
    audit s' = audit s ++ [weight_changed_event now actor (c_id c)
                                                (c_weight c) weight reason] /\
    with_audit (with_criteria s' (criteria s)) (audit s) = s.
Proof.
  intros Hl Hw Hi Hfirst. eexists. split; [by apply set_weight_ok|]. simpl.
  split.
  { by rewrite list_lookup_insert_eq by (by eapply lookup_lt_Some). }
  split.
  { intros j Hj. by rewrite list_lookup_insert_ne. }
  split.
  { change (map c_id ?l) with (c_id <$> l). rewrite list_fmap_insert. simpl.
    apply list_insert_id. by rewrite list_lookup_fmap, Hi. }
  split; [done|]. by destruct s.
Qed.

Lemma set_weight_success_witness :
  exists s', set_weight 5 example_scenario "c2" 8 "ann" "more" = Ok s' /\
             map c_weight (criteria s') = [10; 8].
Proof.
  destruct (set_weight_success 5 example_scenario 1 (mk_criterion "c2" 5) 8 "ann" "more")
    as (s' & Hok & Hi & Hothers & _).
  - reflexivity.
  - lia.
  - reflexivity.
  - intros [|j] x Hj Hx; [|lia]. inversion Hx; subst. discriminate.
  - exists s'. split; [exact Hok|].
    pose proof (Hothers 0%nat ltac:(lia)) as H0. simpl in *.
    inversion Hok; subst s'. reflexivity.
Defined.

(** X4.  A successful [set_weight] moves the total weight by the change of
    the one weight: the new total is the old total minus the old weight of
    the criterion plus the new weight, and the greatest possible score
    moves by five times that change. *)
Theorem set_weight_total_weight (now : datetime) (s s' : Scenario Z)
        (criterion_id : string) (weight : Z) (actor reason : string) :
  set_weight now s criterion_id weight actor reason = Ok s' ->
  exists c, find_criterion (criteria s) criterion_id = Some c /\
    get_total_weight s' = get_total_weight s - c_weight c + weight /\
    spec_max_possible s' = spec_max_possible s + 5 * (weight - c_weight c).
Proof.
  intros Hok. apply set_weight_ok_inv in Hok as (_ & _ & i & c & Hi & Hid & Hfirst & ->).
  exists c. split.
  { unfold find_criterion.
    destruct (List.find _ (criteria s)) as [c'|] eqn:Hf.
    - apply list_elem_of_lookup_2 in Hi as Hin.
      assert (Hlf : list_find (fun x => c_id x = criterion_id) (criteria s) = Some (i, c))
        by (apply list_find_Some; split; [done|]; split; [done|];
            intros j x Hx Hj; by apply (Hfirst j x)).
      clear -Hf Hlf. revert i Hlf. induction (criteria s) as [|a l IH]; intros i Hlf; [done|].
      simpl in Hf. cbn in Hlf. destruct (decide (c_id a = criterion_id)) as [Ha|Ha].
      + rewrite bool_decide_eq_true_2 in Hf by done. congruence.
      + rewrite bool_decide_eq_false_2 in Hf by done.
        destruct (list_find _ l) as [[j x]|] eqn:Hl; simpl in Hlf; [|done].
        inversion Hlf; subst. by apply (IH Hf j).
    - exfalso. apply list_elem_of_lookup_2, list_elem_of_In in Hi.
      pose proof (List.find_none _ _ Hf c Hi) as Hb. simpl in Hb.
      by apply bool_decide_eq_false in Hb. }
  rewrite !get_total_weight_sum. unfold spec_max_possible. simpl.
  rewrite (Zsum_map_insert c_weight _ i c) by done.
  rewrite (Zsum_map_insert (fun c => c_weight c * 5) _ i c) by done.
  simpl. lia.
Qed.

Lemma set_weight_total_weight_witness :
  exists s', set_weight 5 example_scenario "c2" 8 "ann" "more" = Ok s' /\
             get_total_weight s' = 18.
Proof.
  eexists. split; [reflexivity|].
  destruct (set_weight_total_weight 5 example_scenario _ "c2" 8 "ann" "more" eq_refl)
    as (c & Hc & Ht & _).
  rewrite Ht. inversion Hc; subst c. reflexivity.
Defined.

(** ** Scoring service *)

(** What a successful [set_score] did. *)
Lemma set_score_ok_inv (now : datetime) (s s' : Scenario Z)
      (option_id criterion_id : string) (raw_ : Z) (actor : string)
      (rationale_ : option string) :
  set_score now s option_id criterion_id raw_ actor rationale_ = Ok s' ->
  1 <= raw_ <= 5 /\
  exists new old_value,
    optionId new = option_id /\ criterionId new = criterion_id /\ raw new = raw_ /\
    s' = with_audit (with_scores s
           match find_score (scores s) option_id criterion_id with
           | Some (i, _) => <[i := new]> (scores s)
           | None => scores s ++ [new]
           end)
           (audit s ++ [score_changed_event now actor option_id criterion_id
                                            old_value raw_]).
Proof.
  unfold set_score.
  destruct (Z.leb_spec 1 raw_); simpl; [|done].
  destruct (Z.leb_spec raw_ 5); simpl; [|done].
  destruct (existsb _ (options s)); simpl; [|done].
  destruct (find_criterion (criteria s) criterion_id); [|done].
  intros Hs'. inversion Hs'; subst s'. clear Hs'.
  split; [lia|].
  destruct (find_score (scores s) option_id criterion_id) as [[i old]|] eqn:Hf;
    eexists _, _; (split; [|split; [|split]]).
  4, 8: reflexivity.
  all: reflexivity.
Qed.

(** X5.  [set_score] checks its arguments in a fixed order and writes
    nothing when one is refused: a raw value outside [1, 5] raises
    [ValidationError] whatever the ids are; with an acceptable raw value, an
    option id that is not in the scenario raises [NotFoundError] naming the
    option; with both right, a criterion id that is not in the scenario
    raises [NotFoundError] naming the criterion. *)
Theorem set_score_errors (now : datetime) (s : Scenario Z)
        (option_id criterion_id : string) (raw_ : Z) (actor : string)
        (rationale_ : option string) :
  let r := set_score now s option_id criterion_id raw_ actor rationale_ in
  (~ 1 <= raw_ <= 5 -> r = Raise (ValidationError "Score must be between 1 and 5")) /\
  (1 <= raw_ <= 5 ->
   (forall o, o ∈ options s -> o_id o <> option_id) ->
   r = Raise (NotFoundError ("Option with id '" +:+ option_id +:+ "' not found"))) /\
  (1 <= raw_ <= 5 ->
   (exists o, o ∈ options s /\ o_id o = option_id) ->
   (forall c, c ∈ criteria s -> c_id c <> criterion_id) ->
   r = Raise (NotFoundError ("Criterion with id '" +:+ criterion_id +:+ "' not found"))).
Proof.
  intros r. unfold r, set_score. repeat split.
  - intros Hr. destruct (Z.leb_spec 1 raw_); simpl; [|done].
    destruct (Z.leb_spec raw_ 5); simpl; [lia|done].
  - intros Hr Hno. destruct (Z.leb_spec 1 raw_); [|lia].
    destruct (Z.leb_spec raw_ 5); [|lia]. simpl.
    destruct (existsb _ (options s)) eqn:Hex; [|done].
    apply existsb_exists in Hex as (o & Hin & Ho).
    apply list_elem_of_In in Hin. apply bool_decide_eq_true in Ho.
    by destruct (Hno o Hin).
  - intros Hr Ho Hno. destruct (Z.leb_spec 1 raw_); [|lia].
    destruct (Z.leb_spec raw_ 5); [|lia]. simpl.
    rewrite existsb_option by done. simpl.
    destruct (find_criterion (criteria s) criterion_id) as [c|] eqn:Hf; [|done].
    unfold find_criterion in Hf. apply List.find_some in Hf as [Hin Hid].
    apply list_elem_of_In in Hin. apply bool_decide_eq_true in Hid.
    by destruct (Hno c Hin).
Qed.

Lemma set_score_errors_witness :
  set_score 7 example_scenario "zz" "c1" 9 "ann" None
    = Raise (ValidationError "Score must be between 1 and 5") /\
  set_score 7 example_scenario "zz" "c1" 3 "ann" None
    = Raise (NotFoundError "Option with id 'zz' not found") /\
  set_score 7 example_scenario "A" "zz" 3 "ann" None
    = Raise (NotFoundError "Criterion with id 'zz' not found").
Proof.
  split; [|split].
  - apply (set_score_errors 7 example_scenario "zz" "c1" 9 "ann" None). lia.
  - apply (set_score_errors 7 example_scenario "zz" "c1" 3 "ann" None); [lia|].
    simpl. intros o Hin.
    repeat (apply elem_of_cons in Hin as [->|Hin]; [discriminate|]).
    by apply elem_of_nil in Hin.
  - apply (set_score_errors 7 example_scenario "A" "zz" 3 "ann" None); [lia| |].
    + exists (mk_option "A"). split; [apply list_elem_of_here | reflexivity].
    + simpl. intros c Hin.
      repeat (apply elem_of_cons in Hin as [->|Hin]; [discriminate|]).
      by apply elem_of_nil in Hin.
Defined.

Lemma set_rationale_ok_inv (s s' : Scenario Z) (option_id criterion_id : string)
      (rationale_ actor : string) :
  set_rationale s option_id criterion_id rationale_ actor = Ok s' ->
  (py_len rationale_ <= 500)%nat /\
  s' = with_scores s
         match find_score (scores s) option_id criterion_id with
         | Some (i, old) =>
             <[i := {| optionId := optionId old; criterionId := criterionId old;
                       raw := raw old; rationale := Some rationale_ |}]> (scores s)
         | None =>
             scores s ++ [{| optionId := option_id; criterionId := criterion_id;
                             raw := 3; rationale := Some rationale_ |}]
         end.
Proof.
  unfold set_rationale.
  destruct (Nat.ltb_spec 500 (py_len rationale_)); [done|].
  intros Hs'. inversion Hs'; subst s'. split; [lia|].
  by destruct (find_score (scores s) option_id criterion_id) as [[i old]|].
Qed.

Lemma find_score_Some (sc : list Score) (option_id criterion_id : string)
      (i : nat) (old : Score) :
  find_score sc option_id criterion_id = Some (i, old) ->
  sc !! i = Some old /\ optionId old = option_id /\ criterionId old = criterion_id.
Proof.
  unfold find_score. intros Hf. apply list_find_Some in Hf as (Hi & [Ho Hc] & _).
  done.
Qed.

Lemma find_score_None (sc : list Score) (option_id criterion_id : string) :
  find_score sc option_id criterion_id = None ->
  (option_id, criterion_id) ∉ map score_key sc.
Proof.
  unfold find_score. intros Hf Hin. apply list_find_None in Hf.
  apply list_elem_of_fmap in Hin as (x & Hk & Hx).
  rewrite Forall_forall in Hf. apply (Hf x Hx).
  unfold score_key in Hk. by inversion Hk.
Qed.

Lemma map_insert_same_key {A B} (f : A -> B) (l : list A) (i : nat) (x y : A) :
  l !! i = Some x -> f y = f x -> map f (<[i := y]> l) = map f l.
Proof.
  intros Hi Hf. change (map f ?k) with (f <$> k).
  rewrite list_fmap_insert, Hf. apply list_insert_id.
  by rewrite list_lookup_fmap, Hi.
Qed.

(** X6.  The services keep the invariants the model validates and the
    repository checks on load: from a scenario whose weights are not
    negative, whose raw scores are in [1, 5] and whose sensitivity step is
    positive, every scenario returned by [set_score], [set_rationale],
    [set_weight], [lock_weights] or [unlock_weights] is again such a
    scenario (so it can be saved and loaded back). *)
Theorem services_keep_valid (now : datetime) (s s' : Scenario Z) :
  valid_scenario s ->
  (forall o c r a rt, set_score now s o c r a rt = Ok s' -> valid_scenario s') /\
  (forall o c rt a, set_rationale s o c rt a = Ok s' -> valid_scenario s') /\
  (forall c w a r, set_weight now s c w a r = Ok s' -> valid_scenario s') /\
  (forall a, lock_weights now s a = Ok s' -> valid_scenario s') /\
  (forall a r, unlock_weights now s a r = Ok s' -> valid_scenario s').
Proof.
  intros (Hc & Hs & Hq). split; [|split; [|split; [|split]]].
  - intros o c r a rt H.
    apply set_score_ok_inv in H as (Hr & new & ov & _ & _ & Hraw & Heq).
    subst s'. split; [done|]. split; [|done]. simpl.
    destruct (find_score (scores s) o c) as [[i old]|].
    + apply Forall_insert; [done|]. unfold valid_score. by rewrite Hraw.
    + apply Forall_app. split; [done|]. constructor; [|done].
      unfold valid_score. by rewrite Hraw.
  - intros o c rt a H. apply set_rationale_ok_inv in H as (_ & Heq).
    subst s'. split; [done|]. split; [|done]. simpl.
    destruct (find_score (scores s) o c) as [[i old]|] eqn:Hf.
    + apply find_score_Some in Hf as (Hi & _ & _).
      apply Forall_insert; [done|]. unfold valid_score. simpl.
      rewrite Forall_forall in Hs. apply (Hs old). by eapply list_elem_of_lookup_2.
    + apply Forall_app. split; [done|]. constructor; [|done].
      unfold valid_score. simpl. lia.
  - intros c w a r H.
    apply set_weight_ok_inv in H as (_ & Hw & i & c0 & _ & _ & _ & Heq).
    subst s'. split; [|done]. simpl. by apply Forall_insert.
  - intros a H. unfold lock_weights in H. destruct (negb _); [done|].
    by inversion H; subst.
  - intros a r H. unfold unlock_weights in H. destruct (negb _); [done|].
    by inversion H; subst.
Qed.

(** X7.  [set_score] and [set_rationale] keep the rule that a scenario
    holds at most one score per (option, criterion) pair, and the other
    mutating services do not touch the scores. *)
Theorem services_keep_unique_pairs (now : datetime) (s s' : Scenario Z) :
  unique_pairs s ->
  (forall o c r a rt, set_score now s o c r a rt = Ok s' -> unique_pairs s') /\
  (forall o c rt a, set_rationale s o c rt a = Ok s' -> unique_pairs s') /\
  (forall c w a r, set_weight now s c w a r = Ok s' -> scores s' = scores s) /\
  (forall a, lock_weights now s a = Ok s' -> scores s' = scores s) /\
  (forall a r, unlock_weights now s a r = Ok s' -> scores s' = scores s).
Proof.
  intros Hu. unfold unique_pairs in *. split; [|split; [|split; [|split]]].
  - intros o c r a rt H.
    apply set_score_ok_inv in H as (_ & new & ov & Ho & Hc & _ & Heq).
    subst s'. simpl.
    destruct (find_score (scores s) o c) as [[i old]|] eqn:Hf.
    + apply find_score_Some in Hf as (Hi & Ho' & Hc').
      rewrite (map_insert_same_key score_key _ i old); [done..|].
      unfold score_key. by rewrite Ho, Hc, Ho', Hc'.
    + apply find_score_None in Hf. rewrite map_app. simpl.
      apply NoDup_app. split; [done|]. split; [|by apply NoDup_singleton].
      intros k Hk Hk'. apply list_elem_of_singleton in Hk'. subst k.
      unfold score_key in Hk. by rewrite Ho, Hc in Hk.
  - intros o c rt a H. apply set_rationale_ok_inv in H as (_ & Heq).
    subst s'. simpl.
    destruct (find_score (scores s) o c) as [[i old]|] eqn:Hf.
    + apply find_score_Some in Hf as (Hi & _ & _).
      by rewrite (map_insert_same_key score_key _ i old).
    + apply find_score_None in Hf. rewrite map_app. simpl.
      apply NoDup_app. split; [done|]. split; [|by apply NoDup_singleton].
      intros k Hk Hk'. apply list_elem_of_singleton in Hk'. by subst k.
  - intros c w a r H.
    apply set_weight_ok_inv in H as (_ & _ & i & c0 & _ & _ & _ & Heq).
    by subst s'.
  - intros a H. unfold lock_weights in H. destruct (negb _); [done|].
    by inversion H; subst.
  - intros a r H. unfold unlock_weights in H. destruct (negb _); [done|].
    by inversion H; subst.
Qed.

Lemma example_valid : valid_scenario example_scenario.
Proof.
  split; [|split]; [| |reflexivity]; repeat constructor; vm_compute; discriminate.
Qed.

Lemma example_unique_pairs : unique_pairs example_scenario.
Proof.
  unfold unique_pairs. simpl. repeat constructor; intros Hin;
    repeat (apply elem_of_cons in Hin as [Hin|Hin]; [discriminate|]);
    by apply elem_of_nil in Hin.
Qed.

Lemma services_keep_valid_witness :
  exists s', set_weight 5 example_scenario "c2" 8 "ann" "more" = Ok s' /\
             valid_scenario s'.
Proof.
  destruct (set_weight 5 example_scenario "c2" 8 "ann" "more") as [s'|e] eqn:Hs;
    [|vm_compute in Hs; discriminate].
  exists s'. split; [reflexivity|].
  destruct (services_keep_valid 5 example_scenario s' example_valid)
    as (_ & _ & Hw & _).
  by eapply Hw.
Defined.

Lemma services_keep_unique_pairs_witness :
  exists s', set_score 5 example_scenario "A" "c2" 1 "ann" None = Ok s' /\
             unique_pairs s'.
Proof.
  destruct (set_score 5 example_scenario "A" "c2" 1 "ann" None) as [s'|e] eqn:Hs;
    [|vm_compute in Hs; discriminate].
  exists s'. split; [reflexivity|].
  destruct (services_keep_unique_pairs 5 example_scenario s' example_unique_pairs)
    as (Hsc & _).
  by eapply Hsc.
Defined.

Lemma list_find_insert_other {A} (P : A -> Prop) `{forall x, Decision (P x)}
      (l : list A) (i : nat) (x y : A) :
  l !! i = Some x -> ~ P x -> ~ P y ->
  list_find P (<[i := y]> l) = list_find P l.
Proof.
  revert i. induction l as [|a l IH]; intros [|i] Hi Hx Hy; simpl in *; try done.
  - inversion Hi; subst a. cbn. by rewrite !decide_False by done.
  - cbn. destruct (decide (P a)); [done|]. by rewrite (IH i).
Qed.

Lemma list_find_snoc_other {A} (P : A -> Prop) `{forall x, Decision (P x)}
      (l : list A) (y : A) :
  ~ P y -> list_find P (l ++ [y]) = list_find P l.
Proof.
  intros Hy. induction l as [|a l IH]; cbn.
  - by rewrite decide_False.
  - destruct (decide (P a)); [done|]. by rewrite IH.
Qed.

Lemma list_find_insert_same {A} (P : A -> Prop) `{forall x, Decision (P x)}
      (l : list A) (i : nat) (x y : A) :
  list_find P l = Some (i, x) -> P y ->
  list_find P (<[i := y]> l) = Some (i, y).
Proof.
  intros Hf Hy. apply list_find_Some in Hf as (Hi & Hx & Hfirst).
  apply list_find_Some. split.
  { by rewrite list_lookup_insert_eq by (by eapply lookup_lt_Some). }
  split; [done|]. intros j z Hj Hlt.
  rewrite list_lookup_insert_ne in Hj by lia. by apply (Hfirst j z).
Qed.

Lemma list_find_snoc_new {A} (P : A -> Prop) `{forall x, Decision (P x)}
      (l : list A) (y : A) :
  list_find P l = None -> P y ->
  list_find P (l ++ [y]) = Some (length l, y).
Proof.
  intros Hf Hy. apply list_find_None in Hf. apply list_find_Some. split.
  { by rewrite list_lookup_middle. }
  split; [done|]. intros j z Hj Hlt. rewrite lookup_app_l in Hj by done.
  rewrite Forall_forall in Hf. apply Hf. by eapply list_elem_of_lookup_2.
Qed.

(** X8.  After a successful [set_score] the score of the pair reads back
    with the raw value just written, at the position [find_score] reports,
    and the search for any other pair gives what it gave before, position
    included. *)
Theorem set_score_read_back (now : datetime) (s s' : Scenario Z)
        (option_id criterion_id : string) (raw_ : Z) (actor : string)
        (rationale_ : option string) :
  set_score now s option_id criterion_id raw_ actor rationale_ = Ok s' ->
  (exists i sc, find_score (scores s') option_id criterion_id = Some (i, sc) /\
                raw sc = raw_ /\
                i = match find_score (scores s) option_id criterion_id with
                    | Some (i0, _) => i0
                    | None => length (scores s)
                    end) /\
  forall o c, (o, c) <> (option_id, criterion_id) ->
    find_score (scores s') o c = find_score (scores s) o c.
Proof.
  intros Hok.
  apply set_score_ok_inv in Hok as (_ & new & ov & Ho & Hc & Hraw & ->). simpl.
  destruct (find_score (scores s) option_id criterion_id) as [[i old]|] eqn:Hf.
  - split.
    + exists i, new. split; [|done]. unfold find_score in *.
      by apply (list_find_insert_same _ _ i old).
    + intros o c Hne. unfold find_score in *.
      apply list_find_Some in Hf as (Hi & [Ho' Hc'] & _).
      apply (list_find_insert_other _ _ i old); [done| |].
      * intros [? ?]. apply Hne. congruence.
      * intros [? ?]. apply Hne. congruence.
  - split.
    + exists (length (scores s)), new. split; [|done]. unfold find_score in *.
      by apply list_find_snoc_new.
    + intros o c Hne. unfold find_score.
      apply list_find_snoc_other. intros [? ?]. apply Hne. congruence.
Qed.

Lemma set_score_read_back_witness :
  exists s' i sc, set_score 5 example_scenario "B" "c1" 4 "ann" None = Ok s' /\
    find_score (scores s') "B" "c1" = Some (i, sc) /\ raw sc = 4.
Proof.
  destruct (set_score 5 example_scenario "B" "c1" 4 "ann" None) as [s'|e] eqn:Hs;
    [|vm_compute in Hs; discriminate].
  destruct (set_score_read_back 5 example_scenario s' "B" "c1" 4 "ann" None Hs)
    as [(i & sc & Hf & Hr & _) _].
  exists s', i, sc. split; [reflexivity|]. split; [exact Hf | exact Hr].
Defined.

Lemma Zsum_filter_insert {A} (f : A -> Z) (P : A -> Prop) `{forall x, Decision (P x)}
      (l : list A) (i : nat) (x y : A) :
  l !! i = Some x ->
  Zsum (map f (filter P (<[i := y]> l)))
  = Zsum (map f (filter P l))
    - (if decide (P x) then f x else 0) + (if decide (P y) then f y else 0).
Proof.
  revert i. induction l as [|a l IH]; intros [|i] Hi; simpl in Hi; try done.
  - inversion Hi; subst a. change (<[0%nat := y]> (x :: l)) with (y :: l).
    rewrite !filter_cons.
    destruct (decide (P x)), (decide (P y)); simpl; lia.
  - change (<[S i := y]> (a :: l)) with (a :: <[i := y]> l).
    rewrite !filter_cons.
    destruct (decide (P a)); simpl; rewrite (IH i Hi); lia.
Qed.

Lemma Zsum_filter_snoc {A} (f : A -> Z) (P : A -> Prop) `{forall x, Decision (P x)}
      (l : list A) (y : A) :
  Zsum (map f (filter P (l ++ [y])))
  = Zsum (map f (filter P l)) + (if decide (P y) then f y else 0).
Proof.
  rewrite filter_app, map_app. rewrite filter_cons, filter_nil.
  assert (forall l1 l2, Zsum (l1 ++ l2) = Zsum l1 + Zsum l2) as ->.
  { intros l1 l2. induction l1; simpl; lia. }
  destruct (decide (P y)); simpl; lia.
Qed.

Lemma totals_total (s : Scenario Z) (o : Option) :
  o ∈ options s ->
  total (totals_get (totals s) (o_id o))
  = Zsum (map (fun sc => raw sc * default 0 (weights_map (criteria s) !! criterionId sc))
              (filter (fun sc => optionId sc = o_id o) (scores s))).
Proof.
  intros Ho. unfold totals_get, totals. rewrite totals_from_lookup.
  rewrite decide_True by (by apply (list_elem_of_fmap_2 o_id)). simpl.
  unfold option_total. rewrite option_total_fold. simpl. lia.
Qed.

(** X9.  A successful [set_score] changes the total of the scored option
    by (new raw - previous raw) times the weight of the criterion, the
    previous raw counting as 0 when the pair had no score, and leaves the
    total of every other option as it was. *)
Theorem set_score_changes_total (now : datetime) (s s' : Scenario Z)
        (option_id criterion_id : string) (raw_ : Z) (actor : string)
        (rationale_ : option string) :
  NoDup (map c_id (criteria s)) ->
  set_score now s option_id criterion_id raw_ actor rationale_ = Ok s' ->
  forall o, o ∈ options s ->
    total (totals_get (totals s') (o_id o))
    = total (totals_get (totals s) (o_id o))
      + (if decide (o_id o = option_id)
         then (raw_ - raw_before s option_id criterion_id)
              * spec_weight (criteria s) criterion_id
         else 0).
Proof.
  intros Hnd Hok o Ho.
  apply set_score_ok_inv in Hok as (_ & new & ov & Hno & Hnc & Hraw & ->).
  rewrite !totals_total by done. simpl. unfold raw_before.
  rewrite <- (weights_map_spec _ _ Hnd).
  destruct (find_score (scores s) option_id criterion_id) as [[i old]|] eqn:Hf.
  - apply find_score_Some in Hf as (Hi & Hoo & Hoc).
    rewrite (Zsum_filter_insert _ _ _ i old) by done.
    rewrite Hno, Hnc, Hraw, Hoo, Hoc.
    destruct (decide (option_id = o_id o)) as [Heq|Hne].
    + rewrite decide_True by done. lia.
    + rewrite decide_False by congruence. lia.
  - rewrite Zsum_filter_snoc. rewrite Hno, Hnc, Hraw.
    destruct (decide (option_id = o_id o)) as [Heq|Hne].
    + rewrite decide_True by done. lia.
    + rewrite decide_False by congruence. lia.
Qed.

Lemma example_nodup_criteria : NoDup (map c_id (criteria example_scenario)).
Proof.
  simpl. repeat constructor; intros Hin;
    repeat (apply elem_of_cons in Hin as [Hin|Hin]; [discriminate|]);
    by apply elem_of_nil in Hin.
Qed.

Lemma set_score_changes_total_witness :
  exists s', set_score 5 example_scenario "B" "c1" 4 "ann" None = Ok s' /\
    total (totals_get (totals s') "B") = 15 + (4 - 1) * 10.
Proof.
  destruct (set_score 5 example_scenario "B" "c1" 4 "ann" None) as [s'|e] eqn:Hs;
    [|vm_compute in Hs; discriminate].
  exists s'. split; [reflexivity|].
  pose proof (set_score_changes_total 5 example_scenario s' "B" "c1" 4 "ann" None
                example_nodup_criteria Hs (mk_option "B")
                (list_elem_of_further _ _ _ (list_elem_of_here _ _))) as Ht.
  simpl in Ht. rewrite Ht. reflexivity.
Defined.

Lemma totals_from_same_scores (cs : list (Criterion Z)) (os : list Option)
      (sc sc' : list Score) :
  (forall oid, option_total (weights_map cs) sc' oid = option_total (weights_map cs) sc oid) ->
  totals_from cs os sc' = totals_from cs os sc.
Proof.
  intros Heq. apply map_eq. intros k. rewrite !totals_from_lookup.
  destruct (decide (k ∈ map o_id os)); [|done]. by rewrite Heq.
Qed.

(** X10.  [set_rationale] refuses a text of more than 500 characters
    (code points, as [len] counts them) with [ValidationError] and accepts
    any other, whether or not the weights are locked.  It never appends an
    audit event.  When the pair has a score,
    only the rationale of that score changes, so every total and the
    leaderboard stay as they were; when it has none, a score with the raw
    value 3 is appended. *)
Theorem set_rationale_spec (s : Scenario Z) (option_id criterion_id : string)
        (rationale_ actor : string) :
  ((500 < py_len rationale_)%nat ->
   set_rationale s option_id criterion_id rationale_ actor
   = Raise (ValidationError "Rationale must be 500 characters or less")) /\
  ((py_len rationale_ <= 500)%nat ->
   exists s',
     set_rationale s option_id criterion_id rationale_ actor = Ok s' /\
     audit s' = audit s /\
     with_scores s' (scores s) = s /\
     (forall i old,
        find_score (scores s) option_id criterion_id = Some (i, old) ->
        scores s' = <[i := {| optionId := optionId old;
                              criterionId := criterionId old;
                              raw := raw old;
                              rationale := Some rationale_ |}]> (scores s) /\
        totals s' = totals s /\
        leaderboard s' = leaderboard s) /\
     (find_score (scores s) option_id criterion_id = None ->
      scores s' = scores s ++ [{| optionId := option_id;
                                  criterionId := criterion_id;
                                  raw := 3;
                                  rationale := Some rationale_ |}])).
Proof.
  split.
  - intros Hlen. unfold set_rationale.
    by destruct (Nat.ltb_spec 500 (py_len rationale_)); [|lia].
  - intros Hlen. unfold set_rationale.
    destruct (Nat.ltb_spec 500 (py_len rationale_)); [lia|].
    eexists. split; [reflexivity|]. simpl. split; [done|].
    split; [by destruct s|]. split.
    + intros i old Hf. rewrite Hf. split; [done|].
      assert (Ht : totals_from (criteria s) (options s)
                     (<[i := {| optionId := optionId old;
                                criterionId := criterionId old;
                                raw := raw old;
                                rationale := Some rationale_ |}]> (scores s))
                   = totals_from (criteria s) (options s) (scores s)).
      { apply totals_from_same_scores. intros oid.
        apply find_score_Some in Hf as (Hi & _ & _).
        unfold option_total. rewrite !option_total_fold. f_equal.
        rewrite (Zsum_filter_insert _ _ _ i old) by done. simpl.
        destruct (decide (optionId old = oid)); lia. }
      split.
      * unfold totals. simpl. exact Ht.
      * unfold leaderboard, _calculate_totals. simpl. by rewrite Ht.
    + intros Hf. by rewrite Hf.
Qed.

Lemma set_rationale_spec_witness :
  exists s',
    set_rationale example_scenario "A" "c1" (str_repeat euro_sign 200) "ann" = Ok s' /\
    audit s' = audit example_scenario /\
    leaderboard s' = leaderboard example_scenario.
Proof.
  destruct (set_rationale_spec example_scenario "A" "c1" (str_repeat euro_sign 200) "ann")
    as [_ Hok].
  destruct Hok as (s' & Hs & Ha & _ & Hex & _).
  { apply Nat.leb_le. vm_compute. reflexivity. }
  exists s'. split; [exact Hs|]. split; [exact Ha|].
  by apply (Hex 0%nat (mk_score "A" "c1" 5)).
Defined.

(** [len] counts code points: 200 euro signs are 200 characters in 600
    bytes, and a text of 501 letters is refused. *)
Example set_rationale_length_examples :
  py_len (str_repeat euro_sign 200) = 200%nat /\
  String.length (str_repeat euro_sign 200) = 600%nat /\
  set_rationale example_scenario "A" "c1" (str_repeat "x" 501) "ann"
  = Raise (ValidationError "Rationale must be 500 characters or less").
Proof. repeat split; vm_compute; reflexivity. Qed.

(** ** Audit log *)

(** X11.  The audit list is append-only under the services: a successful
    [set_score], [set_weight], [lock_weights] or [unlock_weights] returns
    the old list followed by exactly one event, which carries the call's
    time and actor and the type of the operation; [set_rationale] returns
    the old list unchanged.  No call removes or rewrites an event. *)
Theorem audit_append_only (now : datetime) (s s' : Scenario Z) (actor : string) :
  (forall o c r rt, set_score now s o c r actor rt = Ok s' ->
     exists ov, audit s' = audit s ++ [score_changed_event now actor o c ov r]) /\
  (forall c w reason, set_weight now s c w actor reason = Ok s' ->
     exists old, audit s' = audit s ++ [weight_changed_event now actor c old w reason]) /\
  (lock_weights now s actor = Ok s' ->
     audit s' = audit s ++ [weights_locked_event now actor]) /\
  (forall reason, unlock_weights now s actor reason = Ok s' ->
     audit s' = audit s ++ [weights_unlocked_event now actor reason]) /\
  (forall o c rt, set_rationale s o c rt actor = Ok s' -> audit s' = audit s).
Proof.
  split; [|split; [|split; [|split]]].
  - intros o c r rt H.
    apply set_score_ok_inv in H as (_ & new & ov & _ & _ & _ & Heq).
    subst s'. by exists ov.
  - intros c w reason H.
    apply set_weight_ok_inv in H as (_ & _ & i & c0 & _ & Hid & _ & Heq).
    subst s'. by exists (c_weight c0).
  - intros H. unfold lock_weights in H. destruct (negb _); [done|].
    by inversion H; subst.
  - intros reason H. unfold unlock_weights in H. destruct (negb _); [done|].
    by inversion H; subst.
  - intros o c rt H. apply set_rationale_ok_inv in H as (_ & Heq). by subst s'.
Qed.

Lemma audit_append_only_witness :
  exists s', lock_weights 3 example_scenario "ann" = Ok s' /\
             audit s' = audit example_scenario ++ [weights_locked_event 3 "ann"].
Proof.
  destruct (lock_weights 3 example_scenario "ann") as [s'|e] eqn:Hs;
    [|vm_compute in Hs; discriminate].
  exists s'. split; [reflexivity|].
  destruct (audit_append_only 3 example_scenario s' "ann") as (_ & _ & Hl & _).
  by apply Hl.
Defined.

(** X12.  [get_history] returns exactly the events of the audit list that
    pass the filters given, in the order of the list, and the whole list
    when no filter is given.  It composes with logging: after an event is
    logged, the history under any filters is the previous history,
    followed by the new event when the event passes the filters. *)
Theorem get_history_spec (s : Scenario Z) (ty ac : option string) :
  get_history s None None = audit s /\
  (forall e, e ∈ get_history s ty ac <-> e ∈ audit s /\ history_match ty ac e) /\
  get_history s ty ac `sublist_of` audit s /\
  forall now a t d,
    let e := {| ts := now; actor := a; ev_type := t; details := d |} in
    (history_match ty ac e ->
     get_history (log_event now s a t d) ty ac = get_history s ty ac ++ [e]) /\
    (~ history_match ty ac e ->
     get_history (log_event now s a t d) ty ac = get_history s ty ac).
Proof.
  split; [done|]. unfold get_history, history_match, log_event. simpl.
  destruct ty as [t0|], ac as [a0|]; (split; [|split]).
  - intros e. rewrite !list_elem_of_filter. split.
    + intros (Ha & Ht & Hin). split; [done|]. split; intros ? [= <-]; done.
    + intros (Hin & Ht & Ha). split; [by apply Ha|]. split; [by apply Ht|done].
  - etransitivity; apply sublist_filter.
  - intros now a t d. rewrite !filter_app, !filter_cons, !filter_nil.
    cbn [ev_type actor]. split.
    + intros [Ht Ha]. rewrite (decide_True (P := t = t0)) by (by apply Ht).
      rewrite filter_cons, filter_nil. cbn [actor].
      by rewrite (decide_True (P := a = a0)) by (by apply Ha).
    + intros Hno. destruct (decide (t = t0)) as [Ht|Ht].
      * rewrite filter_cons, filter_nil. cbn [actor].
        rewrite (decide_False (P := a = a0)); [by rewrite app_nil_r|].
        intros Ha. apply Hno. split; intros ? [= <-]; done.
      * by rewrite filter_nil, app_nil_r.
  - intros e. rewrite !list_elem_of_filter. split.
    + intros (Ht & Hin). split; [done|]. split; [intros ? [= <-]; done|done].
    + intros (Hin & Ht & _). split; [by apply Ht|done].
  - apply sublist_filter.
  - intros now a t d. rewrite !filter_app, !filter_cons, !filter_nil.
    cbn [ev_type actor]. split.
    + intros [Ht _]. by rewrite (decide_True (P := t = t0)) by (by apply Ht).
    + intros Hno. rewrite (decide_False (P := t = t0)); [by rewrite app_nil_r|].
      intros Ht. apply Hno. split; [intros ? [= <-]; done|done].
  - intros e. rewrite !list_elem_of_filter. split.
    + intros (Ha & Hin). split; [done|]. split; [done|intros ? [= <-]; done].
    + intros (Hin & _ & Ha). split; [by apply Ha|done].
  - apply sublist_filter.
  - intros now a t d. rewrite !filter_app, !filter_cons, !filter_nil.
    cbn [ev_type actor]. split.
    + intros [_ Ha]. by rewrite (decide_True (P := a = a0)) by (by apply Ha).
    + intros Hno. rewrite (decide_False (P := a = a0)); [by rewrite app_nil_r|].
      intros Ha. apply Hno. split; [done|intros ? [= <-]; done].
  - intros e. split; [intros Hin; by repeat split|by intros [? _]].
  - done.
  - intros now a t d. split; [done|]. intros Hno. exfalso. by apply Hno.
Qed.

Lemma get_history_spec_witness :
  exists s', set_score 5 example_scenario "B" "c1" 4 "ann" None = Ok s' /\
    get_history s' (Some "score_changed") (Some "ann")
    = [score_changed_event 5 "ann" "B" "c1" (JInt 1) 4] /\
    get_history s' (Some "weight_changed") None = [].
Proof.
  eexists. split; [reflexivity|].
  destruct (get_history_spec example_scenario (Some "score_changed") (Some "ann"))
    as (_ & _ & _ & Hlog).
  destruct (get_history_spec example_scenario (Some "weight_changed") None)
    as (_ & _ & _ & Hlog').
  split.
  - apply (Hlog 5 "ann" "score_changed").
    split; intros ? [= <-]; reflexivity.
  - apply (Hlog' 5 "ann" "score_changed"
             [("optionId", JStr "B"); ("criterionId", JStr "c1");
              ("oldValue", JInt 1); ("newValue", JInt 4)]).
    intros [Ht _]. specialize (Ht _ eq_refl). discriminate.
Defined.

(** * Further properties of the analysis engine *)

(** ** Contributions *)

(** The dict a loop [for k in ks: m[k] = g(k)] builds. *)
Lemma fold_insert_keys {V} (g : string -> V) (ks : list string)
      (m : gmap string V) (k : string) :
  foldl (fun m k => <[k := g k]> m) m ks !! k =
  if decide (k ∈ ks) then Some (g k) else m !! k.
Proof.
  revert m. induction ks as [|a ks IH]; intros m; simpl.
  - destruct (decide (k ∈ [])) as [Hin|]; [|done]. by apply elem_of_nil in Hin.
  - rewrite IH. destruct (decide (k = a)) as [->|Hne].
    + rewrite lookup_insert_eq.
      rewrite (decide_True (P := a ∈ a :: ks)) by apply list_elem_of_here.
      by destruct (decide (a ∈ ks)).
    + rewrite lookup_insert_ne by done.
      destruct (decide (k ∈ ks)) as [Hin|Hin].
      * by rewrite decide_True by (by apply list_elem_of_further).
      * rewrite decide_False; [done|]. intros [?|?]%elem_of_cons; done.
Qed.

Lemma option_contributions_snoc (w : gmap string Z) (sc : list Score) (x : Score)
      (oid : string) :
  option_contributions w (sc ++ [x]) oid =
  if decide (optionId x = oid)
  then (<[criterionId x := raw x * default 0 (w !! criterionId x)]>
          (fst (option_contributions w sc oid)),
        snd (option_contributions w sc oid) + raw x * default 0 (w !! criterionId x))
  else option_contributions w sc oid.
Proof.
  unfold option_contributions. rewrite foldl_app. simpl.
  destruct (foldl _ _ sc) as [cm t]. by destruct (decide (optionId x = oid)).
Qed.

Lemma option_total_snoc (w : gmap string Z) (sc : list Score) (x : Score)
      (oid : string) :
  option_total w (sc ++ [x]) oid =
  if decide (optionId x = oid)
  then option_total w sc oid + raw x * default 0 (w !! criterionId x)
  else option_total w sc oid.
Proof. unfold option_total. by rewrite foldl_app. Qed.

Lemma option_contributions_total (w : gmap string Z) (sc : list Score) (oid : string) :
  snd (option_contributions w sc oid) = option_total w sc oid.
Proof.
  induction sc as [|x sc IH] using rev_ind; [done|].
  rewrite option_contributions_snoc, option_total_snoc.
  destruct (decide (optionId x = oid)); simpl; by rewrite IH.
Qed.

Lemma option_contributions_entry (w : gmap string Z) (sc : list Score) (oid : string)
      (x : Score) :
  NoDup (map score_key sc) -> x ∈ sc -> optionId x = oid ->
  fst (option_contributions w sc oid) !! criterionId x
  = Some (raw x * default 0 (w !! criterionId x)).
Proof.
  induction sc as [|y sc IH] using rev_ind; intros Hnd Hin Ho.
  { by apply elem_of_nil in Hin. }
  rewrite map_app in Hnd. apply NoDup_app in Hnd as (Hnd & Hfresh & _).
  rewrite option_contributions_snoc.
  apply elem_of_app in Hin as [Hin|Hin].
  - destruct (decide (optionId y = oid)) as [Hy|Hy]; simpl; [|by apply IH].
    rewrite lookup_insert_ne; [by apply IH|].
    intros Heq. apply (Hfresh (score_key x)).
    + by apply (list_elem_of_fmap_2 score_key).
    + simpl. apply list_elem_of_singleton. unfold score_key. congruence.
  - apply list_elem_of_singleton in Hin. subst y.
    rewrite decide_True by done. simpl. by rewrite lookup_insert_eq.
Qed.

Lemma option_contributions_keys (w : gmap string Z) (sc : list Score) (oid k : string) :
  is_Some (fst (option_contributions w sc oid) !! k) ->
  exists x, x ∈ sc /\ optionId x = oid /\ criterionId x = k.
Proof.
  induction sc as [|y sc IH] using rev_ind; intros Hk.
  { unfold option_contributions in Hk. simpl in Hk. rewrite lookup_empty in Hk.
    by destruct Hk. }
  rewrite option_contributions_snoc in Hk.
  destruct (decide (optionId y = oid)) as [Hy|Hy]; simpl in Hk.
  - destruct (decide (criterionId y = k)) as [Hc|Hc].
    + exists y. split; [|done]. apply elem_of_app. right. apply list_elem_of_here.
    + rewrite lookup_insert_ne in Hk by done.
      destruct (IH Hk) as (x & Hin & Hx). exists x. split; [|done].
      apply elem_of_app. by left.
  - destruct (IH Hk) as (x & Hin & Hx). exists x. split; [|done].
    apply elem_of_app. by left.
Qed.

(** X13.  [contributions] fills one entry per requested option id and
    nothing else besides ["criteria"].  For a requested id, the ["total"] of
    the entry is the total [totals] computes for that option; and in a
    scenario with at most one score per pair, the entry of a criterion the
    option is scored on (other than one whose id is ["total"]) is raw
    times weight, and criteria the option is not scored on have no entry. *)
Theorem contributions_spec (s : Scenario Z) (option_ids : list string) :
  (forall oid, oid ∈ option_ids ->
     exists m, contributions s option_ids !! oid = Some (CContrib m) /\
       m !! "total" = Some (option_total (weights_map (criteria s)) (scores s) oid) /\
       (forall o, o ∈ options s -> o_id o = oid ->
          m !! "total" = Some (total (totals_get (totals s) oid))) /\
       (unique_pairs s ->
        forall x, x ∈ scores s -> optionId x = oid -> criterionId x <> "total" ->
          m !! criterionId x
          = Some (raw x * default 0 (weights_map (criteria s) !! criterionId x))) /\
       (forall k, k <> "total" -> is_Some (m !! k) ->
          exists x, x ∈ scores s /\ optionId x = oid /\ criterionId x = k)) /\
  (forall oid, oid ∉ option_ids -> oid <> "criteria" ->
     contributions s option_ids !! oid = None) /\
  ("criteria" ∉ option_ids ->
   contributions s option_ids !! "criteria"
   = Some (CCriteria (criteria_meta (criteria s)))).
Proof.
  assert (Hlook : forall k, contributions s option_ids !! k =
            if decide (k ∈ option_ids)
            then Some (CContrib (<["total" :=
                         snd (option_contributions (weights_map (criteria s)) (scores s) k)]>
                         (fst (option_contributions (weights_map (criteria s)) (scores s) k))))
            else ({["criteria" := CCriteria (criteria_meta (criteria s))]}
                    : gmap string (ContribVal Z)) !! k).
  { intros k. unfold contributions.
    rewrite <- (fold_insert_keys
                  (fun k => CContrib (<["total" :=
                     snd (option_contributions (weights_map (criteria s)) (scores s) k)]>
                     (fst (option_contributions (weights_map (criteria s)) (scores s) k))))).
    generalize ({["criteria" := CCriteria (criteria_meta (criteria s))]}
                  : gmap string (ContribVal Z)).
    induction option_ids as [|a ks IH]; intros m0; simpl; [done|].
    rewrite <- IH. by destruct (option_contributions _ _ a). }
  split; [|split].
  - intros oid Hin. rewrite Hlook, decide_True by done.
    eexists. split; [done|]. rewrite lookup_insert_eq, option_contributions_total.
    split; [done|]. split.
    { intros o Ho Hid. unfold totals_get, totals. rewrite totals_from_lookup.
      rewrite decide_True; [done|]. rewrite <- Hid. by apply (list_elem_of_fmap_2 o_id). }
    split.
    { intros Hu x Hx Ho Hc. rewrite lookup_insert_ne by done.
      by apply option_contributions_entry. }
    intros k Hk Hsome. rewrite lookup_insert_ne in Hsome by done.
    by apply option_contributions_keys in Hsome.
  - intros oid Hin Hne. rewrite Hlook, decide_False by done.
    by rewrite lookup_singleton_ne.
  - intros Hin. rewrite Hlook, decide_False by done.
    by rewrite lookup_singleton_eq.
Qed.

Lemma contributions_spec_witness :
  exists m, contributions example_scenario ["A"; "B"] !! "B" = Some (CContrib m) /\
            m !! "total" = Some 15.
Proof.
  destruct (contributions_spec example_scenario ["A"; "B"]) as (Hreq & _).
  destruct (Hreq "B") as (m & Hm & Ht & _).
  - apply list_elem_of_further, list_elem_of_here.
  - exists m. split; [exact Hm|]. rewrite Ht. reflexivity.
Defined.

(** ** The leaderboard and the gap to the winner agree *)

Lemma filter_none {A} (P : A -> Prop) `{forall x, Decision (P x)} (l : list A) :
  Forall (fun x => ~ P x) l -> filter P l = [].
Proof.
  induction 1 as [|x l Hx _ IH]; [done|].
  by rewrite filter_cons, decide_False.
Qed.

Lemma filter_all {A} (P : A -> Prop) `{forall x, Decision (P x)} (l : list A) :
  Forall P l -> filter P l = l.
Proof.
  induction 1 as [|x l Hx _ IH]; [done|].
  by rewrite filter_cons, decide_True, IH.
Qed.

(** X14.  In a scenario with at least one option, non-negative weights and
    valid scores, none of whose options has the id "winner": the first
    entry of [leaderboard] has rank 1 and is the option [delta_to_winner]
    designates as winner, ties included (both take the first option, in
    list order, among those with the greatest total). *)
Theorem leaderboard_head_is_winner (s : Scenario Z) :
  options s <> [] ->
  Forall valid_criterion (criteria s) ->
  Forall valid_score (scores s) ->
  "winner" ∉ map o_id (options s) ->
  exists e rest,
    leaderboard s = e :: rest /\ rank e = 1%nat /\
    delta_to_winner s !! "winner" = Some (DWinner (Some (e_optionId e))).
Proof.
  intros Hne Hc Hs Hkey.
  destruct (find_winner_spec (_calculate_totals s) (options s))
    as (i & w & Hi & Hfw & Hmax & Hfirst); [|done|].
  { intros o _. by apply total_of_nonneg. }
  set (f := fun o : Option =>
              {| r_optionId := o_id o; r_name := o_name o;
                 r_total := total (totals_get (_calculate_totals s) (o_id o));
                 r_normalized := normalized (totals_get (_calculate_totals s) (o_id o)) |}).
  set (M := total (totals_get (_calculate_totals s) (o_id w))) in *.
  assert (Hrows : option_rows s = map f (options s)) by done.
  destruct (sort_desc (option_rows s)) as [|h t] eqn:Hsorted.
  { pose proof (sort_desc_perm (option_rows s)) as Hp. rewrite Hsorted in Hp.
    apply Permutation_nil_l in Hp. rewrite Hrows in Hp.
    destruct (options s); [done|discriminate]. }
  assert (Hin_sorted : forall r, r ∈ h :: t <-> r ∈ option_rows s).
  { intros r. rewrite <- Hsorted. by rewrite sort_desc_perm. }
  assert (HhM : r_total h = M).
  { apply Z.le_antisymm.
    - assert (Hh : h ∈ option_rows s) by (apply Hin_sorted, list_elem_of_here).
      rewrite Hrows in Hh. apply list_elem_of_fmap in Hh as (o & -> & Ho).
      by apply Hmax.
    - assert (Hw : f w ∈ h :: t).
      { apply Hin_sorted. rewrite Hrows. apply list_elem_of_fmap_2.
        by eapply list_elem_of_lookup_2. }
      pose proof (sort_desc_sorted (option_rows s)) as Hss. rewrite Hsorted in Hss.
      apply StronglySorted_inv in Hss as [_ Hall].
      apply elem_of_cons in Hw as [<-|Hw]; [done|].
      rewrite Forall_forall in Hall. by apply (Hall (f w)). }
  assert (Hfilt : filter (fun r => r_total r = M) (option_rows s)
                  = f w :: filter (fun r => r_total r = M) (map f (drop (S i) (options s)))).
  { rewrite Hrows. rewrite <- (take_drop_middle (options s) i w Hi) at 1.
    rewrite map_app, filter_app. simpl. rewrite filter_cons.
    rewrite decide_True by done.
    assert (filter (fun r => r_total r = M) (map f (take i (options s))) = []) as ->; [|done].
    apply filter_none. apply Forall_forall. intros r Hr.
    apply list_elem_of_fmap in Hr as (o & -> & Ho).
    apply list_elem_of_lookup in Ho as [j Hj].
    assert (Hji : (j < i)%nat).
    { apply lookup_lt_Some in Hj. rewrite length_take in Hj. lia. }
    rewrite lookup_take_lt in Hj by done.
    pose proof (Hfirst j o Hji Hj). simpl. fold M in H. lia. }
  pose proof (sort_desc_stable M (option_rows s)) as Hst.
  rewrite Hsorted, filter_cons, decide_True, Hfilt in Hst by done.
  inversion Hst as [[Hh Ht]].
  unfold leaderboard. fold (option_rows s). rewrite Hsorted. simpl.
  eexists _, _. split; [reflexivity|]. split; [done|].
  rewrite (delta_to_winner_lookup s _ _ _ Hne Hfw).
  rewrite decide_False by done. rewrite lookup_singleton_eq.
  unfold e_optionId. simpl. by rewrite Hh.
Qed.

Lemma leaderboard_head_is_winner_witness :
  exists e rest, leaderboard tie_scenario = e :: rest /\
    delta_to_winner tie_scenario !! "winner" = Some (DWinner (Some (e_optionId e))).
Proof.
  destruct (leaderboard_head_is_winner tie_scenario) as (e & rest & Hl & _ & Hw).
  - discriminate.
  - repeat constructor; vm_compute; discriminate.
  - repeat constructor; vm_compute; discriminate.
  - simpl. intros Hin.
    repeat (apply elem_of_cons in Hin as [Hin|Hin]; [discriminate|]).
    by apply elem_of_nil in Hin.
  - exists e, rest. split; [exact Hl | exact Hw].
Defined.

(** ** Bounds of the totals *)

Lemma spec_weight_cons (c : Criterion Z) (cs : list (Criterion Z)) (k : string) :
  spec_weight (c :: cs) k = if decide (c_id c = k) then c_weight c else spec_weight cs k.
Proof.
  unfold spec_weight, find_criterion. simpl.
  destruct (decide (c_id c = k)).
  - by rewrite bool_decide_eq_true_2.
  - by rewrite bool_decide_eq_false_2.
Qed.

Lemma spec_weight_nonneg (cs : list (Criterion Z)) (k : string) :
  Forall valid_criterion cs -> 0 <= spec_weight cs k.
Proof.
  induction 1 as [|c cs Hc _ IH]; [done|].
  rewrite spec_weight_cons. by destruct (decide (c_id c = k)).
Qed.

Lemma sum_spec_weight_cons (c : Criterion Z) (cs : list (Criterion Z)) (L : list string) :
  NoDup L ->
  Zsum (map (spec_weight (c :: cs)) L)
  = (if decide (c_id c ∈ L) then c_weight c else 0)
    + Zsum (map (spec_weight cs) (filter (fun k => k <> c_id c) L)).
Proof.
  induction 1 as [|k L Hk Hnd IH]; [done|].
  simpl. rewrite IH, spec_weight_cons, filter_cons.
  destruct (decide (c_id c = k)) as [Heq|Hne].
  - subst k. rewrite (decide_False (P := c_id c <> c_id c)) by (by intros ?).
    rewrite (decide_False (P := c_id c ∈ L)) by done.
    rewrite (decide_True (P := c_id c ∈ c_id c :: L)) by apply list_elem_of_here.
    lia.
  - rewrite (decide_True (P := k <> c_id c)) by congruence. simpl.
    destruct (decide (c_id c ∈ L)) as [Hin|Hin].
    + rewrite decide_True by (by apply list_elem_of_further). lia.
    + rewrite decide_False; [lia|]. intros [?|?]%elem_of_cons; done.
Qed.

Lemma sum_spec_weight_le (cs : list (Criterion Z)) :
  Forall valid_criterion cs ->
  forall L, NoDup L -> Zsum (map (spec_weight cs) L) <= Zsum (map c_weight cs).
Proof.
  induction 1 as [|c cs Hc Hcs IH]; intros L HL.
  - simpl. induction L as [|k L IHL]; [done|].
    simpl. apply NoDup_cons in HL as [_ HL]. specialize (IHL HL).
    unfold spec_weight at 1. simpl. lia.
  - rewrite sum_spec_weight_cons by done. simpl.
    pose proof (IH (filter (fun k => k <> c_id c) L) (NoDup_filter _ _ HL)).
    unfold valid_criterion in Hc. destruct (decide (c_id c ∈ L)); lia.
Qed.

Lemma option_criteria_nodup (l : list Score) (oid : string) :
  NoDup (map score_key l) ->
  NoDup (map criterionId (filter (fun sc => optionId sc = oid) l)).
Proof.
  induction l as [|x l IH]; [constructor|].
  simpl. intros [Hx Hnd]%NoDup_cons. rewrite filter_cons.
  destruct (decide (optionId x = oid)) as [Ho|Ho]; [|by apply IH].
  simpl. apply NoDup_cons. split; [|by apply IH].
  intros Hin. apply Hx.
  apply list_elem_of_fmap in Hin as (y & Hc & Hy).
  apply list_elem_of_filter in Hy as [Hyo Hy].
  apply list_elem_of_fmap. exists y. split; [|done].
  unfold score_key. congruence.
Qed.

(** X15.  In a scenario that satisfies the invariants of the model
    (unique criterion ids, weights not negative, raw scores in [1, 5], at
    most one score per pair), the total of every option lies between 0
    and the greatest possible score, and its normalized score between 0
    and 100. *)
Theorem totals_bounded (s : Scenario Z) :
  NoDup (map c_id (criteria s)) ->
  Forall valid_criterion (criteria s) ->
  Forall valid_score (scores s) ->
  unique_pairs s ->
  forall o, o ∈ options s ->
    0 <= total (totals_get (totals s) (o_id o)) <= spec_max_possible s /\
    (0 <= normalized (totals_get (totals s) (o_id o)))%Qc /\
    (normalized (totals_get (totals s) (o_id o)) <= Z2Qc 100)%Qc.
Proof.
  intros Hnd Hc Hs Hu o Ho.
  assert (Hlook : totals_get (totals s) (o_id o)
                  = {| total := spec_total s (o_id o);
                       normalized := normalize (spec_total s (o_id o))
                                               (spec_max_possible s) |}).
  { unfold totals_get, totals. rewrite totals_from_lookup.
    rewrite decide_True by (by apply (list_elem_of_fmap_2 o_id)). simpl.
    by rewrite option_total_spec, max_possible_spec. }
  rewrite Hlook. cbn [total normalized].
  assert (H0 : 0 <= spec_total s (o_id o)).
  { rewrite <- option_total_spec by done. by apply option_total_nonneg. }
  assert (Hmax : spec_total s (o_id o) <= spec_max_possible s).
  { unfold spec_total, spec_max_possible.
    set (l := filter (fun sc => optionId sc = o_id o) (scores s)).
    transitivity (5 * Zsum (map (spec_weight (criteria s)) (map criterionId l))).
    - assert (Hl : Forall valid_score l).
      { apply Forall_forall. intros x Hx. apply list_elem_of_filter in Hx as [_ Hx].
        rewrite Forall_forall in Hs. by apply Hs. }
      clear -Hl Hc. induction Hl as [|x l Hx _ IH]; simpl; [lia|].
      pose proof (spec_weight_nonneg (criteria s) (criterionId x) Hc).
      unfold valid_score in Hx. nia.
    - pose proof (sum_spec_weight_le (criteria s) Hc (map criterionId l)
                    (option_criteria_nodup (scores s) (o_id o) Hu)) as Hle.
      assert (forall cs : list (Criterion Z),
                Zsum (map (fun c => c_weight c * 5) cs)
                = 5 * Zsum (map c_weight cs)) as ->.
      { intros cs. induction cs as [|c cs IH]; simpl; lia. }
      lia. }
  split; [lia|]. unfold normalize. cbn [num_ltb num_of_int num_truediv PyInt].
  destruct (Z.ltb_spec 0 (spec_max_possible s)) as [Hpos|Hzero].
  - unfold f64_of_int. rewrite (f64_round_int 100) by (simpl; lia).
    by apply f64_percent_bounds.
  - split; [done|]. by apply (Z2Qc_le 0 100).
Qed.

Lemma totals_bounded_witness :
  0 <= total (totals_get (totals example_scenario) "B") <= 75.
Proof.
  apply (totals_bounded example_scenario example_nodup_criteria
           (proj1 example_valid) (proj1 (proj2 example_valid))
           example_unique_pairs (mk_option "B")).
  apply list_elem_of_further, list_elem_of_here.
Defined.

(** ** The what-if analysis against the real change *)



(** * Further properties of the repository *)

Lemma string_length_app (s t : string) :
  String.length (s +:+ t) = (String.length s + String.length t)%nat.
Proof. induction s as [|c s IH]; simpl; [done|]. by rewrite IH. Qed.

Lemma substring_app_prefix (s t : string) :
  substring 0 (String.length s) (s +:+ t) = s.
Proof.
  induction s as [|c s IH]; simpl.
  - by destruct t.
  - by rewrite IH.
Qed.

Lemma str_last_app (s t : string) :
  t <> EmptyString -> str_last (s +:+ t) = str_last t.
Proof.
  intros Ht. induction s as [|c s IH]; [done|].
  simpl. rewrite IH. destruct (s +:+ t) eqn:Hst; [|done].
  destruct s; simpl in Hst; [done|discriminate].
Qed.

Lemma rfind_dot_json (s : string) :
  str_all not_dot s = true -> rfind_dot (s +:+ ".json") = Some (String.length s).
Proof.
  induction s as [|c s IH]; [done|].
  intros Hall. cbn [str_all] in Hall. apply andb_prop in Hall as [Hc Hs].
  simpl. by rewrite (IH Hs).
Qed.

Lemma re_match_id_no_dot (s : string) :
  re_match_id s = true -> str_all not_dot s = true.
Proof.
  induction s as [|c r IH]; [done|].
  intros Hm. cbn [re_match_id] in Hm. apply andb_prop in Hm as [Hc Hr].
  assert (Hcd : not_dot c = true).
  { destruct (id_char_not_special c Hc) as (Hd & _). unfold not_dot.
    destruct (Ascii.eqb_spec c "."); [done|done]. }
  cbn [str_all]. rewrite Hcd. simpl.
  apply orb_prop in Hr as [Hr|Hr]; [|by apply IH].
  destruct r as [|c' [|c'' r'']]; simpl in Hr; try done.
  apply Ascii.eqb_eq in Hr. by subst c'.
Qed.

(** The temporary file of an accepted id is [<base>/<id>.tmp]. *)
Lemma temp_path_of_id (base_path sid : string) :
  re_match_id sid = true ->
  with_suffix {| parent := base_path; p_name := sid +:+ ".json" |} ".tmp"
  = {| parent := base_path; p_name := sid +:+ ".tmp" |}.
Proof.
  intros Hm. unfold with_suffix. simpl.
  rewrite (rfind_dot_json sid (re_match_id_no_dot sid Hm)).
  rewrite string_length_app. simpl.
  assert (Hlen : (0 < String.length sid)%nat) by (destruct sid; [done|simpl; lia]).
  destruct (Nat.ltb_spec 0 (String.length sid)); [|lia].
  destruct (Nat.ltb_spec (String.length sid) (String.length sid + 5 - 1)); [|lia].
  simpl. by rewrite substring_app_prefix.
Qed.

Lemma string_app_nonempty_r (s t : string) :
  t <> EmptyString -> s +:+ t <> EmptyString.
Proof. intros Ht. destruct s; [done|discriminate]. Qed.

Lemma temp_file_not_scenario_file (base_path a b : string) :
  scenario_temp_file base_path a <> scenario_file base_path b.
Proof.
  unfold scenario_temp_file, scenario_file. intros Heq.
  apply (f_equal str_last) in Heq.
  rewrite !str_last_app in Heq by (repeat apply string_app_nonempty_r; done).
  discriminate.
Qed.

Lemma scenario_file_inj (base_path a b : string) :
  scenario_file base_path a = scenario_file base_path b -> a = b.
Proof.
  unfold scenario_file. intros Heq.
  apply String.app_inj in Heq. apply String.app_inj in Heq.
  revert b Heq. induction a as [|c a IH]; intros [|d b] Heq; simpl in *; try done.
  - apply (f_equal String.length) in Heq. simpl in Heq.
    rewrite string_length_app in Heq. simpl in Heq. lia.
  - apply (f_equal String.length) in Heq. simpl in Heq.
    rewrite string_length_app in Heq. simpl in Heq. lia.
  - inversion Heq; subst. f_equal. by apply IH.
Qed.

Section RepositoryMore.
Variable isoformat : datetime -> string.
Variable fromisoformat : string -> option datetime.

(** The files after [save], when the id resolves. *)
Lemma save_files (base_path : string) (s : Scenario Z) (fs : FS) :
  re_match_id (id s) = true ->
  _get_file_path base_path (id s)
  = Ok {| parent := base_path; p_name := id s +:+ ".json" |} ->
  let tmp := scenario_temp_file base_path (id s) in
  let tgt := scenario_file base_path (id s) in
  let r := save isoformat base_path s fs in
  fs_fails (snd r) = fs_fails fs /\
  ((fst r = Ok tt /\
    files (snd r) = <[tgt := Document (model_dump isoformat s)]> (delete tmp (files fs))) \/
   ((exists e, fst r = Raise e) /\
    (forall q, q <> tmp -> files (snd r) !! q = files fs !! q) /\
    (fs_fails fs (FsUnlink tmp) = false -> files (snd r) !! tmp = None))).
Proof.
  intros Hm Hp. unfold save, scenario_temp_file, scenario_file.
  rewrite Hp, (temp_path_of_id _ _ Hm).
  unfold fs_write, fs_replace, fs_exists, fs_unlink, path_str. simpl.
  set (tmp := base_path +:+ "/" +:+ id s +:+ ".tmp").
  set (tgt := base_path +:+ "/" +:+ id s +:+ ".json").
  destruct (fs_fails fs (FsOpenW tmp)) eqn:Hw; simpl.
  - destruct (files fs !! tmp) as [c|] eqn:Ht.
    + rewrite bool_decide_eq_true_2 by done. simpl.
      destruct (fs_fails fs (FsUnlink tmp)) eqn:Hu; simpl.
      * split; [done|]. right. split; [by eexists|]. by split.
      * split; [done|]. right. split; [by eexists|]. split.
        -- intros q Hq. by rewrite lookup_delete_ne.
        -- intros _. by rewrite lookup_delete_eq.
    + rewrite bool_decide_eq_false_2 by (by intros [? ?]). simpl.
      split; [done|]. right. split; [by eexists|]. by split.
  - rewrite lookup_insert_eq.
    destruct (fs_fails fs (FsReplace tmp tgt)) eqn:Hr; simpl.
    + rewrite lookup_insert_eq. rewrite bool_decide_eq_true_2 by done. simpl.
      destruct (fs_fails fs (FsUnlink tmp)) eqn:Hu; simpl.
      * split; [done|]. right. split; [by eexists|]. split; [|done].
        intros q Hq. by rewrite lookup_insert_ne.
      * split; [done|]. right. split; [by eexists|]. split.
        -- intros q Hq. by rewrite lookup_delete_ne, lookup_insert_ne.
        -- intros _. by rewrite lookup_delete_eq.
    + split; [done|]. left. split; [done|]. by rewrite delete_insert_eq.
Qed.

(** X17.  [save] is atomic on the scenario's file and touches nothing
    else.  For an id that resolves: whatever happens, no file other than
    [<base>/<id>.json] and [<base>/<id>.tmp] changes; when [save] returns,
    the scenario's file holds the new document and the temporary file is
    gone; when [save] raises (the write or the rename was refused), the
    scenario's file is exactly what it was before, and the temporary file
    is gone provided it can be removed. *)
Theorem save_atomic (base_path : string) (s : Scenario Z) (fs : FS) (p : Path) :
  _get_file_path base_path (id s) = Ok p ->
  let tmp := scenario_temp_file base_path (id s) in
  let tgt := scenario_file base_path (id s) in
  let r := save isoformat base_path s fs in
  path_str p = tgt /\ tmp <> tgt /\
  (forall q, q <> tmp -> q <> tgt -> files (snd r) !! q = files fs !! q) /\
  (fst r = Ok tt ->
   files (snd r) !! tgt = Some (Document (model_dump isoformat s)) /\
   files (snd r) !! tmp = None) /\
  (forall e, fst r = Raise e ->
   files (snd r) !! tgt = files fs !! tgt /\
   (fs_fails fs (FsUnlink tmp) = false -> files (snd r) !! tmp = None)).
Proof.
  intros Hp tmp tgt r.
  destruct (get_file_path_cases base_path (id s)) as [[msg Hbad]|[Hok Hm]];
    [congruence|].
  assert (p = {| parent := base_path; p_name := id s +:+ ".json" |}) as -> by congruence.
  assert (Hne : tmp <> tgt) by apply temp_file_not_scenario_file.
  split; [done|]. split; [done|].
  destruct (save_files base_path s fs Hm Hok) as [Hfails Hcases].
  fold tmp tgt r in Hcases.
  destruct Hcases as [[Hr Hfiles]|([e' Hr] & Hothers & Htmp)]; rewrite Hr.
  - rewrite Hfiles. split; [|split].
    + intros q Hq1 Hq2. by rewrite lookup_insert_ne, lookup_delete_ne.
    + intros _. split; [by rewrite lookup_insert_eq|].
      by rewrite lookup_insert_ne, lookup_delete_eq.
    + intros e He. discriminate.
  - split; [|split].
    + intros q Hq1 Hq2. by apply Hothers.
    + intros He. discriminate.
    + intros e _. split; [|done]. apply Hothers. congruence.
Qed.
End RepositoryMore.

Lemma save_atomic_witness :
  let r := save decimal_isoformat "store" example_scenario refusing_rename_fs in
  is_raise (fst r) /\
  files (snd r) !! "store/demo.json" = Some (Malformed "old") /\
  files (snd r) !! "store/demo.tmp" = None.
Proof.
  intros r. split; [exact I|].
  destruct (save_atomic decimal_isoformat "store" example_scenario refusing_rename_fs
              {| parent := "store"; p_name := "demo.json" |} eq_refl)
    as (_ & _ & _ & _ & Hfail).
  destruct (Hfail (IOError "Failed to save scenario demo: ") eq_refl) as [Htgt Htmp].
  split; [exact Htgt | exact (Htmp eq_refl)].
Defined.

Section RepositoryCompose.
Variable isoformat : datetime -> string.
Variable fromisoformat : string -> option datetime.

(** What [load] returns depends on the one file it reads and on what the
    operating system refuses, and on nothing else of the store. *)
Lemma load_depends_on_file (now : datetime) (base_path sid : string) (fs fs' : FS) :
  fs_fails fs' = fs_fails fs ->
  files fs' !! scenario_file base_path sid = files fs !! scenario_file base_path sid ->
  fst (load fromisoformat now base_path sid fs')
  = fst (load fromisoformat now base_path sid fs).
Proof.
  intros Hfails Hfile. unfold load.
  destruct (get_file_path_cases base_path sid) as [[msg ->]|[-> _]]; [done|].
  unfold fs_exists, fs_read, path_str. simpl.
  fold (scenario_file base_path sid). rewrite Hfile, Hfails.
  destruct (bool_decide _); simpl; [|done].
  destruct (fs_fails fs _); simpl; [done|].
  destruct (files fs !! scenario_file base_path sid) as [[?|?]|]; simpl; try done.
  by destruct (model_validate _ _ _).
Qed.

(** X18.  Scenarios with different ids do not interfere: saving a scenario,
    whether it succeeds or fails, does not change what [load] returns for
    any other id. *)
Theorem save_other_id_untouched (now : datetime) (base_path : string)
        (s : Scenario Z) (other : string) (fs : FS) :
  other <> id s ->
  fst (load fromisoformat now base_path other (snd (save isoformat base_path s fs)))
  = fst (load fromisoformat now base_path other fs).
Proof.
  intros Hne.
  destruct (get_file_path_cases base_path (id s)) as [[msg Hbad]|[Hok Hm]].
  { unfold save. by rewrite Hbad. }
  destruct (save_files isoformat base_path s fs Hm Hok) as [Hfails Hcases].
  apply load_depends_on_file; [done|].
  assert (Hq1 : scenario_file base_path other <> scenario_temp_file base_path (id s)).
  { intros Heq. by apply (temp_file_not_scenario_file base_path (id s) other). }
  assert (Hq2 : scenario_file base_path other <> scenario_file base_path (id s)).
  { intros Heq. by apply scenario_file_inj in Heq. }
  destruct Hcases as [[_ Hfiles]|(_ & Hothers & _)].
  - rewrite Hfiles. by rewrite lookup_insert_ne, lookup_delete_ne.
  - by apply Hothers.
Qed.

(** X19.  [delete] removes exactly the scenario's file, and only when it
    is there.  For an id that resolves: when the file is absent, [delete]
    raises [NotFoundError] and no file changes; when the file is present
    and the removal is not refused, [delete] returns, the file is gone,
    every other file is untouched, and from then on [exists] answers
    [False] and [load] and a second [delete] raise [NotFoundError]. *)
Theorem delete_spec (now : datetime) (base_path sid : string) (fs : FS) (p : Path) :
  _get_file_path base_path sid = Ok p ->
  let tgt := scenario_file base_path sid in
  let r := delete_ base_path sid fs in
  let not_found :=
    NotFoundError ("Scenario with id '" +:+ sid +:+ "' not found") in
  (files fs !! tgt = None ->
   fst r = Raise not_found /\ files (snd r) = files fs) /\
  (is_Some (files fs !! tgt) -> fs_fails fs (FsUnlink tgt) = false ->
   fst r = Ok tt /\
   files (snd r) = delete tgt (files fs) /\
   fst (exists_ base_path sid (snd r)) = Ok false /\
   fst (load fromisoformat now base_path sid (snd r)) = Raise not_found /\
   fst (delete_ base_path sid (snd r)) = Raise not_found).
Proof.
  intros Hp tgt r not_found.
  destruct (get_file_path_cases base_path sid) as [[msg Hbad]|[Hok _]]; [congruence|].
  unfold r, delete_, exists_, load. rewrite !Hok.
  unfold fs_exists, fs_unlink, path_str. simpl. fold (scenario_file base_path sid).
  fold tgt. split.
  - intros Hnone. rewrite Hnone.
    by rewrite bool_decide_eq_false_2 by (by intros [? ?]).
  - intros Hsome Hu. rewrite bool_decide_eq_true_2 by done. simpl. rewrite Hu. simpl.
    rewrite lookup_delete_eq.
    rewrite !bool_decide_eq_false_2 by (by intros [? ?]). done.
Qed.

End RepositoryCompose.

Lemma delete_spec_witness :
  let r := delete_ "store" "demo" refusing_rename_fs in
  fst r = Ok tt /\ files (snd r) = ∅ /\
  fst (exists_ "store" "demo" (snd r)) = Ok false.
Proof.
  intros r.
  destruct (delete_spec decimal_fromisoformat 0 "store" "demo" refusing_rename_fs
              {| parent := "store"; p_name := "demo.json" |} eq_refl) as [_ Hpresent].
  destruct Hpresent as (Hr & Hfiles & Hex & _); [by eexists | reflexivity |].
  split; [exact Hr|]. split; [|exact Hex].
  unfold r. rewrite Hfiles. apply delete_singleton_eq.
Defined.

Lemma save_other_id_untouched_witness :
  fst (load decimal_fromisoformat 0 "store" "other"
         (snd (save decimal_isoformat "store" example_scenario refusing_rename_fs)))
  = fst (load decimal_fromisoformat 0 "store" "other" refusing_rename_fs).
Proof.
  apply (save_other_id_untouched decimal_isoformat decimal_fromisoformat 0 "store"
           example_scenario "other" refusing_rename_fs).
  discriminate.
Defined.

Lemma opt_all_Forall2 {A B} (f : B -> option A) (l : list B) (xs : list A) :
  opt_all (map f l) = Some xs -> Forall2 (fun j x => f j = Some x) l xs.
Proof.
  revert xs. induction l as [|j l IH]; intros xs Hxs.
  - injection Hxs as <-. constructor.
  - unfold opt_all in Hxs. simpl in Hxs.
    destruct (f j) as [x|] eqn:Hj; [|done].
    fold (opt_all (map f l)) in Hxs.
    destruct (opt_all (map f l)) as [xs'|]; [|done].
    injection Hxs as <-. constructor; [done|]. by apply IH.
Qed.

Lemma load_list_Forall {A} (f : Json -> option A) (P : A -> Prop)
      (j : option Json) (xs : list A) :
  (forall v x, f v = Some x -> P x) ->
  load_list f j = Some xs -> Forall P xs.
Proof.
  intros Hf Hl. destruct j as [[]|]; simpl in Hl; try done.
  - apply opt_all_Forall2 in Hl.
    induction Hl; constructor; eauto.
  - injection Hl as <-. constructor.
Qed.

Lemma load_list_dump {A} (f : Json -> option A) (g : A -> Json) (l xs : list A) :
  (forall x y, f (g x) = Some y -> y = x) ->
  load_list f (Some (JArr (map g l))) = Some xs -> xs = l.
Proof.
  intros Hfg Hl. simpl in Hl. apply opt_all_Forall2 in Hl.
  revert xs Hl. induction l as [|x l IH]; intros xs Hl; inversion Hl; subst; [done|].
  f_equal; [by apply Hfg | by apply IH].
Qed.

(** Peels the successive steps of an [option] computation that returned. *)
Ltac bind_inv H :=
  repeat match type of H with
         | (?x ≫= _) = Some _ =>
             let E := fresh "E" in
             destruct x eqn:E; simpl in H; [|discriminate H]
         end.

Lemma load_criterion_valid (v : Json) (c : Criterion Z) :
  load_criterion v = Some c -> valid_criterion c.
Proof.
  unfold load_criterion, valid_criterion. intros Hl.
  destruct v; try done. bind_inv Hl.
  match type of Hl with (if ?w <? 0 then _ else _) = _ =>
    destruct (Z.ltb_spec w 0); [done|] end.
  injection Hl as <-. simpl. lia.
Qed.

Lemma load_score_valid (v : Json) (sc : Score) :
  load_score v = Some sc -> valid_score sc.
Proof.
  unfold load_score, valid_score. intros Hl.
  destruct v; try done. bind_inv Hl.
  match type of Hl with (if (1 <=? ?r) && _ then _ else _) = _ =>
    destruct (Z.leb_spec 1 r); simpl in Hl; [|done];
    destruct (Z.leb_spec r 5); simpl in Hl; [|done] end.
  injection Hl as <-. simpl. lia.
Qed.

Lemma load_step_valid (j : option Json) (q : Qc) :
  load_step j = Some q -> Qc_ltb (Z2Qc 0) q = true.
Proof.
  unfold load_step. intros Hq. destruct j as [[]|]; try done.
  - match type of Hq with (if 0 <? ?n then _ else _) = _ =>
      destruct (Z.ltb_spec 0 n); [|done] end.
    injection Hq as <-. rewrite Z2Qc_ltb. by apply Z.ltb_lt.
  - destruct (Qc_ltb _ _) eqn:Hlt; [|done]. by injection Hq as <-.
  - by injection Hq as <-.
Qed.

Lemma load_settings_valid (j : option Json) (st : Settings) :
  load_settings j = Some st -> Qc_ltb (Z2Qc 0) (sensitivityStep st) = true.
Proof.
  unfold load_settings. intros Hl. destruct j as [[]|]; try done.
  - bind_inv Hl. injection Hl as <-. simpl. by eapply load_step_valid.
  - by injection Hl as <-.
Qed.

Lemma load_dump_criterion_inv (c c' : Criterion Z) :
  load_criterion (dump_criterion c) = Some c' -> c' = c.
Proof.
  destruct c as [i n w [h l] a]. simpl.
  destruct (w <? 0); [done|]. by intros [= <-].
Qed.

Lemma load_dump_score_inv (sc sc' : Score) :
  load_score (dump_score sc) = Some sc' -> sc' = sc.
Proof.
  destruct sc as [o c r [rt|]]; simpl;
    (destruct ((1 <=? r) && (r <=? 5)); [|done]); by intros [= <-].
Qed.

Lemma load_dump_settings_inv (st st' : Settings) :
  load_settings (Some (dump_settings st)) = Some st' ->
  sensitivityStep st' = sensitivityStep st.
Proof.
  destruct st as [p f q]. simpl.
  destruct p, f; simpl; (destruct (Qc_ltb _ q); [|done]); by intros [= <-].
Qed.

Section RepositoryValidation.
Variable isoformat : datetime -> string.
Variable fromisoformat : string -> option datetime.

Lemma model_validate_fields (now : datetime) (l : list (string * Json))
      (s : Scenario Z) :
  model_validate fromisoformat now (JObj l) = Some s ->
  load_list load_criterion (jget "criteria" l) = Some (criteria s) /\
  load_list load_score (jget "scores" l) = Some (scores s) /\
  load_settings (jget "settings" l) = Some (settings s).
Proof.
  unfold model_validate. intros Hv. bind_inv Hv. by injection Hv as <-.
Qed.

Lemma model_validate_valid (now : datetime) (j : Json) (s : Scenario Z) :
  model_validate fromisoformat now j = Some s -> valid_scenario s.
Proof.
  intros Hv. destruct j; try done.
  apply model_validate_fields in Hv as (Hcs & Hsc & Hst).
  split; [|split].
  - eapply load_list_Forall; [apply load_criterion_valid | exact Hcs].
  - eapply load_list_Forall; [apply load_score_valid | exact Hsc].
  - by eapply load_settings_valid.
Qed.

Lemma model_validate_dump_invalid (now : datetime) (s : Scenario Z) :
  ~ valid_scenario s ->
  model_validate fromisoformat now (model_dump isoformat s) = None.
Proof.
  intros Hinv.
  destruct (model_validate _ _ _) as [s'|] eqn:Hv; [|done].
  exfalso. apply Hinv.
  pose proof (model_validate_valid _ _ _ Hv) as (Hc & Hs & Hq).
  unfold model_dump in Hv.
  apply model_validate_fields in Hv as (Hcs & Hsc & Hst).
  change (jget "criteria" _)
    with (Some (JArr (map dump_criterion (criteria s)))) in Hcs.
  change (jget "scores" _)
    with (Some (JArr (map dump_score (scores s)))) in Hsc.
  change (jget "settings" _) with (Some (dump_settings (settings s))) in Hst.
  apply load_list_dump in Hcs; [|apply load_dump_criterion_inv].
  apply load_list_dump in Hsc; [|apply load_dump_score_inv].
  apply load_dump_settings_inv in Hst.
  unfold valid_scenario. by rewrite <- Hcs, <- Hsc, <- Hst.
Qed.

(** X20.  The field constraints of the models are enforced when a scenario
    is read, not when it is written.  Whatever the store holds, a scenario
    that [load] returns has no negative weight, only raw scores from 1 to
    5 and a positive sensitivity step.  [save] checks none of this: when a
    scenario that breaks a constraint is saved successfully, loading it
    back raises [IOError] "Failed to load scenario ...". *)
Theorem load_validates (now : datetime) (base_path : string) :
  (forall sid fs s,
     fst (load fromisoformat now base_path sid fs) = Ok s -> valid_scenario s) /\
  (forall s fs,
     ~ valid_scenario s ->
     fst (save isoformat base_path s fs) = Ok tt ->
     fst (load fromisoformat now base_path (id s) (snd (save isoformat base_path s fs)))
     = Raise (IOError ("Failed to load scenario " +:+ id s +:+ ": "))).
Proof.
  split.
  - intros sid fs s. unfold load.
    destruct (_get_file_path base_path sid); [|done].
    unfold fs_exists, fs_read. simpl.
    destruct (bool_decide _); simpl; [|done].
    destruct (fs_fails fs _); simpl; [done|].
    destruct (files fs !! _) as [[data|?]|]; simpl; try done.
    destruct (model_validate _ _ _) as [s'|] eqn:Hv; simpl; [|done].
    intros [= <-]. by eapply model_validate_valid.
  - intros s fs Hinv Hsave.
    destruct (save_ok_file isoformat base_path s fs Hsave) as (Hp & Hfile & Hfails).
    pose proof (model_validate_dump_invalid now s Hinv) as Hv.
    clear Hfails Hsave. revert Hfile Hv.
    generalize (model_dump isoformat s) as d.
    generalize (snd (save isoformat base_path s fs)) as fs'.
    intros fs' d Hfile Hv.
    unfold load. rewrite Hp. unfold fs_exists, fs_read, path_str. simpl.
    rewrite Hfile. rewrite bool_decide_eq_true_2 by by eexists. simpl.
    destruct (fs_fails _ _); simpl; [done|]. by rewrite Hv.
Qed.
End RepositoryValidation.

Lemma load_validates_witness :
  fst (load decimal_fromisoformat 0 "store" "demo"
         (snd (save decimal_isoformat "store" out_of_range_scenario empty_fs)))
  = Raise (IOError "Failed to load scenario demo: ") /\
  valid_scenario example_scenario.
Proof.
  destruct (load_validates decimal_isoformat decimal_fromisoformat 0 "store")
    as [Hloaded Hrejected].
  split.
  - apply (Hrejected out_of_range_scenario empty_fs); [|reflexivity].
    intros (_ & Hs & _). inversion Hs as [|? ? Hraw _]; subst.
    unfold valid_score in Hraw. simpl in Hraw. lia.
  - apply (Hloaded "demo"
             (snd (save decimal_isoformat "store" example_scenario empty_fs))).
    vm_compute. reflexivity.
Defined.

Lemma str_of_int_inj (a b : Z) : str_of_int a = str_of_int b -> a = b.
Proof.
  unfold str_of_int. intros Heq.
  assert (Hi : Z.to_int a = Z.to_int b).
  { apply (inj Some).
    by rewrite <- !DecimalString.NilEmpty.isi, Heq. }
  by rewrite <- (DecimalZ.of_to a), <- (DecimalZ.of_to b), Hi.
Qed.

Lemma option_models_names (i : Z) (names : list string) :
  map o_name (option_models i names) = names.
Proof.
  revert i. induction names as [|n names IH]; intros i; simpl; [done|].
  by rewrite IH.
Qed.

Lemma option_models_ids (i : Z) (names : list string) (x : string) :
  x ∈ map o_id (option_models i names) ->
  exists k, i < k /\ x = "opt" +:+ str_of_int k.
Proof.
  revert i. induction names as [|n names IH]; intros i; simpl.
  - by intros ?%elem_of_nil.
  - intros [->|Hin]%elem_of_cons.
    + exists (i + 1). split; [lia | done].
    + destruct (IH _ Hin) as (k & Hk & ->). exists k. split; [lia | done].
Qed.

Lemma option_models_nodup (i : Z) (names : list string) :
  NoDup (map o_id (option_models i names)).
Proof.
  revert i. induction names as [|n names IH]; intros i; simpl.
  - constructor.
  - constructor; [|apply IH].
    intros Hin. destruct (option_models_ids _ _ _ Hin) as (k & Hk & Heq).
    injection Heq as Heq. apply str_of_int_inj in Heq. lia.
Qed.

Lemma check_option_names_ok (i : Z) (names : list string) :
  forallb (name_ok 100) names = true -> check_option_names i names = Ok tt.
Proof.
  revert i. induction names as [|n names IH]; intros i; simpl; [done|].
  unfold name_ok at 1. intros [[Hb Hl]%andb_prop Hrest]%andb_prop.
  apply negb_true_iff in Hb. rewrite Hb.
  apply Z.leb_le in Hl. destruct (Z.ltb_spec 100 (Z.of_nat (py_len n))); [lia|].
  by apply IH.
Qed.

Lemma check_option_names_bad (i : Z) (names : list string) :
  forallb (name_ok 100) names = false ->
  exists msg, check_option_names i names = Raise (ValidationError msg).
Proof.
  revert i. induction names as [|n names IH]; intros i; simpl; [done|].
  unfold name_ok at 1. intros Hbad.
  destruct (is_blank n); [by eexists|]. simpl in Hbad.
  destruct (Z.ltb_spec 100 (Z.of_nat (py_len n))); [by eexists|].
  destruct (Z.leb_spec (Z.of_nat (py_len n)) 100); [|lia].
  simpl in Hbad. by apply IH.
Qed.

(** X21.  [create] validates before it does anything else, and numbers
    the options apart.  When the title or an option name is blank (empty,
    or whitespace only, Unicode whitespace included) or too long (more
    than 200 and 100 code points), or there is no option, it raises
    [ValidationError], whatever
    the criteria are and whether or not the default criteria can be
    loaded.  Otherwise it fails only as the loading of the default
    criteria fails, and when criteria are there it returns a scenario
    with the first 12 characters of the UUID as id, the given title and
    criteria, one option per name in the given order, pairwise different
    option ids, no score, no audit event, unlocked weights and the
    default settings. *)
Theorem create_spec (uuid4 : string) (created modified : datetime)
        (default_criteria : result (list (Criterion Z)))
        (ttl : string) (names : list string)
        (custom_criteria : option (list (Criterion Z))) :
  let r := create uuid4 created modified default_criteria ttl names custom_criteria in
  let source := match custom_criteria with
                | Some cs => Ok cs
                | None => default_criteria
                end in
  (inputs_ok ttl names = false -> exists msg, r = Raise (ValidationError msg)) /\
  (inputs_ok ttl names = true ->
   (forall e, source = Raise e -> r = Raise e) /\
   (forall cs, source = Ok cs ->
      exists s, r = Ok s /\
        id s = substring 0 12 uuid4 /\ title s = ttl /\
        createdAt s = created /\ modifiedAt s = modified /\
        criteria s = cs /\
        map o_name (options s) = names /\
        NoDup (map o_id (options s)) /\
        scores s = [] /\ audit s = [] /\
        weightsLocked s = false /\ settings s = default_settings)).
Proof.
  intros r source. unfold r, create, inputs_ok, name_ok. split.
  - intros Hbad.
    destruct (is_blank ttl); [by eexists|]. simpl in Hbad.
    destruct (Z.ltb_spec 200 (Z.of_nat (py_len ttl))); [by eexists|].
    destruct (Z.leb_spec (Z.of_nat (py_len ttl)) 200); [|lia].
    simpl in Hbad.
    destruct (bool_decide (names = [])); [by eexists|]. simpl in Hbad.
    destruct (check_option_names_bad 0 names Hbad) as [msg ->]. by eexists.
  - intros [[[Hb Hl]%andb_prop Hne]%andb_prop Hnames]%andb_prop.
    apply negb_true_iff in Hb, Hne. rewrite Hb, Hne.
    apply Z.leb_le in Hl.
    destruct (Z.ltb_spec 200 (Z.of_nat (py_len ttl))); [lia|].
    rewrite (check_option_names_ok 0 names Hnames). fold source. split.
    + by intros e ->.
    + intros cs ->. eexists. split; [reflexivity|]. simpl.
      repeat split; [apply option_models_names | apply option_models_nodup].
Qed.

Lemma create_spec_witness :
  exists s,
    create "123e4567-e89b-42d3-a456-426614174000" 1 2 (Raise (IOError "no file"))
           (str_repeat e_acute 150) ["Overall survival"; "Progression-free survival"]
           (Some [mk_criterion "c1" 10]) = Ok s /\
    map o_id (options s) = ["opt1"; "opt2"] /\
    NoDup (map o_id (options s)).
Proof.
  destruct (create_spec "123e4567-e89b-42d3-a456-426614174000" 1 2
              (Raise (IOError "no file")) (str_repeat e_acute 150)
              ["Overall survival"; "Progression-free survival"]
              (Some [mk_criterion "c1" 10])) as [_ Hgood].
  destruct Hgood as [_ Hok]; [vm_compute; reflexivity|].
  destruct (Hok _ eq_refl) as (s & Hs & _ & _ & _ & _ & _ & _ & Hnodup & _).
  exists s. split; [exact Hs|]. split; [|exact Hnodup].
  vm_compute in Hs. injection Hs as <-. reflexivity.
Defined.

(** Blankness and length are those of the text, not of its bytes: a
    title of 150 accented letters (300 bytes) is accepted, and a title or
    an option name of two em spaces is blank. *)
Example create_text_examples :
  inputs_ok (str_repeat e_acute 150) ["A"] = true /\
  create "123e4567-e89b-42d3-a456-426614174000" 1 2 (Ok []) (em_space +:+ em_space)
         ["A"] None
  = Raise (ValidationError "Scenario title cannot be empty") /\
  create "123e4567-e89b-42d3-a456-426614174000" 1 2 (Ok []) "Endpoints"
         ["A"; em_space +:+ em_space] None
  = Raise (ValidationError "Option 2 name cannot be empty") /\
  create "123e4567-e89b-42d3-a456-426614174000" 1 2 (Ok []) (str_repeat e_acute 201)
         ["A"] None
  = Raise (ValidationError "Scenario title must be 200 characters or less").
Proof. repeat split; vm_compute; reflexivity. Qed.

Lemma is_uuid_char_id_char (c : ascii) :
  is_uuid_char c = true -> is_id_char c = true.
Proof.
  unfold is_uuid_char, is_id_char. generalize (nat_of_ascii c) as n. intros n.
  rewrite !orb_true_iff, !andb_true_iff, !Nat.leb_le, !Nat.eqb_eq. lia.
Qed.

Lemma str_all_substring (P : ascii -> bool) (n : nat) (s : string) :
  str_all P s = true -> str_all P (substring 0 n s) = true.
Proof.
  revert s. induction n as [|n IH]; intros [|c s]; simpl; try done.
  intros [Hc Hs]%andb_prop. rewrite Hc. simpl. by apply IH.
Qed.

Lemma str_all_impl (P Q : ascii -> bool) (s : string) :
  (forall c, P c = true -> Q c = true) ->
  str_all P s = true -> str_all Q s = true.
Proof.
  intros HPQ. induction s as [|c s IH]; simpl; [done|].
  intros [Hc Hs]%andb_prop. by rewrite (HPQ c Hc), IH.
Qed.

Lemma uuid_prefix_well_formed (u : string) :
  uuid_text u -> id_well_formed (substring 0 12 u).
Proof.
  intros [Hlen Hall]. split.
  - destruct u; [done|]. simpl. done.
  - apply str_all_substring. by eapply str_all_impl; [apply is_uuid_char_id_char|].
Qed.

Lemma create_fields (uuid4 : string) (created modified : datetime)
      (default_criteria : result (list (Criterion Z)))
      (ttl : string) (names : list string)
      (custom_criteria : option (list (Criterion Z))) (s : Scenario Z) :
  create uuid4 created modified default_criteria ttl names custom_criteria = Ok s ->
  id s = substring 0 12 uuid4 /\ scores s = [] /\ settings s = default_settings.
Proof.
  unfold create. intros Hc.
  destruct (is_blank ttl); [done|].
  destruct (200 <? _); [done|].
  destruct (bool_decide _); [done|].
  destruct (check_option_names 0 names); [|done].
  destruct (match custom_criteria with Some cs => Ok cs | None => _ end); [|done].
  by injection Hc as <-.
Qed.

Section CreateSaveOpen.
Variable isoformat : datetime -> string.
Variable fromisoformat : string -> option datetime.
Hypothesis iso_round_trip : forall d, fromisoformat (isoformat d) = Some d.

(** X22.  A new scenario can be stored and opened again.  When [create]
    returns a scenario from the text of a UUID, its criteria have no
    negative weight and the operating system refuses nothing, the
    repository accepts the scenario's id, [save] succeeds, [exists]
    answers [True], and [load] (ScenarioService.open) returns the
    scenario that was created. *)
Theorem create_save_open (now : datetime) (base_path uuid4 : string)
        (created modified : datetime)
        (default_criteria : result (list (Criterion Z)))
        (ttl : string) (names : list string)
        (custom_criteria : option (list (Criterion Z)))
        (s : Scenario Z) (fs : FS) :
  uuid_text uuid4 ->
  create uuid4 created modified default_criteria ttl names custom_criteria = Ok s ->
  Forall valid_criterion (criteria s) ->
  (forall c, fs_fails fs c = false) ->
  let saved := save isoformat base_path s fs in
  fst saved = Ok tt /\
  fst (exists_ base_path (id s) (snd saved)) = Ok true /\
  fst (load fromisoformat now base_path (id s) (snd saved)) = Ok s.
Proof.
  intros Hu Hcreate Hcrit Hno saved.
  destruct (create_fields _ _ _ _ _ _ _ _ Hcreate) as (Hid & Hsc & Hst).
  assert (Hwf : id_well_formed (id s)).
  { rewrite Hid. by apply uuid_prefix_well_formed. }
  assert (Hvalid : valid_scenario s).
  { split; [done|]. split; [rewrite Hsc; constructor | by rewrite Hst]. }
  pose proof (save_succeeds isoformat base_path s fs Hwf Hno) as Hok.
  destruct (save_ok_file isoformat base_path s fs Hok) as (Hp & Hfile & Hfails).
  split; [exact Hok|]. fold saved in Hfile, Hfails.
  unfold exists_, load. rewrite Hp.
  unfold fs_exists, fs_read, path_str. simpl.
  rewrite Hfile. rewrite bool_decide_eq_true_2 by done. simpl.
  split; [done|]. rewrite Hfails, Hno.
  by rewrite (model_validate_dump isoformat fromisoformat iso_round_trip now s Hvalid).
Qed.
End CreateSaveOpen.

Lemma create_save_open_witness :
  exists s,
    create "123e4567-e89b-42d3-a456-426614174000" 1 2 (Raise (IOError "no file"))
           "Endpoints" ["Overall survival"] (Some [mk_criterion "c1" 10]) = Ok s /\
    fst (load decimal_fromisoformat 0 "store" (id s)
           (snd (save decimal_isoformat "store" s empty_fs))) = Ok s.
Proof.
  destruct (create "123e4567-e89b-42d3-a456-426614174000" 1 2
              (Raise (IOError "no file")) "Endpoints" ["Overall survival"]
              (Some [mk_criterion "c1" 10])) as [s|e] eqn:Hs;
    [|vm_compute in Hs; discriminate].
  exists s. split; [reflexivity|].
  assert (Hu : uuid_text "123e4567-e89b-42d3-a456-426614174000")
    by (split; reflexivity).
  assert (Hcrit : Forall valid_criterion (criteria s)).
  { vm_compute in Hs. injection Hs as <-. repeat constructor.
    vm_compute. discriminate. }
  apply (create_save_open decimal_isoformat decimal_fromisoformat
           decimal_round_trip 0 "store" "123e4567-e89b-42d3-a456-426614174000"
           1 2 (Raise (IOError "no file")) "Endpoints" ["Overall survival"]
           (Some [mk_criterion "c1" 10]) s empty_fs Hu Hs Hcrit).
  reflexivity.
Defined.

Lemma score_keys_in_cells (s : Scenario Z) :
  refs_valid s ->
  forall k, k ∈ map score_key (scores s) ->
            k ∈ list_prod (map o_id (options s)) (map c_id (criteria s)).
Proof.
  intros Hrefs k Hk. apply list_elem_of_fmap in Hk as (sc & -> & Hsc).
  destruct (Hrefs sc Hsc) as [(o & Ho & Hoid) (c & Hc & Hcid)].
  apply list_elem_of_In, in_prod.
  - apply list_elem_of_In. rewrite <- Hoid. by apply list_elem_of_fmap_2.
  - apply list_elem_of_In. rewrite <- Hcid. by apply list_elem_of_fmap_2.
Qed.

(** X23.  Progress never exceeds the grid.  In a scenario whose scores
    name options and criteria of the scenario and where no pair is
    scored twice, [progress] reports at most as many scored cells as
    cells and a percentage between 0 and 100; when the two counts are
    equal, every pair of an option and a criterion has a score. *)
Theorem progress_bounds (s : Scenario Z) :
  refs_valid s -> unique_pairs s ->
  let p := progress s in
  0 <= scored_cells p <= total_cells p /\
  (Z2Qc 0 <= percent_complete p)%Qc /\ (percent_complete p <= Z2Qc 100)%Qc /\
  (scored_cells p = total_cells p ->
   forall o c, o ∈ options s -> c ∈ criteria s ->
               (o_id o, c_id c) ∈ map score_key (scores s)).
Proof.
  intros Hrefs Huniq p.
  set (cells := list_prod (map o_id (options s)) (map c_id (criteria s))).
  assert (Hsub : map score_key (scores s) ⊆+ cells).
  { apply NoDup_submseteq; [exact Huniq|]. by apply score_keys_in_cells. }
  assert (Hcells : Z.of_nat (length cells) = total_cells p).
  { unfold cells. rewrite length_prod, !length_map. simpl. lia. }
  assert (Hscored : Z.of_nat (length (map score_key (scores s))) = scored_cells p).
  { by rewrite length_map. }
  pose proof (submseteq_length _ _ Hsub) as Hlen.
  assert (Hle : 0 <= scored_cells p <= total_cells p) by lia.
  split; [exact Hle|].
  assert (Hpct : (Z2Qc 0 <= percent_complete p)%Qc /\
                 (percent_complete p <= Z2Qc 100)%Qc).
  { unfold p, progress. cbn [percent_complete].
    destruct (Z.ltb_spec 0 (Z.of_nat (length (options s)) * Z.of_nat (length (criteria s))))
      as [Hpos|Hzero].
    - unfold f64_of_int. rewrite (f64_round_int 100) by (simpl; lia).
      by apply f64_percent_bounds.
    - split; [apply Qcle_refl | by apply Z2Qc_le]. }
  split; [apply Hpct|]. split; [apply Hpct|].
  intros Heq o c Ho Hc.
  assert (Hperm : map score_key (scores s) ≡ₚ cells).
  { apply submseteq_length_Permutation; [exact Hsub | lia]. }
  rewrite Hperm. apply list_elem_of_In, in_prod.
  - apply list_elem_of_In. by apply list_elem_of_fmap_2.
  - apply list_elem_of_In. by apply list_elem_of_fmap_2.
Qed.

Lemma example_refs_valid : refs_valid example_scenario.
Proof.
  intros sc Hsc. unfold example_scenario, mk_scenario in *. cbn [scores options criteria] in *.
  repeat (apply elem_of_cons in Hsc as [->|Hsc]);
    [.. | by apply elem_of_nil in Hsc];
    (split;
     [first [by exists (mk_option "A"); split; [apply list_elem_of_In; simpl; tauto|]
            |by exists (mk_option "B"); split; [apply list_elem_of_In; simpl; tauto|]]
     |first [by exists (mk_criterion "c1" 10); split; [apply list_elem_of_In; simpl; tauto|]
            |by exists (mk_criterion "c2" 5); split; [apply list_elem_of_In; simpl; tauto|]]]).
Qed.

Lemma progress_bounds_witness :
  (percent_complete (progress example_scenario) <= Z2Qc 100)%Qc /\
  ("B", "c1") ∈ map score_key (scores example_scenario).
Proof.
  destruct (progress_bounds example_scenario example_refs_valid example_unique_pairs)
    as (_ & _ & Hle & Hfull).
  split; [exact Hle|].
  apply (Hfull eq_refl (mk_option "B") (mk_criterion "c1" 10));
    apply list_elem_of_In; simpl; tauto.
Defined.
